(** * scss-bundle: the Bundler of [src/bundler.ts] and the command line of
    [src/bundle-cli.ts], embedded and verified

    The file follows the TypeScript source function by function.

    - JavaScript strings are [string]s of 8-bit code units (the two
      non-ASCII line separators U+2028 and U+2029 are outside this alphabet).
    - The two regular expressions of the source are implemented by a matcher
      specialised to their shape (literal prefix, quote, greedy [(.+)],
      quote, semicolon).
    - [async] code is a tree of awaited operations ([Task]); a promise that
      rejects is the leaf [Throw].  A sequential interpreter ([run]) gives the
      meaning of one call, a pool of tasks driven by a schedule gives the
      meaning of [Promise.all] over several [Bundle] calls.
    - The objects used as dictionaries ([fileRegistry], [usedImports],
      [importsByFile]) are [gmap]s keyed by path; the file system is a [gmap]
      from path to node and never changes during a run.
    - Node's [path] module, [os.EOL] and the [globs] package are parameters.
    - The command line (module [Cli]) is a function from the values of the
      options to the calls it makes of its collaborators (the launcher, the
      watcher, the console, the process), each call taken to return. *)

From Stdlib Require Import Ascii String.
From stdpp Require Import base option list gmap strings pretty.

#[local] Set Warnings "-clear-no-such-hyp".
Local Open Scope string_scope.
Local Open Scope list_scope.
#[local] Arguments String.append !s1 s2 : simpl nomatch.
#[local] Arguments Ascii.eqb : simpl never.

(** ** Strings *)

Definition LF : ascii := "010"%char.
Definition CR : ascii := "013"%char.
Definition dquote : ascii := "034"%char.
Definition squote : ascii := "'"%char.
Definition dollar : ascii := "$"%char.

(** What the regular-expression atom [.] refuses. *)
Definition is_line_terminator (c : ascii) : bool :=
  Ascii.eqb c LF || Ascii.eqb c CR.

(** The character class of the two quote characters. *)
Definition is_quote (c : ascii) : bool :=
  Ascii.eqb c squote || Ascii.eqb c dquote.

Fixpoint starts_with (p s : string) : bool :=
  match p, s with
  | EmptyString, _ => true
  | String a p', String b s' => Ascii.eqb a b && starts_with p' s'
  | String _ _, EmptyString => false
  end.

Fixpoint sdrop (n : nat) (s : string) : string :=
  match n, s with
  | S k, String _ s' => sdrop k s'
  | _, _ => s
  end.

Fixpoint stake (n : nat) (s : string) : string :=
  match n, s with
  | S k, String c s' => String c (stake k s')
  | _, _ => EmptyString
  end.

(** [s.indexOf(sub)], with [None] for -1. *)
Fixpoint indexOf (sub s : string) : option nat :=
  if starts_with sub s then Some 0
  else match s with
       | EmptyString => None
       | String _ s' => S <$> indexOf sub s'
       end.

(** The text before and after the first occurrence of [sub] in [s]. *)
Fixpoint split_first (sub s : string) : option (string * string) :=
  if starts_with sub s then Some (EmptyString, sdrop (String.length sub) s)
  else match s with
       | EmptyString => None
       | String c s' =>
           match split_first sub s' with
           | Some (b, a) => Some (String c b, a)
           | None => None
           end
       end.

(** ECMAScript's GetSubstitution for a string pattern (no captures): in the
    replacement text a dollar followed by a dollar stands for one dollar, by
    an ampersand for the matched text, by a backquote for the text before the
    match and by a single quote for the text after it; every other dollar is
    kept as it is. *)
Fixpoint getSubstitution (matched before after repl : string) : string :=
  match repl with
  | EmptyString => EmptyString
  | String c r =>
      if Ascii.eqb c dollar then
        match r with
        | String d r' =>
            if Ascii.eqb d dollar then String dollar (getSubstitution matched before after r')
            else if Ascii.eqb d "&"%char then matched +:+ getSubstitution matched before after r'
            else if Ascii.eqb d "`"%char then before +:+ getSubstitution matched before after r'
            else if Ascii.eqb d squote then after +:+ getSubstitution matched before after r'
            else String c (getSubstitution matched before after r)
        | EmptyString => String c EmptyString
        end
      else String c (getSubstitution matched before after r)
  end.

(** [s.replace(pat, repl)] with a string pattern: the first occurrence only. *)
Definition js_replace (s pat repl : string) : string :=
  match split_first pat s with
  | Some (before, after) => before +:+ getSubstitution pat before after repl +:+ after
  | None => s
  end.

(** ** The two regular expressions *)

(** Greedy [.*] followed by [close]: the length of the longest run of
    characters other than line terminators after which [close] matches. *)
Fixpoint dots_then (close : string -> bool) (s : string) : option nat :=
  match s with
  | EmptyString => if close s then Some 0 else None
  | String c s' =>
      match (if is_line_terminator c then None else dots_then close s') with
      | Some n => Some (S n)
      | None => if close s then Some 0 else None
      end
  end.

(** Greedy [.+] followed by [close]. *)
Definition dots1_then (close : string -> bool) (s : string) : option nat :=
  match dots_then close s with
  | Some (S n) => Some (S n)
  | _ => None
  end.

(** The tail of IMPORT_PATTERN: a quote character, then a semicolon. *)
Definition import_close (s : string) : bool :=
  match s with
  | String q (String c _) => is_quote q && Ascii.eqb c ";"%char
  | _ => false
  end.

(** IMPORT_PATTERN (the text [@import ], a single or double quote, greedy
    [(.+)], a single or double quote, a semicolon) tried at the head of [s]:
    the length of the capture. *)
Definition exec_import (s : string) : option nat :=
  if starts_with "@import " s then
    match sdrop 8 s with
    | String q r => if is_quote q then dots1_then import_close r else None
    | EmptyString => None
    end
  else None.

(** COMMENTED_IMPORT_PATTERN (two slashes, the text [@import ], a single
    quote, greedy [(.+)], a single quote, a semicolon) tried at the head of
    [s]: the length of the capture. *)
Definition exec_commented (s : string) : option nat :=
  if starts_with "//@import '" s then dots1_then (starts_with "';") (sdrop 11 s)
  else None.

(** One match of IMPORT_PATTERN: [match[0]] and [match[1]]. *)
Record ImportMatch := { matchText : string; matchPath : string }.

(** All matches of IMPORT_PATTERN, left to right, each search resuming where
    the previous match ended ([skip] counts the characters of the current
    match still to pass). *)
Fixpoint scan_imports (skip : nat) (s : string) : list ImportMatch :=
  match s with
  | EmptyString => []
  | String _ s' =>
      match skip with
      | S k => scan_imports k s'
      | O =>
          match exec_import s with
          | Some n =>
              {| matchText := stake (n + 11) s; matchPath := stake n (sdrop 9 s) |}
                :: scan_imports (n + 10) s'
          | None => scan_imports 0 s'
          end
      end
  end.

(** Modelled from the spec: [Helpers.getAllMatches] lives in
    [src/helpers.ts], which is not among the sources; the spec has the engine
    scan the content for every live directive in appearance order, which for
    a global regular expression is the loop of [regex.exec]. *)
Definition getAllMatches (content : string) : list ImportMatch :=
  scan_imports 0 content.

(** [content.replace] with COMMENTED_IMPORT_PATTERN and the empty text:
    every match removed. *)
Fixpoint strip_commented_from (skip : nat) (s : string) : string :=
  match s with
  | EmptyString => EmptyString
  | String c s' =>
      match skip with
      | S k => strip_commented_from k s'
      | O =>
          match exec_commented s with
          | Some n => strip_commented_from (n + 12) s'
          | None => String c (strip_commented_from 0 s')
          end
      end
  end.

Definition strip_commented (content : string) : string :=
  strip_commented_from 0 content.

Definition FILE_EXTENSION : string := ".scss".

Definition q2 (s : string) : string := String dquote (s +:+ String dquote EmptyString).

(** ** Data of the bundler *)

(** [ImportData]. *)
Record ImportData := {
  importString : string;
  path : string;
  fullPath : string;
  found : bool
}.

(** [BundleResult]; an optional field that is absent is [None], and the
    optional flag [deduped], which the code only ever sets to true, is a
    boolean. *)
#[warnings="-register-all"]
Inductive BundleResult : Type := mkBundleResult {
  filePath : string;
  resultFound : bool;
  bundledContent : option string;
  deduped : bool;
  imports : option (list BundleResult)
}.

(** The value of a counter of [usedImports]: a number, or NaN, which is what
    [++] stores when the entry was undefined. *)
Inductive jsnum := Num (n : nat) | NaN.

(** The three dictionaries of a [Bundler] instance. *)
Record Bundler := {
  fileRegistry : gmap string string;
  usedImports : gmap string jsnum;
  importsByFile : gmap string (list BundleResult)
}.

(** [new Bundler()]. *)
Definition fresh : Bundler :=
  {| fileRegistry := ∅; usedImports := ∅; importsByFile := ∅ |}.

(** [new Bundler(fileRegistry)] (line 39). *)
Definition new_Bundler (registry : gmap string string) : Bundler :=
  {| fileRegistry := registry; usedImports := ∅; importsByFile := ∅ |}.

(** [this.fileRegistry[p] = v], where storing undefined leaves an entry that
    every later [== null] test takes for absent. *)
Definition set_registry (p : string) (v : option string) (s : Bundler) : Bundler :=
  {| fileRegistry := match v with
                     | Some c => <[p := c]> (fileRegistry s)
                     | None => delete p (fileRegistry s)
                     end;
     usedImports := usedImports s;
     importsByFile := importsByFile s |}.

(** Lines 80-82: seed the registry unless the path has an entry. *)
Definition seed_registry (p content : string) (s : Bundler) : Bundler :=
  match fileRegistry s !! p with
  | None => set_registry p (Some content) s
  | Some _ => s
  end.

(** Lines 156-158. *)
Definition mark_used (p : string) (s : Bundler) : Bundler :=
  match usedImports s !! p with
  | None => {| fileRegistry := fileRegistry s;
               usedImports := <[p := Num 1]> (usedImports s);
               importsByFile := importsByFile s |}
  | Some _ => s
  end.

(** [x++] on a counter that may be undefined. *)
Definition incr (v : option jsnum) : jsnum :=
  match v with
  | Some (Num n) => Num (S n)
  | _ => NaN
  end.

(** Line 166. *)
Definition bump_used (p : string) (s : Bundler) : Bundler :=
  {| fileRegistry := fileRegistry s;
     usedImports := <[p := incr (usedImports s !! p)]> (usedImports s);
     importsByFile := importsByFile s |}.

(** Line 218. *)
Definition set_imports (p : string) (l : list BundleResult) (s : Bundler) : Bundler :=
  {| fileRegistry := fileRegistry s;
     usedImports := usedImports s;
     importsByFile := <[p := l]> (importsByFile s) |}.

(** [timesUsed != null && timesUsed > 1]. *)
Definition used_twice (v : option jsnum) : bool :=
  match v with
  | Some (Num n) => bool_decide (1 < n)
  | _ => false
  end.

Definition not_found_result (p : string) : BundleResult :=
  {| filePath := p; resultFound := false; bundledContent := None;
     deduped := false; imports := None |}.

Definition set_deduped (r : BundleResult) : BundleResult :=
  {| filePath := filePath r; resultFound := resultFound r;
     bundledContent := bundledContent r; deduped := true; imports := imports r |}.

(** ** Asynchronous code as trees of awaited operations *)

(** What a call of the package [globs] on a list of patterns comes to: its
    callback is called with the matching paths; or with an error, and with
    or without a list of files beside it; or the call itself throws. *)
Inductive glob_result :=
| GlobFiles (files : list string)
| GlobError (files : option (list string))
| GlobThrows.

(** A task: it has returned, it has thrown (the promise is rejected), it
    has been cut off ([Exhausted], in the model only), an exception has been
    thrown where no handler of the program encloses it ([Crash]: Node ends
    the process), or it goes on with the bundler or with the result of an
    awaited operation. *)
Inductive Task (A : Type) : Type :=
| Ret (a : A)
| Throw
| Exhausted
| Crash
| GetS (k : Bundler -> Task A)
| PutS (s : Bundler) (k : Task A)
| Access (p : string) (k : bool -> Task A)
| ReadFile (p : string) (k : option string -> Task A)
| Globs (g : list string) (k : glob_result -> Task A).

Arguments Ret {A} a.
Arguments Throw {A}.
Arguments Exhausted {A}.
Arguments Crash {A}.
Arguments GetS {A} k.
Arguments PutS {A} s k.
Arguments Access {A} p k.
Arguments ReadFile {A} p k.
Arguments Globs {A} g k.

Fixpoint bind {A B} (t : Task A) (f : A -> Task B) : Task B :=
  match t with
  | Ret a => f a
  | Throw => Throw
  | Exhausted => Exhausted
  | Crash => Crash
  | GetS k => GetS (fun s => bind (k s) f)
  | PutS s k => PutS s (bind k f)
  | Access p k => Access p (fun b => bind (k b) f)
  | ReadFile p k => ReadFile p (fun c => bind (k c) f)
  | Globs g k => Globs g (fun r => bind (k r) f)
  end.

#[global] Instance Task_ret : MRet Task := fun A a => Ret a.
#[global] Instance Task_bind : MBind Task := fun A B f t => bind t f.

(** [try { t } catch { h }]; running out of recursion budget is not an
    exception of the program and passes through, and so does an exception
    thrown outside the [try], in a callback. *)
Fixpoint try_catch {A} (t h : Task A) : Task A :=
  match t with
  | Ret a => Ret a
  | Throw => h
  | Exhausted => Exhausted
  | Crash => Crash
  | GetS k => GetS (fun s => try_catch (k s) h)
  | PutS s k => PutS s (try_catch k h)
  | Access p k => Access p (fun b => try_catch (k b) h)
  | ReadFile p k => ReadFile p (fun c => try_catch (k c) h)
  | Globs g k => Globs g (fun r => try_catch (k r) h)
  end.

Definition get : Task Bundler := GetS Ret.
Definition modify (f : Bundler -> Bundler) : Task unit :=
  GetS (fun s => PutS (f s) (Ret tt)).
(** [await fs.access(p)] inside its own try/catch. *)
Definition access (p : string) : Task bool := Access p Ret.
(** [await fs.readFile(p)]: the promise rejects when the read fails. *)
Definition readFile (p : string) : Task string :=
  ReadFile p (fun r => match r with Some c => Ret c | None => Throw end).

(** [for (const x of l) acc = await f(acc, x)]. *)
Fixpoint for_each {A B} (f : A -> B -> Task A) (acc : A) (l : list B) : Task A :=
  match l with
  | [] => Ret acc
  | x :: l' => acc' ← f acc x; for_each f acc' l'
  end.

(** [await Promise.all(l.map(f))] for an [f] that only queries the file
    system: the order in which the queries complete does not show. *)
Fixpoint all_of {A B} (f : A -> Task B) (l : list A) : Task (list B) :=
  match l with
  | [] => Ret []
  | x :: l' => y ← f x; ys ← all_of f l'; Ret (y :: ys)
  end.

(** A node of the file system: a readable file, or something that can be
    accessed but not read as a file (a directory, a file without read
    permission). *)
Inductive fsnode := File (content : string) | Unreadable.

(** What an interpreter records: every operation on the outside world. *)
Inductive event := EvAccess (p : string) | EvRead (p : string) | EvGlob (g : list string).

(** How a call ends: with a value, with an exception (a rejected promise),
    with the recursion budget used up (in the model only), or with an
    exception that no handler encloses, which ends the process. *)
Inductive outcome (A : Type) := Ok (a : A) | Err | OutOfFuel | Crashed.
Arguments Ok {A} a.
Arguments Err {A}.
Arguments OutOfFuel {A}.
Arguments Crashed {A}.

(** ** A small instance of the parameters

    Paths in the style of POSIX, for absolute paths in normal form and
    relative import names without dots: on these the functions below agree
    with Node's. *)

Fixpoint split_last_slash (s : string) : option (string * string) :=
  match s with
  | EmptyString => None
  | String c s' =>
      match split_last_slash s' with
      | Some (d, b) => Some (String c d, b)
      | None => if Ascii.eqb c "/"%char then Some (EmptyString, s') else None
      end
  end.

Definition px_dirname (p : string) : string :=
  match split_last_slash p with
  | Some (EmptyString, _) => "/"
  | Some (d, _) => d
  | None => "."
  end.

Definition px_basename (p : string) : string :=
  match split_last_slash p with
  | Some (_, b) => b
  | None => p
  end.

Definition px_join (d b : string) : string := d +:+ "/" +:+ b.
Definition px_resolve (p : string) : string := p.
Definition px_resolve2 (d n : string) : string := d +:+ "/" +:+ n.
Definition px_EOL : string := String LF EmptyString.

(** A glob expansion that returns its patterns; one that reports an error
    to the callback, with no list of files; one that reports an error
    beside an empty list; and one that throws when it is called. *)
Definition glob_literal (g : list string) : glob_result := GlobFiles g.
Definition glob_failing (g : list string) : glob_result := GlobError None.

(** Small file systems under the directory [/p]: an entry that imports the
    same file twice, an entry that imports one file once and another twice,
    two entries that import the same file, and an entry whose import does not
    exist. *)
Definition demo_twice : gmap string fsnode :=
  <["/p/main.scss" := File ("@import 'a';" +:+ px_EOL +:+ "@import 'a';" +:+ px_EOL)]>
    (<["/p/a.scss" := File ".a{}"]> ∅).

Definition demo_mixed : gmap string fsnode :=
  <["/p/main.scss" :=
      File ("@import 'a';" +:+ px_EOL +:+ "@import 'b';" +:+ px_EOL
            +:+ "@import 'b';" +:+ px_EOL)]>
    (<["/p/a.scss" := File ".a{}"]> (<["/p/b.scss" := File ".b{}"]> ∅)).

Definition demo_race : gmap string fsnode :=
  <["/p/a.scss" := File "@import 'c';"]>
    (<["/p/b.scss" := File "@import 'c';"]>
       (<["/p/c.scss" := File ".c{}"]> ∅)).

Definition demo_missing : gmap string fsnode :=
  <["/p/a.scss" := File "@import 'missing';"]> ∅.

(** Two files that import each other, and an entry whose import exists but
    cannot be read. *)
Definition demo_cycle : gmap string fsnode :=
  <["/p/a.scss" := File "@import 'b';"]> (<["/p/b.scss" := File "@import 'a';"]> ∅).


(** An entry that imports another entry of the same batch, and an import
    whose name holds the text of the suffix before its end. *)
Definition demo_shared : gmap string fsnode :=
  <["/p/main.scss" := File "@import 'a';"]> demo_race.


(** ** The command line ([bundle-cli.ts], with the enum of [contracts.ts]) *)

Module Cli.

(** The values an option of the command line can hold: undefined, null, a
    truth value, an integer, a text or a list of texts.  [VObject] is an
    object or a function, which only a property lookup returns. *)
Inductive jsval :=
| VUndefined
| VNull
| VBool (b : bool)
| VNum (z : Z)
| VStr (s : string)
| VList (l : list string)
| VObject.

(** [x === y] where one side is one of the literals null, the empty text
    or a number: a list or an object is never identical to a literal. *)
Definition strict_eq (x y : jsval) : bool :=
  match x, y with
  | VUndefined, VUndefined => true
  | VNull, VNull => true
  | VBool a, VBool b => bool_decide (a = b)
  | VNum a, VNum b => bool_decide (a = b)
  | VStr a, VStr b => bool_decide (a = b)
  | _, _ => false
  end.

(** [x == null]. *)
Definition nullish (x : jsval) : bool :=
  match x with
  | VUndefined | VNull => true
  | _ => false
  end.

(** The value as a condition. *)
Definition truthy (x : jsval) : bool :=
  match x with
  | VUndefined | VNull => false
  | VBool b => b
  | VNum z => negb (bool_decide (z = 0%Z))
  | VStr s => negb (bool_decide (s = EmptyString))
  | VList _ | VObject => true
  end.

(** The property key a value stands for: its conversion to a text. *)
Definition to_key (x : jsval) : string :=
  match x with
  | VUndefined => "undefined"
  | VNull => "null"
  | VBool true => "true"
  | VBool false => "false"
  | VNum z => pretty z
  | VStr s => s
  | VList l => String.concat "," l
  | VObject => "[object Object]"
  end.

(** A decimal digit. *)
Definition is_digit (c : ascii) : bool :=
  bool_decide (c ∈ ["0"; "1"; "2"; "3"; "4"; "5"; "6"; "7"; "8"; "9"]%char).

(** The members of the enum [Verbosity] of [contracts.ts]. *)
Definition Verbosity_None : Z := 0.
Definition Verbosity_Errors : Z := 8.
Definition Verbosity_Verbose : Z := 256.

Definition Verbosity_members : list (string * Z) :=
  [("None", Verbosity_None); ("Errors", Verbosity_Errors); ("Verbose", Verbosity_Verbose)].

(** The object a numeric enum is compiled to: each name mapped to its
    number, and the decimal form of each number mapped to its name. *)
Definition Verbosity_object : list (string * jsval) :=
  flat_map (fun m : string * Z => [(m.1, VNum m.2); (pretty m.2, VStr m.1)])
           Verbosity_members.

(** The properties every object inherits from [Object.prototype]. *)
Definition Object_prototype_keys : list string :=
  ["constructor"; "__defineGetter__"; "__defineSetter__"; "hasOwnProperty";
   "__lookupGetter__"; "__lookupSetter__"; "isPrototypeOf"; "propertyIsEnumerable";
   "toString"; "valueOf"; "__proto__"; "toLocaleString"].

Fixpoint assoc (k : string) (l : list (string * jsval)) : option jsval :=
  match l with
  | [] => None
  | (k', v) :: l' => if bool_decide (k = k') then Some v else assoc k l'
  end.

(** [Contracts.Verbosity[verbosity]]: an own property, else an inherited
    one, else undefined. *)
Definition resolveVerbosity (verbosity : jsval) : jsval :=
  match assoc (to_key verbosity) Verbosity_object with
  | Some v => v
  | None =>
      if bool_decide (to_key verbosity ∈ Object_prototype_keys) then VObject
      else VUndefined
  end.

(** [Contracts.Config] as [argumentsToConfig] fills it. *)
Record Config := {
  Destination : jsval;
  Entry : jsval;
  DedupeGlobs : jsval;
  Verbosity : jsval;
  IncludePaths : jsval;
  IgnoredImports : jsval;
  ProjectDirectory : string
}.

(** The options [main] and [argumentsToConfig] read. *)
Record ArgumentsValues := {
  config : jsval;
  dest : jsval;
  entry : jsval;
  dedupe : jsval;
  verbosity : jsval;
  includePaths : jsval;
  ignoredImports : jsval;
  project : jsval;
  watch : jsval
}.

(** What the program does to the outside: the calls of its collaborators,
    each taken to return.  The watcher is registered with the handler of
    changes, given by what it does when it is called. *)
#[warnings="-register-all"]
Inductive action :=
| NewLauncher (config : Config)
| LauncherBundle
| ConsoleError (msg : string)
| ConsoleInfo (msg : string)
| ChokidarWatch (paths : jsval) (onFilesChange : list action)
| ProcessExit (code : option nat).

(** How a run ends before its last statement: the process exits, or an
    exception leaves [main]. *)
Inductive ending := Exited (code : option nat) | Rejected.

(** A computation: the actions made, and a value to go on with unless the
    run has ended. *)
Record Run (A : Type) : Type := mkRun { actions : list action; result : A + ending }.
Arguments mkRun {A} actions result.
Arguments actions {A} r.
Arguments result {A} r.

Definition bind {A B} (m : Run A) (f : A -> Run B) : Run B :=
  match result m with
  | inl a => mkRun (actions m ++ actions (f a)) (result (f a))
  | inr e => mkRun (actions m) (inr e)
  end.

#[global] Instance Run_ret : MRet Run := fun A a => mkRun [] (inl a).
#[global] Instance Run_bind : MBind Run := fun A B f m => bind m f.

Definition act (a : action) : Run unit := mkRun [a] (inl tt).
Definition throw {A} : Run A := mkRun [] (inr Rejected).
(** [process.exit(code)] does not return. *)
Definition process_exit {A} (code : option nat) : Run A :=
  mkRun [ProcessExit code] (inr (Exited code)).
Definition when (b : bool) (m : Run unit) : Run unit := if b then m else mret tt.

Section Main.

(** [path.resolve] with two arguments, and [process.cwd()]. *)
Variable path_resolve2 : string -> string -> string.
Variable cwd : string.

(** [path.resolve(process.cwd(), project)] throws a TypeError unless
    [project] is a text. *)
Definition resolve_project (project : jsval) : Run string :=
  match project with
  | VStr p => mret (path_resolve2 cwd p)
  | _ => throw
  end.

Definition argumentsToConfig (argumentValues : ArgumentsValues) : Run Config :=
  projectDirectory ← resolve_project (project argumentValues);
  mret {| Destination := dest argumentValues;
         Entry := entry argumentValues;
         DedupeGlobs := dedupe argumentValues;
         Verbosity := resolveVerbosity (verbosity argumentValues);
         IncludePaths := includePaths argumentValues;
         IgnoredImports := ignoredImports argumentValues;
         ProjectDirectory := projectDirectory |}.

(** The handler of file changes (before [debounce]). *)
Definition onFilesChange (config : Config) : Run unit :=
  when (strict_eq (Verbosity config) (VNum Verbosity_Verbose))
    (act (ConsoleInfo "[Watcher] Waiting for changes..."));;
  act LauncherBundle.

Definition main (argumentValues : ArgumentsValues) : Run unit :=
  config ← argumentsToConfig argumentValues;
  let isWatching := negb (strict_eq (watch argumentValues) VNull) in
  let noWatch := strict_eq (watch argumentValues) (VStr EmptyString) in
  act (NewLauncher config);;
  when (negb (strict_eq (verbosity argumentValues) (VNum Verbosity_None))
        && (nullish (entry argumentValues) || nullish (dest argumentValues)))
    (act (ConsoleError "[Error] 'entry' and 'dest' are required.");;
     process_exit (Some 1));;
  when (negb (strict_eq (verbosity argumentValues) (VNum Verbosity_None))
        && negb noWatch && isWatching && nullish (watch argumentValues))
    (act (ConsoleError "[Error] 'watch' must be defined.");;
     process_exit (Some 1));;
  when (negb noWatch && isWatching && negb (truthy (VNum Verbosity_None)))
    (act (ChokidarWatch (watch argumentValues) (actions (onFilesChange config))));;
  act LauncherBundle;;
  if negb noWatch && isWatching
     && strict_eq (Verbosity config) (VNum Verbosity_Verbose)
  then act (ConsoleInfo "[Watcher] Waiting for changes...")
  else process_exit None.

End Main.

End Cli.

Section Engine.

(** Node's [path.resolve] with one and with two arguments, [path.dirname],
    [path.basename], [path.join] with two arguments, and [os.EOL]. *)
Variable path_resolve : string -> string.
Variable path_resolve2 : string -> string -> string.
Variable path_dirname : string -> string.
Variable path_basename : string -> string.
Variable path_join : string -> string -> string.
Variable EOL : string.

(** Lines 86-117: the resolution of one match. *)
Definition import_name (raw : string) : string :=
  match indexOf FILE_EXTENSION raw with
  | None => raw +:+ FILE_EXTENSION
  | Some _ => raw
  end.

Definition underscored (fullPath : string) : string :=
  path_join (path_dirname fullPath) ("_" +:+ path_basename fullPath).

Definition resolve_import (dirname : string) (m : ImportMatch) : Task ImportData :=
  let importName := import_name (matchPath m) in
  let fullPath := path_resolve2 dirname importName in
  ok ← access fullPath;
  if ok : bool then
    mret {| importString := matchText m; path := importName;
            fullPath := fullPath; found := true |}
  else
    ok' ← access (underscored fullPath);
    if ok' : bool then
      mret {| importString := matchText m; path := importName;
              fullPath := underscored fullPath; found := true |}
    else
      mret {| importString := matchText m; path := importName;
              fullPath := fullPath; found := false |}.

(** Line 189. *)
Definition not_found_marker (imp : ImportData) : string :=
  "/*** IMPORTED FILE NOT FOUND ***/" +:+ EOL +:+ importString imp +:+ "/*** --- ***/".

(** Lines 193-198; the two dictionaries [usedImports] and [importsByFile]
    are private fields that are never reassigned, so the tests
    [this.usedImports != null] and [this.importsByFile != null] are always
    passed. *)
Definition should_dedupe (dedupeFiles : list string) (imp : ImportData) (s : Bundler) : bool :=
  bool_decide (0 < length dedupeFiles)
  && bool_decide (fullPath imp ∈ dedupeFiles)
  && used_twice (usedImports s !! fullPath imp).

(** Lines 138-181: the node of one import. *)
Definition import_node (rec : string -> string -> list string -> Task BundleResult)
    (dedupeFiles : list string) (imp : ImportData) : Task BundleResult :=
  s ← get;
  if negb (found imp) then mret (not_found_result (fullPath imp))
  else
    match fileRegistry s !! fullPath imp with
    | None =>
        impContent ← readFile (fullPath imp);
        bundledImport ← rec (fullPath imp) impContent dedupeFiles;
        modify (set_registry (fullPath imp) (bundledContent bundledImport));;
        modify (mark_used (fullPath imp));;
        mret bundledImport
    | Some _ =>
        modify (bump_used (fullPath imp));;
        s' ← get;
        mret {| filePath := fullPath imp; resultFound := true;
                bundledContent := None; deduped := false;
                imports := importsByFile s' !! fullPath imp |}
    end.

(** Lines 132-211: one turn of the loop over the imports. *)
Definition import_step (rec : string -> string -> list string -> Task BundleResult)
    (dedupeFiles : list string) (acc : string * list BundleResult) (imp : ImportData)
    : Task (string * list BundleResult) :=
  currentImport ← import_node rec dedupeFiles imp;
  s ← get;
  let contentToReplace :=
    match fileRegistry s !! fullPath imp with
    | Some c => c
    | None => not_found_marker imp
    end in
  let content := if should_dedupe dedupeFiles imp s then EmptyString else fst acc in
  let currentImport := if should_dedupe dedupeFiles imp s
                       then set_deduped currentImport else currentImport in
  mret (js_replace content (importString imp) contentToReplace,
        (snd acc ++ [currentImport])%list).

(** Lines 67-222, with the recursive call abstracted. *)
Definition bundle_body (rec : string -> string -> list string -> Task BundleResult)
    (filePath0 content0 : string) (dedupeFiles : list string) : Task BundleResult :=
  let content := strip_commented content0 in
  let filePath := path_resolve filePath0 in
  let dirname := path_dirname filePath in
  modify (seed_registry filePath content);;
  imports ← all_of (resolve_import dirname) (getAllMatches content);
  acc ← for_each (import_step rec dedupeFiles) (content, []) imports;
  modify (set_imports filePath (snd acc));;
  mret {| filePath := filePath; resultFound := true;
          bundledContent := Some (fst acc); deduped := false;
          imports := Some (snd acc) |}.

(** The private method [bundle]; [fuel] bounds the depth of the recursion. *)
Fixpoint bundle (fuel : nat) (filePath content : string) (dedupeFiles : list string)
    : Task BundleResult :=
  match fuel with
  | O => Exhausted
  | S n => bundle_body (bundle n) filePath content dedupeFiles
  end.

(** Lines 224-243.  A call of [globs] that throws does so inside the
    executor of the promise, which rejects.  In the callback, an error
    makes line 234 reject the promise, and since no [return] follows, line
    237 goes on to [files.map]: with a list of files the later [resolve]
    finds the promise settled and does nothing; without one [files.map]
    throws a TypeError, inside the callback of [globs], where no handler of
    the program encloses it. *)
Definition globFilesOrEmpty (globsList : list string) : Task (list string) :=
  match globsList with
  | [] => mret []
  | _ =>
      Globs globsList (fun r =>
        match r with
        | GlobFiles files => Ret (map path_resolve files)
        | GlobError (Some _) => Throw
        | GlobError None => Crash
        | GlobThrows => Throw
        end)
  end.

(** Lines 49-65.  The read and the expansion are both started before
    either is awaited. *)
Definition Bundle (fuel : nat) (file : string) (dedupeGlobs : list string) : Task BundleResult :=
  try_catch
    (ok ← access file;
     if negb ok then Throw
     else
       ReadFile file (fun content =>
       dedupeFiles ← globFilesOrEmpty dedupeGlobs;
       match content with
       | Some content => bundle fuel file content dedupeFiles
       | None => Throw
       end))
    (Ret (not_found_result file)).

(** ** One call, run to its end *)

Variable fs : gmap string fsnode.
(** The package [globs] on a list of patterns. *)
Variable glob_expand : list string -> glob_result.

Definition fs_access (p : string) : bool := bool_decide (is_Some (fs !! p)).
Definition fs_readFile (p : string) : option string :=
  match fs !! p with
  | Some (File c) => Some c
  | _ => None
  end.

Fixpoint run {A} (t : Task A) (s : Bundler) (tr : list event)
    : outcome A * Bundler * list event :=
  match t with
  | Ret a => (Ok a, s, tr)
  | Throw => (Err, s, tr)
  | Exhausted => (OutOfFuel, s, tr)
  | Crash => (Crashed, s, tr)
  | GetS k => run (k s) s tr
  | PutS s' k => run k s' tr
  | Access p k => run (k (fs_access p)) s (tr ++ [EvAccess p])
  | ReadFile p k => run (k (fs_readFile p)) s (tr ++ [EvRead p])
  | Globs g k => run (k (glob_expand g)) s (tr ++ [EvGlob g])
  end.

(** ** Several calls in flight: [BundleAll]

    [files.map(file => this.Bundle(file, dedupeGlobs))] starts one task per
    entry; each runs without interruption up to its next awaited operation,
    and when that operation completes the task is resumed for its next
    stretch.  The order in which the operations of different tasks complete
    is the schedule. *)

Record pool := {
  tasks : list (Task BundleResult);
  shared : Bundler;
  trace : list event
}.

(** The stretch of synchronous code up to the next awaited operation. *)
Fixpoint settle {A} (t : Task A) (s : Bundler) : Task A * Bundler :=
  match t with
  | GetS k => settle (k s) s
  | PutS s' k => settle k s'
  | _ => (t, s)
  end.

(** The awaited operation of a task completes. *)
Definition perform {A} (t : Task A) : option (event * Task A) :=
  match t with
  | Access p k => Some (EvAccess p, k (fs_access p))
  | ReadFile p k => Some (EvRead p, k (fs_readFile p))
  | Globs g k => Some (EvGlob g, k (glob_expand g))
  | _ => None
  end.

Definition is_crash {A} (t : Task A) : bool :=
  match t with
  | Crash => true
  | _ => false
  end.

(** An exception that no handler encloses has ended the process. *)
Definition crashed (P : pool) : bool := existsb is_crash (tasks P).

(** The awaited operation of task [i] completes and the task runs its next
    stretch; nothing happens any more once the process has ended. *)
Definition resume (i : nat) (P : pool) : pool :=
  if crashed P then P
  else
    match tasks P !! i with
    | Some t =>
        match perform t with
        | Some (e, t') =>
            {| tasks := <[i := (settle t' (shared P)).1]> (tasks P);
               shared := (settle t' (shared P)).2;
               trace := trace P ++ [e] |}
        | None => P
        end
    | None => P
    end.

Definition run_pool (sched : list nat) (P : pool) : pool :=
  foldl (fun P i => resume i P) P sched.

(** The calls are started one after the other. *)
Fixpoint start (ts : list (Task BundleResult)) (s : Bundler)
    : list (Task BundleResult) * Bundler :=
  match ts with
  | [] => ([], s)
  | t :: ts' =>
      ((settle t s).1 :: (start ts' (settle t s).2).1, (start ts' (settle t s).2).2)
  end.

(** Lines 41-47, under the schedule [sched]. *)
Definition BundleAll (fuel : nat) (files : list string) (dedupeGlobs : list string)
    (s : Bundler) (sched : list nat) : pool :=
  run_pool sched
    {| tasks := (start (map (fun file => Bundle fuel file dedupeGlobs) files) s).1;
       shared := (start (map (fun file => Bundle fuel file dedupeGlobs) files) s).2;
       trace := [] |}.

Definition task_result (t : Task BundleResult) : option BundleResult :=
  match t with
  | Ret r => Some r
  | _ => None
  end.

(** [await Promise.all(resultsPromises)]: the results in the order of the
    calls, once every call has returned. *)
Definition all_results (P : pool) : option (list BundleResult) :=
  mapM task_result (tasks P).

(** ** Vocabulary of the statements *)

(** The paths read, in order. *)
Definition reads (tr : list event) : list string :=
  omap (fun e => match e with EvRead p => Some p | _ => None end) tr.


(** The paths whose existence was checked, in order. *)
Definition accesses (tr : list event) : list string :=
  omap (fun e => match e with EvAccess p => Some p | _ => None end) tr.

(** The number of existence checks of [p]. *)
Definition access_count (p : string) (tr : list event) : nat :=
  length (filter (fun q => q = p) (accesses tr)).

(** A node and all the nodes below it. *)
Fixpoint all_nodes (r : BundleResult) : list BundleResult :=
  r :: match imports r with
       | Some l => flat_map all_nodes l
       | None => []
       end.

(** What [resolve_import] returns and the checks it makes, as plain
    functions of the file system. *)
Definition resolved (dirname : string) (m : ImportMatch) : ImportData :=
  let importName := import_name (matchPath m) in
  let fullPath := path_resolve2 dirname importName in
  if fs_access fullPath then
    {| importString := matchText m; path := importName;
       fullPath := fullPath; found := true |}
  else if fs_access (underscored fullPath) then
    {| importString := matchText m; path := importName;
       fullPath := underscored fullPath; found := true |}
  else
    {| importString := matchText m; path := importName;
       fullPath := fullPath; found := false |}.

Definition resolve_events (dirname : string) (m : ImportMatch) : list event :=
  let fullPath := path_resolve2 dirname (import_name (matchPath m)) in
  if fs_access fullPath then [EvAccess fullPath]
  else [EvAccess fullPath; EvAccess (underscored fullPath)].

(** Lines 183-210: what one turn of the loop leaves in [content] and
    [currentImports], given the node of the import and the state after
    lines 138-181. *)
Definition finish_step (dedupeFiles : list string) (acc : string * list BundleResult)
    (imp : ImportData) (node : BundleResult) (s : Bundler) : string * list BundleResult :=
  (js_replace (if should_dedupe dedupeFiles imp s then EmptyString else acc.1)
     (importString imp)
     (match fileRegistry s !! fullPath imp with
      | Some c => c
      | None => not_found_marker imp
      end),
   acc.2 ++ [if should_dedupe dedupeFiles imp s then set_deduped node else node]).

(** The node of an import whose target is in the registry. *)
Definition cached_node (p : string) (s : Bundler) : BundleResult :=
  {| filePath := p; resultFound := true; bundledContent := None;
     deduped := false; imports := importsByFile s !! p |}.

(** The paths with an entry in the registry. *)
Definition regdom (s : Bundler) : gset string := dom (fileRegistry s).

(** A path in the form [path.resolve] returns. *)
Definition absolute (p : string) : Prop := path_resolve p = p.

(** What is assumed of Node's [path]: [path.resolve] returns a path that it
    maps to itself, and prefixing the file name of such a path with an
    underscore gives such a path again. *)
Definition path_laws : Prop :=
  (forall d n, absolute (path_resolve2 d n)) /\
  (forall p, absolute p -> absolute (underscored p)).

(** The states a bundler that started empty can be in: every path with a
    registry entry exists, and only paths with a registry entry are
    counted. *)
Definition wf (s : Bundler) : Prop :=
  (forall q, q ∈ regdom s -> fs_access q = true) /\
  (forall q, q ∈ dom (usedImports s) -> q ∈ regdom s).

Definition is_ok {A} (o : outcome A) : Prop :=
  match o with Ok _ => True | _ => False end.

(** An import record as the resolution produces them: a target that was
    found exists and its path is absolute. *)
Definition good_import (imp : ImportData) : Prop :=
  found imp = true -> fs_access (fullPath imp) = true /\ absolute (fullPath imp).

(** What a stretch of the engine that goes from [s], [tr] to [s'], [tr']
    guarantees: the reads of the stretch are pairwise different, of
    existing paths outside [avoid]; the registry only grows and keeps the
    entries it had; after a normal return every path read has an entry;
    however the stretch ends (short of being cut off) every path whose read
    succeeded has one; and the stretch never ends in an exception outside
    its handlers. *)
Definition engine_post {A} (avoid : gset string) (s : Bundler) (tr : list event)
    (o : outcome A) (s' : Bundler) (tr' : list event) : Prop :=
  exists ev, tr' = tr ++ ev /\ NoDup (reads ev) /\
    (forall p, p ∈ reads ev -> (p ∉ avoid) /\ fs_access p = true) /\
    regdom s ⊆ regdom s' /\
    (forall q, q ∈ regdom s -> fileRegistry s' !! q = fileRegistry s !! q) /\
    (is_ok o -> forall p, p ∈ reads ev -> p ∈ regdom s') /\
    (o <> OutOfFuel -> forall p, p ∈ reads ev ->
       is_Some (fs_readFile p) -> p ∈ regdom s') /\
    o <> Crashed.

(** The guarantee of a call of [bundle] with fuel [n]. *)
Definition bundle_post (n : nat) (f c : string) (s : Bundler) (tr : list event)
    (o : outcome BundleResult) (s' : Bundler) (tr' : list event) : Prop :=
  engine_post (regdom s ∪ {[path_resolve f]}) s tr o s' tr' /\
  (wf s -> fs_access (path_resolve f) = true -> wf s') /\
  (size (dom fs ∖ (regdom s ∪ {[path_resolve f]})) < n -> o <> OutOfFuel) /\
  (o <> OutOfFuel ->
     fileRegistry s' !! path_resolve f =
     Some (default (strip_commented c) (fileRegistry s !! path_resolve f))) /\
  (forall r, o = Ok r ->
     filePath r = path_resolve f /\ resultFound r = true /\ deduped r = false /\
     (exists content, bundledContent r = Some content) /\
     (exists l, imports r = Some l /\ importsByFile s' !! path_resolve f = Some l)).

(** The guarantee of the loop over the imports when the recursive calls
    have fuel [n]. *)
Definition loop_post {A} (n : nat) (s : Bundler) (tr : list event)
    (o : outcome A) (s' : Bundler) (tr' : list event) : Prop :=
  engine_post (regdom s) s tr o s' tr' /\
  (wf s -> wf s') /\
  (size (dom fs ∖ regdom s) <= n -> o <> OutOfFuel).

(** The number of directives resolved so far whose target was found at
    [p]: each of them checked the existence of [p] with success. *)
Definition references (p : string) (tr : list event) : nat :=
  if fs_access p then access_count p tr else 0.

(** The counter of [p] as a number: zero when it is absent or NaN. *)
Definition usedcount (s : Bundler) (p : string) : nat :=
  match usedImports s !! p with
  | Some (Num k) => k
  | _ => 0
  end.

(** The records of [imps] that were found at [p]. *)
Definition pending (imps : list ImportData) (p : string) : nat :=
  length (filter (fun imp => found imp = true /\ fullPath imp = p) imps).

(** Every counter is covered by references already resolved, not counting
    the [pend] ones whose turn in a loop is still to come. *)
Definition counted (pend : string -> nat) (s : Bundler) (tr : list event) : Prop :=
  forall p, usedcount s p + pend p <= references p tr.

(** Every node marked deduped in the tree of [r] is of a path referenced
    at least twice. *)
Definition dedup_ok (tr : list event) (r : BundleResult) : Prop :=
  forall x, x ∈ all_nodes r -> deduped x = true -> 2 <= references (filePath x) tr.

Definition stored_ok (s : Bundler) (tr : list event) : Prop :=
  forall q l, importsByFile s !! q = Some l -> Forall (dedup_ok tr) l.

(** Following the file system, the task ends as [o], by returning or by
    an exception outside every handler, without ever looking at or changing
    the bundler. *)
Inductive lands {A} : outcome A -> Task A -> Prop :=
| lands_ret a : lands (Ok a) (Ret a)
| lands_crash : lands Crashed Crash
| lands_access o p k : lands o (k (fs_access p)) -> lands o (Access p k)
| lands_read o p k : lands o (k (fs_readFile p)) -> lands o (ReadFile p k)
| lands_globs o g k : lands o (k (glob_expand g)) -> lands o (Globs g k).



(** Tasks run one after the other, each to its end. *)
Fixpoint run_seq (ts : list (Task BundleResult)) (s : Bundler) (tr : list event)
    : list (outcome BundleResult) * Bundler * list event :=
  match ts with
  | [] => ([], s, tr)
  | t :: ts' =>
      (((run t s tr).1.1 :: (run_seq ts' (run t s tr).1.2 (run t s tr).2).1.1),
       (run_seq ts' (run t s tr).1.2 (run t s tr).2).1.2,
       (run_seq ts' (run t s tr).1.2 (run t s tr).2).2)
  end.

(** A task that waits for an operation or has ended. *)
Definition at_rest {A} (t : Task A) : Prop := forall s, settle t s = (t, s).

(** What [globFilesOrEmpty] comes to, as a function of the patterns. *)
Definition dedupe_files (globsList : list string) : outcome (list string) :=
  match globsList with
  | [] => Ok []
  | _ =>
      match glob_expand globsList with
      | GlobFiles files => Ok (map path_resolve files)
      | GlobError (Some _) => Err
      | GlobError None => Crashed
      | GlobThrows => Err
      end
  end.

(** The expansion of the patterns reports an error and no list of files. *)
Definition glob_crashes (dedupeGlobs : list string) : Prop :=
  dedupeGlobs <> [] /\ glob_expand dedupeGlobs = GlobError None.


(** A call of [Bundle] that ends in the exception of line 237: the entry
    can be accessed, so that the expansion is started, and the expansion
    reports an error and no list of files. *)
Definition Bundle_crashes (file : string) (dedupeGlobs : list string) : Prop :=
  fs_access file = true /\ glob_crashes dedupeGlobs.





(** The events of a call of [Bundle] that ends before the engine starts. *)
Definition entry_events (file : string) (dedupeGlobs : list string) : list event :=
  if fs_access file then
    [EvAccess file; EvRead file]
      ++ match dedupeGlobs with [] => [] | _ => [EvGlob dedupeGlobs] end
  else [EvAccess file].

(** Every character of [s] passes the test [P]. *)
Fixpoint all_chars (P : ascii -> bool) (s : string) : bool :=
  match s with
  | EmptyString => true
  | String c s' => P c && all_chars P s'
  end.

(** A character that may stand in the path of a directive: neither a quote
    nor a line terminator. *)
Definition plain (c : ascii) : bool :=
  negb (is_quote c) && negb (is_line_terminator c).

(** A character the atom [.] accepts. *)
Definition on_line (c : ascii) : bool := negb (is_line_terminator c).

(** The end of a line: the end of the text, or a line terminator. *)
Definition line_end (s : string) : bool :=
  match s with
  | EmptyString => true
  | String c _ => is_line_terminator c
  end.



(** A character other than the dollar sign. *)
Definition no_dollar (c : ascii) : bool := negb (Ascii.eqb c dollar).

(** The text a turn of the loop substitutes for the directive: the registry
    entry of the target, or the marker (lines 184-190). *)
Definition text_to_inline (imp : ImportData) (s : Bundler) : string :=
  default (not_found_marker imp) (fileRegistry s !! fullPath imp).

(** The node of a file whose content has no directive. *)
Definition leaf_node (p content : string) : BundleResult :=
  {| filePath := p; resultFound := true; bundledContent := Some content;
     deduped := false; imports := Some [] |}.

(** Every node marked deduped in the tree of [r] is of a path of the list
    [d]. *)
Definition marked_in (d : list string) (r : BundleResult) : Prop :=
  forall x, x ∈ all_nodes r -> deduped x = true -> filePath x ∈ d.

(** No node of the tree of [r] with the path [p] is marked deduped. *)
Definition unmarked (p : string) (r : BundleResult) : Prop :=
  forall x, x ∈ all_nodes r -> filePath x = p -> deduped x = false.

(** The child lists kept in the Child-Import Cache all satisfy [G]. *)
Definition stored (G : BundleResult -> Prop) (s : Bundler) : Prop :=
  forall q l, importsByFile s !! q = Some l -> Forall G l.

(** The counter of [p] is not a number: it is absent or NaN. *)
Definition uncounted (p : string) (s : Bundler) : Prop :=
  usedImports s !! p = None \/ usedImports s !! p = Some NaN.

(** A path and the path [path.resolve] makes of it name the same file. *)
Definition resolve_sound : Prop :=
  forall p, fs_access p = true -> fs_access (path_resolve p) = true.

(** The final state of calls run one after the other. *)
Definition state_after (ts : list (Task BundleResult)) (s : Bundler) : Bundler :=
  (run_seq ts s []).1.2.

(** What a task knows of the bundler at a point of its code: after it
    has looked at the bundler or assigned to it, the bundler itself; after
    an awaited operation, during which other calls may have run, only
    that the bundler is in a state [I]. *)
Definition known (I : Bundler -> Prop) (cur : option Bundler) (F : Bundler -> Prop) : Prop :=
  match cur with
  | Some s => I s -> F s
  | None => forall s, I s -> F s
  end.

(** Following the file system, and whatever the other calls do to the
    bundler while the task waits, as long as they leave it in a state [I]:
    every assignment of the task leaves the bundler in a state [I]; when
    the task starts to read a path [p], it has seen the bundler in a state
    [R p] since it last waited; and when it returns [a], [P a] holds and it
    leaves the bundler in a state [Q a]. *)
Inductive keeps {A} (I : Bundler -> Prop) (R : string -> Bundler -> Prop)
    (P : A -> Prop) (Q : A -> Bundler -> Prop) : option Bundler -> Task A -> Prop :=
| keeps_ret cur a : P a -> known I cur (Q a) -> keeps I R P Q cur (Ret a)
| keeps_throw cur : keeps I R P Q cur Throw
| keeps_exhausted cur : keeps I R P Q cur Exhausted
| keeps_crash cur : keeps I R P Q cur Crash
| keeps_get cur k :
    (forall s, I s -> keeps I R P Q (Some s) (k s)) -> keeps I R P Q cur (GetS k)
| keeps_put cur s k : I s -> keeps I R P Q (Some s) k -> keeps I R P Q cur (PutS s k)
| keeps_access cur p k :
    keeps I R P Q None (k (fs_access p)) -> keeps I R P Q cur (Access p k)
| keeps_read cur p k :
    known I cur (R p) -> keeps I R P Q None (k (fs_readFile p)) ->
    keeps I R P Q cur (ReadFile p k)
| keeps_globs cur g k :
    keeps I R P Q None (k (glob_expand g)) -> keeps I R P Q cur (Globs g k).

(** A task of a pool that waits for an operation: what it does once the
    operation has completed is as [keeps] says. *)
Definition waits {A} (I : Bundler -> Prop) (R : string -> Bundler -> Prop)
    (P : A -> Prop) (Q : A -> Bundler -> Prop) (t : Task A) : Prop :=
  match t with
  | Access p k => keeps I R P Q None (k (fs_access p))
  | ReadFile p k => keeps I R P Q None (k (fs_readFile p))
  | Globs g k => keeps I R P Q None (k (glob_expand g))
  | GetS _ | PutS _ _ => False
  | _ => True
  end.

(** The bundler at the moment a stretch of a task ends: at the start of a
    read, and at a return. *)
Definition arrives {A} (R : string -> Bundler -> Prop) (Q : A -> Bundler -> Prop)
    (s : Bundler) (t : Task A) : Prop :=
  match t with
  | Ret a => Q a s
  | ReadFile p _ => R p s
  | _ => True
  end.

(** The read of [p] is the read of the entry [entry] by its own call
    (line 52), or the registry has no entry for [p]. *)
Definition read_guard (entry p : string) (s : Bundler) : Prop :=
  p = entry \/ fileRegistry s !! p = None.

(** The child list of a node that was found is in the Child-Import Cache
    under the path of the node. *)
Definition children_stored (r : BundleResult) (s : Bundler) : Prop :=
  resultFound r = true -> importsByFile s !! filePath r = imports r.

(** Every path with a usage counter exists. *)
Definition counted_exist (s : Bundler) : Prop :=
  forall q, q ∈ dom (usedImports s) -> fs_access q = true.

(** Every task of the pool waits, and the bundler is in a state [I]. *)
Definition pool_keeps (I : Bundler -> Prop) (files : list string) (P : pool) : Prop :=
  I (shared P) /\
  Forall2 (fun file t => waits I (read_guard file) (fun _ => True) children_stored t)
          files (tasks P).

(** The awaited operation of task [j] completes: the task runs a
    stretch. *)
Definition advances (j : nat) (P : pool) : Prop := trace (resume j P) <> trace P.

(** ** Facts about strings *)

Lemma starts_with_spec (p s : string) :
  starts_with p s = true <-> exists y, s = p +:+ y.
Proof using Type.
  revert s; induction p as [|a p IH]; intros s; simpl.
  - split; [intros _; by exists s | done].
  - destruct s as [|b s]; simpl.
    + split; [done | intros [y Hy]; discriminate].
    + rewrite andb_true_iff, Ascii.eqb_eq, IH. split.
      * intros [-> [y ->]]. by exists y.
      * intros [y Hy]. injection Hy as -> ->. split; [done | by exists y].
Qed.

Lemma indexOf_None (sub s : string) :
  indexOf sub s = None <-> ~ exists x y, s = x +:+ sub +:+ y.
Proof using Type.
  induction s as [|c s IH]; simpl.
  - destruct (starts_with sub EmptyString) eqn:E.
    + apply starts_with_spec in E as [y Hy].
      split; [done | intros H; destruct H; by exists EmptyString, y].
    + split; [intros _ [x [y Hxy]] | done].
      destruct x; simpl in Hxy.
      * assert (starts_with sub EmptyString = true) by (apply starts_with_spec; eauto).
        congruence.
      * discriminate.
  - destruct (starts_with sub (String c s)) eqn:E.
    + apply starts_with_spec in E as [y Hy].
      split; [done | intros H; destruct H; by exists EmptyString, y].
    + destruct (indexOf sub s) eqn:Ei; simpl.
      * split; [done | intros H; exfalso].
        assert (Hn : ~ exists x y, s = x +:+ sub +:+ y).
        { intros [x [y ->]]. apply H. by exists (String c x), y. }
        apply IH in Hn. discriminate.
      * split; [intros _ [x [y Hxy]] | done].
        destruct x as [|c' x]; simpl in Hxy.
        -- assert (starts_with sub (String c s) = true)
             by (apply starts_with_spec; eauto).
           congruence.
        -- injection Hxy as -> ->.
           destruct IH as [IH _]. apply IH; eauto.
Qed.

Lemma import_name_present (raw : string) :
  (exists x y, raw = x +:+ FILE_EXTENSION +:+ y) -> import_name raw = raw.
Proof using Type.
  intros H. unfold import_name.
  destruct (indexOf FILE_EXTENSION raw) eqn:E; [done|].
  apply indexOf_None in E. contradiction.
Qed.


(** ** Facts about [run] *)

Lemma run_bind {A B} (t : Task A) (f : A -> Task B) s tr :
  run (t ≫= f) s tr =
  match run t s tr with
  | (Ok a, s', tr') => run (f a) s' tr'
  | (Err, s', tr') => (Err, s', tr')
  | (OutOfFuel, s', tr') => (OutOfFuel, s', tr')
  | (Crashed, s', tr') => (Crashed, s', tr')
  end.
Proof.
  unfold mbind, Task_bind. revert s tr.
  induction t; intros; simpl; auto.
Qed.

Lemma run_try_catch {A} (t h : Task A) s tr :
  run (try_catch t h) s tr =
  match run t s tr with
  | (Err, s', tr') => run h s' tr'
  | r => r
  end.
Proof.
  revert s tr. induction t; intros; simpl; auto.
Qed.

Lemma run_modify f s tr : run (modify f) s tr = (Ok tt, f s, tr).
Proof. reflexivity. Qed.

Lemma run_get s tr : run get s tr = (Ok s, s, tr).
Proof. reflexivity. Qed.

Lemma run_access p s tr :
  run (access p) s tr = (Ok (fs_access p), s, tr ++ [EvAccess p]).
Proof. reflexivity. Qed.

Lemma run_mret {A} (a : A) s tr : run (mret a) s tr = (Ok a, s, tr).
Proof. reflexivity. Qed.

(** ** Resolution of one import *)


(** ** The two patterns on a directive *)

Lemma length_sapp (a b : string) :
  String.length (a +:+ b) = String.length a + String.length b.
Proof using Type. induction a; simpl; auto. Qed.

Lemma stake_all n (s : string) : String.length s <= n -> stake n s = s.
Proof using Type.
  revert n; induction s as [|c s IH]; intros [|n] H; simpl in *; try done; try lia.
  f_equal. apply IH. lia.
Qed.

Lemma stake_sapp (a b : string) : stake (String.length a) (a +:+ b) = a.
Proof using Type. induction a; simpl; [by destruct b | by f_equal]. Qed.

Lemma scan_imports_skip_all n (s : string) :
  String.length s <= n -> scan_imports n s = [].
Proof using Type.
  revert n; induction s as [|c s IH]; intros n H; simpl in *; [done|].
  destruct n; [lia|]. apply IH. lia.
Qed.

Lemma strip_skip_all n (s : string) :
  String.length s <= n -> strip_commented_from n s = EmptyString.
Proof using Type.
  revert n; induction s as [|c s IH]; intros n H; simpl in *; [done|].
  destruct n; [lia|]. apply IH. lia.
Qed.


(** Over a run of plain characters the greedy [(.+)] finds no earlier
    place to stop. *)
Lemma dots_then_plain close (p t : string) :
  (forall c r, is_quote c = false -> close (String c r) = false) ->
  all_chars plain p = true ->
  dots_then close (p +:+ t) = (fun n => String.length p + n) <$> dots_then close t.
Proof using Type.
  intros Hclose. induction p as [|c p IH]; simpl; intros Hp.
  - destruct (dots_then close t); reflexivity.
  - apply andb_true_iff in Hp as [Hc Hp]. unfold plain in Hc.
    apply andb_true_iff in Hc as [Hq Hl].
    apply negb_true_iff in Hq, Hl. rewrite Hl, (IH Hp).
    destruct (dots_then close t); simpl; [done|].
    by rewrite Hclose.
Qed.

Lemma import_close_head c r : is_quote c = false -> import_close (String c r) = false.
Proof using Type. intros H. simpl. destruct r; [done|]. by rewrite H. Qed.

Lemma commented_close_head c r :
  is_quote c = false -> starts_with "';" (String c r) = false.
Proof using Type.
  intros H. simpl. unfold is_quote in H. apply orb_false_iff in H as [H _].
  change (Ascii.eqb squote c && starts_with ";" r = false).
  by rewrite (Ascii.eqb_sym squote c), H.
Qed.

Lemma dots1_then_plain close (p t : string) :
  (forall c r, is_quote c = false -> close (String c r) = false) ->
  p <> EmptyString -> all_chars plain p = true ->
  dots_then close t = Some 0 ->
  dots1_then close (p +:+ t) = Some (String.length p).
Proof using Type.
  intros Hclose Hne Hp Ht. unfold dots1_then.
  rewrite (dots_then_plain _ _ _ Hclose Hp), Ht. simpl.
  destruct p; [done|]. simpl. do 2 f_equal. lia.
Qed.


Lemma sapp_assoc (a b c : string) : (a +:+ b) +:+ c = a +:+ (b +:+ c).
Proof using Type. induction a; simpl; [done | by f_equal]. Qed.

Lemma sapp_nil_r (a : string) : a +:+ EmptyString = a.
Proof using Type. induction a; simpl; [done | by f_equal]. Qed.

Lemma starts_with_refl (s : string) : starts_with s s = true.
Proof using Type. apply starts_with_spec. exists EmptyString. by rewrite sapp_nil_r. Qed.

Lemma sdrop_all (s : string) : sdrop (String.length s) s = EmptyString.
Proof using Type. induction s; simpl; auto. Qed.



Lemma scan_imports_none c (s : string) :
  exec_import (String c s) = None ->
  scan_imports 0 (String c s) = scan_imports 0 s.
Proof using Type. intros H. simpl. by rewrite H. Qed.

Lemma scan_imports_some c (s : string) n :
  exec_import (String c s) = Some n ->
  scan_imports 0 (String c s) =
  {| matchText := stake (n + 11) (String c s);
     matchPath := stake n (sdrop 9 (String c s)) |} :: scan_imports (n + 10) s.
Proof using Type. intros H. cbn [scan_imports]. by rewrite H. Qed.

Lemma strip_some c (s : string) n :
  exec_commented (String c s) = Some n ->
  strip_commented_from 0 (String c s) = strip_commented_from (n + 12) s.
Proof using Type. intros H. cbn [strip_commented_from]. by rewrite H. Qed.

Lemma split_first_skip sub c (s : string) :
  starts_with sub (String c s) = false ->
  split_first sub (String c s) =
  match split_first sub s with
  | Some (b, a) => Some (String c b, a)
  | None => None
  end.
Proof using Type. intros H. cbn [split_first]. by rewrite H. Qed.

Lemma split_first_here sub (s : string) :
  starts_with sub s = true ->
  split_first sub s = Some (EmptyString, sdrop (String.length sub) s).
Proof using Type. intros H. destruct s; cbn [split_first]; by rewrite H. Qed.

(** The scan of a double-quoted directive [@import], a double quote, [p],
    a double quote, a semicolon. *)
Lemma scan_live_double (p : string) :
  p <> EmptyString -> all_chars plain p = true ->
  scan_imports 0 ("@import " +:+ q2 p +:+ ";") =
  [ {| matchText := "@import " +:+ q2 p +:+ ";"; matchPath := p |} ].
Proof using Type.
  intros Hne Hp.
  assert (E : "@import " +:+ q2 p +:+ ";" =
              String "@" ("import " +:+ String dquote (p +:+ String dquote ";"))).
  { unfold q2. simpl. by rewrite sapp_assoc. }
  rewrite E.
  assert (Hex : exec_import (String "@" ("import " +:+ String dquote (p +:+ String dquote ";")))
                = Some (String.length p)).
  { change (dots1_then import_close (p +:+ String dquote ";") = Some (String.length p)).
    apply dots1_then_plain; auto using import_close_head. }
  rewrite (scan_imports_some _ _ _ Hex). f_equal.
  - f_equal.
    + apply stake_all. simpl. rewrite length_sapp. simpl. lia.
    + change (stake (String.length p) (p +:+ String dquote ";") = p).
      apply stake_sapp.
  - apply scan_imports_skip_all. simpl. rewrite length_sapp. simpl. lia.
Qed.

(** ** Directives and the end of the line *)

Lemma quote_on_line q : is_quote q = true -> is_line_terminator q = false.
Proof using Type.
  unfold is_quote.
  intros [H|H]%orb_true_iff; apply Ascii.eqb_eq in H; subst; reflexivity.
Qed.

Lemma terminator_not_quote c : is_line_terminator c = true -> is_quote c = false.
Proof using Type.
  unfold is_line_terminator.
  intros [H|H]%orb_true_iff; apply Ascii.eqb_eq in H; subst; reflexivity.
Qed.

(** Over characters of one line the greedy [(.+)] keeps going. *)
Lemma dots_then_line close (u t : string) n :
  all_chars on_line u = true ->
  dots_then close t = Some n ->
  dots_then close (u +:+ t) = Some (String.length u + n).
Proof using Type.
  intros Hu Ht. induction u as [|c u IH]; simpl; [done|].
  simpl in Hu. apply andb_true_iff in Hu as [Hc Hu].
  unfold on_line in Hc. apply negb_true_iff in Hc.
  by rewrite Hc, (IH Hu).
Qed.

Lemma dots_then_line_end close rest :
  line_end rest = true -> close rest = false -> dots_then close rest = None.
Proof using Type.
  destruct rest as [|c r]; simpl; intros H1 H2; [by rewrite H2|].
  by rewrite H1, H2.
Qed.

Lemma import_close_line_end rest : line_end rest = true -> import_close rest = false.
Proof using Type.
  destruct rest as [|c r]; [done|]. intros H.
  by apply import_close_head, terminator_not_quote.
Qed.

Lemma commented_close_line_end rest :
  line_end rest = true -> starts_with "';" rest = false.
Proof using Type.
  destruct rest as [|c r]; [done|]. intros H.
  by apply commented_close_head, terminator_not_quote.
Qed.

Lemma dots_import_close_here q rest :
  is_quote q = true -> line_end rest = true ->
  dots_then import_close (String q (String ";" rest)) = Some 0.
Proof using Type.
  intros Hq Hrest. cbn [dots_then]. rewrite (quote_on_line _ Hq).
  change (is_line_terminator ";"%char) with false. cbn iota.
  rewrite (dots_then_line_end _ _ Hrest (import_close_line_end _ Hrest)).
  rewrite (import_close_head ";"%char rest eq_refl).
  cbn [import_close]. rewrite Hq. reflexivity.
Qed.

Lemma dots_commented_close_here rest :
  line_end rest = true ->
  dots_then (starts_with "';") (String squote (String ";" rest)) = Some 0.
Proof using Type.
  intros Hrest. cbn [dots_then].
  change (is_line_terminator squote) with false.
  change (is_line_terminator ";"%char) with false. cbn iota.
  rewrite (dots_then_line_end _ _ Hrest (commented_close_line_end _ Hrest)).
  rewrite (commented_close_head ";"%char rest eq_refl).
  reflexivity.
Qed.

Lemma scan_imports_skip (a b : string) :
  scan_imports (String.length a) (a +:+ b) = scan_imports 0 b.
Proof using Type. induction a as [|c a IH]; simpl; [by destruct b | done]. Qed.

Lemma strip_skip (a b : string) :
  strip_commented_from (String.length a) (a +:+ b) = strip_commented_from 0 b.
Proof using Type. induction a as [|c a IH]; simpl; [by destruct b | done]. Qed.

Lemma scan_directive_line (q q' : ascii) (u rest : string) :
  is_quote q = true -> is_quote q' = true ->
  u <> EmptyString -> all_chars on_line u = true -> line_end rest = true ->
  getAllMatches ("@import " +:+ String q (u +:+ String q' ";") +:+ rest) =
  {| matchText := "@import " +:+ String q (u +:+ String q' ";"); matchPath := u |}
    :: getAllMatches rest.
Proof using Type.
  intros Hq Hq' Hne Hu Hrest. unfold getAllMatches.
  assert (E : "@import " +:+ String q (u +:+ String q' ";") +:+ rest =
              String "@" ("import " +:+ String q (u +:+ String q' (String ";" rest)))).
  { simpl. by rewrite sapp_assoc. }
  rewrite E.
  assert (Hex : exec_import (String "@" ("import " +:+ String q (u +:+ String q' (String ";" rest))))
                = Some (String.length u)).
  { change ((if is_quote q then dots1_then import_close (u +:+ String q' (String ";" rest))
             else None) = Some (String.length u)).
    rewrite Hq. unfold dots1_then.
    rewrite (dots_then_line _ _ _ 0 Hu (dots_import_close_here _ _ Hq' Hrest)).
    destruct u; [done|]. simpl. do 2 f_equal. lia. }
  rewrite (scan_imports_some _ _ _ Hex). f_equal.
  - f_equal.
    + replace (String "@" ("import " +:+ String q (u +:+ String q' (String ";" rest))))
        with (("@import " +:+ String q (u +:+ String q' ";")) +:+ rest)
        by (simpl; by rewrite sapp_assoc).
      replace (String.length u + 11)
        with (String.length ("@import " +:+ String q (u +:+ String q' ";")))
        by (simpl; rewrite length_sapp; simpl; lia).
      apply stake_sapp.
    + change (stake (String.length u) (u +:+ String q' (String ";" rest)) = u).
      apply stake_sapp.
  - replace ("import " +:+ String q (u +:+ String q' (String ";" rest)))
      with (("import " +:+ String q (u +:+ String q' ";")) +:+ rest)
      by (simpl; by rewrite sapp_assoc).
    replace (String.length u + 10) with (String.length ("import " +:+ String q (u +:+ String q' ";")))
      by (simpl; rewrite length_sapp; simpl; lia).
    apply scan_imports_skip.
Qed.

(** X8. IMPORT_PATTERN on a directive that ends its line: whichever of the
    two quote characters opens and closes it (they need not be the same),
    and whatever stands between them on the line, quotes and semicolons
    included, the scan takes the directive as one match whose path is all
    the text between the first quote and the last quote of the line, and
    goes on after it.  So two directives written on one line are one match,
    with a path that runs from the first target to the second. *)
Theorem import_directive_spans_line (q q' : ascii) (u rest : string) :
  is_quote q = true -> is_quote q' = true ->
  u <> EmptyString -> all_chars on_line u = true -> line_end rest = true ->
  getAllMatches ("@import " +:+ String q (u +:+ String q' ";") +:+ rest) =
  {| matchText := "@import " +:+ String q (u +:+ String q' ";"); matchPath := u |}
    :: getAllMatches rest.
Proof using Type. apply scan_directive_line. Qed.

Lemma strip_directive_line (u rest : string) :
  u <> EmptyString -> all_chars on_line u = true -> line_end rest = true ->
  strip_commented ("//@import '" +:+ u +:+ "';" +:+ rest) = strip_commented rest.
Proof using Type.
  intros Hne Hu Hrest. unfold strip_commented.
  assert (E : "//@import '" +:+ u +:+ "';" +:+ rest =
              String "/" ("/@import '" +:+ (u +:+ String squote (String ";" rest)))).
  { reflexivity. }
  rewrite E.
  assert (Hex : exec_commented (String "/" ("/@import '" +:+ (u +:+ String squote (String ";" rest))))
                = Some (String.length u)).
  { change (dots1_then (starts_with "';") (u +:+ String squote (String ";" rest))
            = Some (String.length u)).
    unfold dots1_then.
    rewrite (dots_then_line _ _ _ 0 Hu (dots_commented_close_here _ Hrest)).
    destruct u; [done|]. simpl. do 2 f_equal. lia. }
  rewrite (strip_some _ _ _ Hex).
  replace ("/@import '" +:+ (u +:+ String squote (String ";" rest)))
    with (("/@import '" +:+ (u +:+ "';")) +:+ rest)
    by (simpl; by rewrite sapp_assoc).
  replace (String.length u + 12) with (String.length ("/@import '" +:+ (u +:+ "';")))
    by (simpl; rewrite length_sapp; simpl; lia).
  apply strip_skip.
Qed.

(** X7. COMMENTED_IMPORT_PATTERN on a commented-out directive in single
    quotes that ends its line: the removal takes everything from the two
    slashes to the last quote and semicolon of the line, whatever stands
    between, and the rest of the text is treated on its own. *)
Theorem commented_import_removed_to_line_end (u rest : string) :
  u <> EmptyString -> all_chars on_line u = true -> line_end rest = true ->
  strip_commented ("//@import '" +:+ u +:+ "';" +:+ rest) = strip_commented rest.
Proof using Type. apply strip_directive_line. Qed.

(** ** The first occurrence and the replacement text *)

Lemma sdrop_sapp (a b : string) : sdrop (String.length a) (a +:+ b) = b.
Proof using Type. induction a; simpl; [by destruct b | done]. Qed.

Lemma split_first_indexOf sub (s : string) :
  split_first sub s =
  (fun i => (stake i s, sdrop (i + String.length sub) s)) <$> indexOf sub s.
Proof using Type.
  induction s as [|c s IH]; cbn [split_first indexOf].
  - destruct (starts_with sub EmptyString); reflexivity.
  - destruct (starts_with sub (String c s)); [reflexivity|].
    rewrite IH. destruct (indexOf sub s) as [i|]; reflexivity.
Qed.

Lemma indexOf_Some sub (s : string) i :
  indexOf sub s = Some i ->
  s = stake i s +:+ sub +:+ sdrop (i + String.length sub) s.
Proof using Type.
  revert i. induction s as [|c s IH]; intros i; cbn [indexOf].
  - destruct (starts_with sub EmptyString) eqn:E; [|done].
    intros [= <-]. apply starts_with_spec in E as [y Hy].
    rewrite Hy at 1. cbn [stake Nat.add]. rewrite Hy at 2.
    by rewrite sdrop_sapp.
  - destruct (starts_with sub (String c s)) eqn:E.
    + intros [= <-]. apply starts_with_spec in E as [y Hy].
      cbn [stake Nat.add]. rewrite Hy. by rewrite sdrop_sapp.
    + destruct (indexOf sub s) as [j|]; [|done].
      intros [= <-]. cbn [stake sdrop Nat.add]. simpl. f_equal. by apply IH.
Qed.

Lemma no_dollar_eqb c : no_dollar c = true -> Ascii.eqb c dollar = false.
Proof using Type. unfold no_dollar. by rewrite negb_true_iff. Qed.

Lemma getSubstitution_prefix m b a (x r : string) :
  all_chars no_dollar x = true ->
  getSubstitution m b a (x +:+ r) = x +:+ getSubstitution m b a r.
Proof using Type.
  induction x as [|c x IH]; [done|].
  cbn [all_chars]. intros [Hc Hx]%andb_true_iff.
  change (String c x +:+ r) with (String c (x +:+ r)).
  cbn [getSubstitution]. rewrite (no_dollar_eqb _ Hc), (IH Hx). reflexivity.
Qed.

Lemma getSubstitution_no_dollar m b a (x : string) :
  all_chars no_dollar x = true -> getSubstitution m b a x = x.
Proof using Type.
  intros Hx. rewrite <- (sapp_nil_r x) at 1.
  rewrite getSubstitution_prefix by done. apply sapp_nil_r.
Qed.

Lemma js_replace_at (s pat repl : string) i :
  indexOf pat s = Some i ->
  js_replace s pat repl =
  stake i s
    +:+ getSubstitution pat (stake i s) (sdrop (i + String.length pat) s) repl
    +:+ sdrop (i + String.length pat) s.
Proof using Type.
  intros Hi. unfold js_replace. by rewrite split_first_indexOf, Hi.
Qed.

Lemma js_replace_absent (s pat repl : string) :
  indexOf pat s = None -> js_replace s pat repl = s.
Proof using Type.
  intros Hi. unfold js_replace. by rewrite split_first_indexOf, Hi.
Qed.

(** X6. The replacement of line 207 is a call of [String.replace] with a
    text as second argument, so the dollar patterns of the text inlined are
    interpreted: between stretches without a dollar sign, two dollar signs
    leave one, a dollar and an ampersand leave the text of the directive,
    a dollar and a backquote the content before the directive, and a dollar
    and a single quote the content after it.  A text without a dollar sign
    is put in as it is, in place of the first occurrence of the pattern. *)
Theorem replace_expands_dollar_patterns (s pat x y : string) (i : nat) :
  indexOf pat s = Some i ->
  all_chars no_dollar x = true -> all_chars no_dollar y = true ->
  let before := stake i s in
  let after := sdrop (i + String.length pat) s in
  js_replace s pat (x +:+ y) = before +:+ (x +:+ y) +:+ after /\
  js_replace s pat (x +:+ "$$" +:+ y) = before +:+ (x +:+ "$" +:+ y) +:+ after /\
  js_replace s pat (x +:+ "$&" +:+ y) = before +:+ (x +:+ pat +:+ y) +:+ after /\
  js_replace s pat (x +:+ "$`" +:+ y) = before +:+ (x +:+ before +:+ y) +:+ after /\
  js_replace s pat (x +:+ "$'" +:+ y) = before +:+ (x +:+ after +:+ y) +:+ after.
Proof using Type.
  intros Hi Hx Hy before after.
  rewrite !(js_replace_at _ _ _ _ Hi). fold before after.
  rewrite !(getSubstitution_prefix _ _ _ x _ Hx).
  assert (H0 : forall r, getSubstitution pat before after ("$$" +:+ r)
                         = "$" +:+ getSubstitution pat before after r) by reflexivity.
  assert (H1 : forall r, getSubstitution pat before after ("$&" +:+ r)
                         = pat +:+ getSubstitution pat before after r) by reflexivity.
  assert (H2 : forall r, getSubstitution pat before after ("$`" +:+ r)
                         = before +:+ getSubstitution pat before after r) by reflexivity.
  assert (H3 : forall r, getSubstitution pat before after ("$'" +:+ r)
                         = after +:+ getSubstitution pat before after r) by reflexivity.
  rewrite H0, H1, H2, H3, !getSubstitution_no_dollar by done.
  repeat split.
Qed.

(** X9. The name resolution works with always contains the suffix, so
    computing it from a name it has returned changes nothing: the suffix is
    added at most once. *)
Theorem import_name_idempotent (raw : string) :
  (exists x y, import_name raw = x +:+ FILE_EXTENSION +:+ y) /\
  import_name (import_name raw) = import_name raw.
Proof using Type.
  assert (H : exists x y, import_name raw = x +:+ FILE_EXTENSION +:+ y).
  { unfold import_name. destruct (indexOf FILE_EXTENSION raw) as [i|] eqn:E.
    - apply indexOf_Some in E. eauto.
    - exists raw, EmptyString. by rewrite sapp_nil_r. }
  split; [done|]. by apply import_name_present.
Qed.

(** ** Content without a directive *)

Lemma indexOf_None_tail sub c (s : string) :
  indexOf sub (String c s) = None -> indexOf sub s = None.
Proof using Type.
  cbn [indexOf]. destruct (starts_with sub (String c s)); [done|].
  by destruct (indexOf sub s).
Qed.

Lemma no_import_exec (s : string) :
  indexOf "@import " s = None -> exec_import s = None /\ exec_commented s = None.
Proof using Type.
  intros H. apply indexOf_None in H. split.
  - unfold exec_import. destruct (starts_with "@import " s) eqn:E; [|done].
    apply starts_with_spec in E as [y ->]. destruct H. by exists EmptyString, y.
  - unfold exec_commented. destruct (starts_with "//@import '" s) eqn:E; [|done].
    apply starts_with_spec in E as [y ->]. destruct H.
    by exists "//", (String squote y).
Qed.

Lemma scan_no_import (s : string) :
  indexOf "@import " s = None -> scan_imports 0 s = [].
Proof using Type.
  induction s as [|c s IH]; [done|]. intros H.
  rewrite scan_imports_none by (by apply no_import_exec).
  apply IH. by eapply indexOf_None_tail.
Qed.

Lemma strip_no_import (s : string) :
  indexOf "@import " s = None -> strip_commented_from 0 s = s.
Proof using Type.
  induction s as [|c s IH]; [done|]. intros H.
  cbn [strip_commented_from]. rewrite (proj2 (no_import_exec _ H)).
  f_equal. apply IH. by eapply indexOf_None_tail.
Qed.

(** ** The engine, run step by step *)

Lemma run_resolve_import dirname m s tr :
  run (resolve_import dirname m) s tr =
  (Ok (resolved dirname m), s, tr ++ resolve_events dirname m).
Proof.
  unfold resolve_import, resolved, resolve_events.
  rewrite run_bind, run_access.
  destruct (fs_access _) eqn:E1; [done|].
  rewrite run_bind, run_access.
  destruct (fs_access (underscored _)) eqn:E2; rewrite run_mret;
    by rewrite <- app_assoc.
Qed.

Lemma run_all_of_resolve dirname ms s tr :
  run (all_of (resolve_import dirname) ms) s tr =
  (Ok (map (resolved dirname) ms), s, tr ++ flat_map (resolve_events dirname) ms).
Proof.
  revert tr. induction ms as [|m ms IH]; intros tr; cbn [all_of map flat_map].
  - by rewrite app_nil_r.
  - rewrite run_bind, run_resolve_import, run_bind, IH. cbn [run].
    by rewrite <- app_assoc.
Qed.

Lemma run_import_step_not_found rec d acc imp s tr :
  found imp = false ->
  run (import_step rec d acc imp) s tr =
  (Ok (finish_step d acc imp (not_found_result (fullPath imp)) s), s, tr).
Proof.
  intros Hf. unfold import_step, import_node.
  rewrite !run_bind, run_get, Hf. reflexivity.
Qed.

Lemma run_import_step_cached rec d acc imp s tr c :
  found imp = true ->
  fileRegistry s !! fullPath imp = Some c ->
  run (import_step rec d acc imp) s tr =
  (Ok (finish_step d acc imp (cached_node (fullPath imp) s) (bump_used (fullPath imp) s)),
   bump_used (fullPath imp) s, tr).
Proof.
  intros Hf Hr. unfold import_step, import_node.
  rewrite !run_bind, run_get, Hf. simpl. rewrite Hr. reflexivity.
Qed.

Lemma run_import_step_first rec d acc imp s tr :
  found imp = true ->
  fileRegistry s !! fullPath imp = None ->
  run (import_step rec d acc imp) s tr =
  match fs_readFile (fullPath imp) with
  | None => (Err, s, tr ++ [EvRead (fullPath imp)])
  | Some c =>
      match run (rec (fullPath imp) c d) s (tr ++ [EvRead (fullPath imp)]) with
      | (Ok b, s1, tr1) =>
          (Ok (finish_step d acc imp b
                 (mark_used (fullPath imp) (set_registry (fullPath imp) (bundledContent b) s1))),
           mark_used (fullPath imp) (set_registry (fullPath imp) (bundledContent b) s1),
           tr1)
      | (Err, s1, tr1) => (Err, s1, tr1)
      | (OutOfFuel, s1, tr1) => (OutOfFuel, s1, tr1)
      | (Crashed, s1, tr1) => (Crashed, s1, tr1)
      end
  end.
Proof.
  intros Hf Hr. unfold import_step, import_node.
  rewrite !run_bind, run_get, Hf. cbn [negb]. rewrite Hr.
  rewrite !run_bind. unfold readFile. cbn [run].
  destruct (fs_readFile (fullPath imp)) as [c|]; cbn [run]; [|reflexivity].
  rewrite run_bind.
  destruct (run (rec (fullPath imp) c d) s (tr ++ [EvRead (fullPath imp)]))
    as [[[b| | |] s1] tr1]; reflexivity.
Qed.

Lemma run_bundle_body rec f c d s tr :
  run (bundle_body rec f c d) s tr =
  match run (for_each (import_step rec d) (strip_commented c, [])
               (map (resolved (path_dirname (path_resolve f)))
                    (getAllMatches (strip_commented c))))
            (seed_registry (path_resolve f) (strip_commented c) s)
            (tr ++ flat_map (resolve_events (path_dirname (path_resolve f)))
                            (getAllMatches (strip_commented c))) with
  | (Ok acc, s1, tr1) =>
      (Ok {| filePath := path_resolve f; resultFound := true;
             bundledContent := Some acc.1; deduped := false;
             imports := Some acc.2 |},
       set_imports (path_resolve f) acc.2 s1, tr1)
  | (Err, s1, tr1) => (Err, s1, tr1)
  | (OutOfFuel, s1, tr1) => (OutOfFuel, s1, tr1)
  | (Crashed, s1, tr1) => (Crashed, s1, tr1)
  end.
Proof.
  unfold bundle_body.
  rewrite run_bind, run_modify, run_bind, run_all_of_resolve, run_bind.
  destruct (run (for_each _ _ _) _ _) as [[[acc| | |] s1] tr1]; reflexivity.
Qed.

Lemma run_for_each_cons {A B} (f : A -> B -> Task A) acc x l s tr :
  run (for_each f acc (x :: l)) s tr =
  match run (f acc x) s tr with
  | (Ok acc', s', tr') => run (for_each f acc' l) s' tr'
  | (Err, s', tr') => (Err, s', tr')
  | (OutOfFuel, s', tr') => (OutOfFuel, s', tr')
  | (Crashed, s', tr') => (Crashed, s', tr')
  end.
Proof. cbn [for_each]. by rewrite run_bind. Qed.

(** ** One turn of the loop, whatever the branch *)

Lemma import_step_content rec d acc imp s tr acc' s' tr' :
  run (import_step rec d acc imp) s tr = (Ok acc', s', tr') ->
  acc'.1 = js_replace (if should_dedupe d imp s' then EmptyString else acc.1)
             (importString imp) (text_to_inline imp s').
Proof.
  intros Hrun. destruct (found imp) eqn:Hf.
  2: { rewrite run_import_step_not_found in Hrun by done.
       by injection Hrun as <- <- <-. }
  destruct (fileRegistry s !! fullPath imp) as [c|] eqn:Hreg.
  { rewrite (run_import_step_cached _ _ _ _ _ _ c) in Hrun by done.
    by injection Hrun as <- <- <-. }
  rewrite run_import_step_first in Hrun by done.
  destruct (fs_readFile (fullPath imp)) as [c|]; [|done].
  destruct (run (rec _ _ _) _ _) as [[[b| | |] s1] tr1]; try done.
  by injection Hrun as <- <- <-.
Qed.

(** X5. A turn of the loop that does not dedupe puts the text to inline,
    when it has no dollar sign, in place of the first occurrence of the
    text of the directive in the working content, and leaves the content
    before and after that occurrence as it is; when the text of the
    directive does not occur in the working content any more, the content
    stays as it is and nothing is inlined. *)
Theorem import_inlined_verbatim rec (d : list string) (acc acc' : string * list BundleResult)
    (imp : ImportData) (s s' : Bundler) (tr tr' : list event) :
  run (import_step rec d acc imp) s tr = (Ok acc', s', tr') ->
  should_dedupe d imp s' = false ->
  all_chars no_dollar (text_to_inline imp s') = true ->
  acc'.1 = match indexOf (importString imp) acc.1 with
           | Some i => stake i acc.1 +:+ text_to_inline imp s'
                       +:+ sdrop (i + String.length (importString imp)) acc.1
           | None => acc.1
           end.
Proof.
  intros Hrun Hd Htext. rewrite (import_step_content _ _ _ _ _ _ _ _ _ Hrun), Hd.
  destruct (indexOf (importString imp) acc.1) as [i|] eqn:Hi.
  - rewrite (js_replace_at _ _ _ _ Hi). by rewrite getSubstitution_no_dollar.
  - by apply js_replace_absent.
Qed.

(** X13. The registry stands in for the disk where content is concerned,
    not where existence is.  For a directive whose resolved path has a
    registry entry and no counter (an entry the bundler was constructed
    with), the turn of the loop inlines the registry entry and makes no
    operation on the disk; the node it appends has no content and no
    children, and its flag found is the result of the existence checks.
    When the target is not on the disk the bundler is left as it was (no
    marker is written, although found = false); when it is, the counter of
    the path becomes NaN. *)
Theorem registry_overrides_disk (dirname : string) (m : ImportMatch)
    rec (d : list string) (acc : string * list BundleResult)
    (s : Bundler) (tr : list event) (c : string) :
  let imp := resolved dirname m in
  fileRegistry s !! fullPath imp = Some c ->
  usedImports s !! fullPath imp = None ->
  importsByFile s !! fullPath imp = None ->
  run (import_step rec d acc imp) s tr =
  (Ok (js_replace acc.1 (matchText m) c,
       acc.2 ++ [ {| filePath := fullPath imp; resultFound := found imp;
                     bundledContent := None; deduped := false; imports := None |} ]),
   (if found imp then bump_used (fullPath imp) s else s), tr) /\
  usedImports (bump_used (fullPath imp) s) !! fullPath imp = Some NaN.
Proof.
  intros imp Hreg Hused Hkids.
  assert (Hstr : importString imp = matchText m).
  { unfold imp, resolved. by repeat destruct (fs_access _). }
  split.
  - destruct (found imp) eqn:Hf.
    + rewrite (run_import_step_cached _ _ _ _ _ _ c) by done.
      unfold finish_step, should_dedupe, cached_node, bump_used.
      cbn [fileRegistry usedImports importsByFile fst snd].
      rewrite Hreg, Hused, Hkids, Hstr, lookup_insert_eq. cbn [incr used_twice].
      by rewrite andb_false_r.
    + rewrite run_import_step_not_found by done.
      unfold finish_step, should_dedupe, not_found_result.
      rewrite Hreg, Hused, Hstr. cbn [used_twice].
      by rewrite andb_false_r.
  - unfold bump_used. cbn [usedImports]. by rewrite lookup_insert_eq, Hused.
Qed.

Lemma run_bundle_leaf (n : nat) (f c : string) (d : list string)
    (s : Bundler) (tr : list event) :
  indexOf "@import " c = None ->
  run (bundle (S n) f c d) s tr =
  (Ok (leaf_node (path_resolve f) c),
   set_imports (path_resolve f) [] (seed_registry (path_resolve f) c s), tr).
Proof.
  intros Hc. cbn [bundle]. rewrite run_bundle_body.
  unfold strip_commented, getAllMatches.
  rewrite (strip_no_import _ Hc), (scan_no_import _ Hc).
  cbn [map flat_map for_each run]. by rewrite app_nil_r.
Qed.

(** X14. A file whose content does not contain the text [@import ] is
    bundled to itself: nothing is removed, nothing is read or checked on
    the disk, the node has an empty list of children, and the bundler gets
    the seed and the empty child list of the file. *)
Theorem import_free_file_unchanged (n : nat) (f c : string) (d : list string)
    (s : Bundler) (tr : list event) :
  indexOf "@import " c = None ->
  run (bundle (S n) f c d) s tr =
  (Ok (leaf_node (path_resolve f) c),
   set_imports (path_resolve f) [] (seed_registry (path_resolve f) c s), tr).
Proof. apply run_bundle_leaf. Qed.

(** ** Patterns and the lines of a text *)

Lemma on_line_not_terminator a t :
  on_line a = true -> is_line_terminator t = true -> Ascii.eqb a t = false.
Proof using Type.
  intros Ha Ht. destruct (Ascii.eqb a t) eqn:E; [|done].
  apply Ascii.eqb_eq in E as ->. unfold on_line in Ha. by rewrite Ht in Ha.
Qed.

(** A pattern without a line terminator matches at a place of a line
    whatever follows the end of the line. *)
Lemma starts_with_sep (p x : string) t b :
  all_chars on_line p = true -> is_line_terminator t = true ->
  starts_with p (x +:+ String t b) = starts_with p x.
Proof using Type.
  intros Hp Ht. revert x. induction p as [|a p IH]; intros x; [done|].
  cbn [all_chars] in Hp. apply andb_true_iff in Hp as [Ha Hp].
  destruct x as [|c x]; cbn [String.append starts_with].
  - by rewrite (on_line_not_terminator _ _ Ha Ht).
  - by rewrite (IH Hp).
Qed.

Lemma import_close_sep (z : string) t b :
  is_line_terminator t = true -> import_close (z +:+ String t b) = import_close z.
Proof using Type.
  intros Ht. destruct z as [|q [|c z]]; cbn [String.append import_close].
  - rewrite (terminator_not_quote _ Ht). by destruct b.
  - assert (E : Ascii.eqb t ";" = false).
    { destruct (Ascii.eqb t ";") eqn:E; [|done]. apply Ascii.eqb_eq in E. by subst. }
    rewrite E. apply andb_false_r.
  - done.
Qed.

Lemma dots_then_sep close (y : string) t b :
  is_line_terminator t = true ->
  (forall z, close (z +:+ String t b) = close z) ->
  dots_then close (y +:+ String t b) = dots_then close y.
Proof using Type.
  intros Ht Hclose. induction y as [|c y IH]; cbn [String.append dots_then].
  - rewrite Ht. pose proof (Hclose EmptyString) as E. cbn [String.append] in E.
    by rewrite E.
  - rewrite IH. pose proof (Hclose (String c y)) as E. cbn [String.append] in E.
    by rewrite E.
Qed.

Lemma dots_then_bound close (y : string) n :
  dots_then close y = Some n -> n <= String.length y /\ close (sdrop n y) = true.
Proof using Type.
  revert n. induction y as [|c y IH]; intros n; cbn [dots_then].
  - destruct (close EmptyString) eqn:E; [|done]. intros [= <-]. by split.
  - destruct (if is_line_terminator c then None else dots_then close y) as [k|] eqn:E.
    + intros [= <-]. destruct (is_line_terminator c); [done|].
      destruct (IH k E) as [H1 H2]. cbn. split; [lia|done].
    + destruct (close (String c y)) eqn:Ec; [|done]. intros [= <-]. cbn. split; [lia|done].
Qed.

Lemma length_sdrop n (s : string) : String.length (sdrop n s) = String.length s - n.
Proof using Type.
  revert n. induction s as [|c s IH]; intros [|n]; cbn; auto.
Qed.


Lemma exec_import_sep (x : string) t b :
  is_line_terminator t = true ->
  exec_import (x +:+ String t b) = exec_import x.
Proof using Type.
  intros Ht. unfold exec_import.
  rewrite (starts_with_sep "@import " x t b eq_refl Ht).
  destruct (starts_with "@import " x) eqn:E; [|done].
  apply starts_with_spec in E as [y ->].
  change (match y +:+ String t b with
          | String q r => if is_quote q then dots1_then import_close r else None
          | EmptyString => None
          end =
          match y with
          | String q r => if is_quote q then dots1_then import_close r else None
          | EmptyString => None
          end).
  destruct y as [|q r]; cbn [String.append].
  - by rewrite (terminator_not_quote _ Ht).
  - destruct (is_quote q); [|done].
    unfold dots1_then. rewrite dots_then_sep; [done|done|].
    intros z. by apply import_close_sep.
Qed.


Lemma exec_import_bound (x : string) n :
  exec_import x = Some n -> n + 11 <= String.length x.
Proof using Type.
  unfold exec_import. destruct (starts_with "@import " x) eqn:E; [|done].
  apply starts_with_spec in E as [y ->].
  change (match y with
          | String q r => if is_quote q then dots1_then import_close r else None
          | EmptyString => None
          end = Some n -> n + 11 <= String.length ("@import " +:+ y)).
  destruct y as [|q r]; [done|]. destruct (is_quote q); [|done].
  unfold dots1_then. destruct (dots_then _ r) as [[|k]|] eqn:Ed; try done.
  intros [= <-]. apply dots_then_bound in Ed as [H1 H2].
  assert (Hlen : 2 <= String.length (sdrop (S k) r)).
  { destruct (sdrop (S k) r) as [|a [|c w]]; cbn in *; try done. lia. }
  rewrite length_sdrop in Hlen. rewrite length_sapp. cbn in *. lia.
Qed.

Lemma stake_app_le n (a b : string) :
  n <= String.length a -> stake n (a +:+ b) = stake n a.
Proof using Type.
  revert n. induction a as [|c a IH]; intros [|n] H; cbn in *; try lia.
  - by destruct b.
  - done.
  - f_equal. apply IH. lia.
Qed.

Lemma sdrop_app_le n (a b : string) :
  n <= String.length a -> sdrop n (a +:+ b) = sdrop n a +:+ b.
Proof using Type.
  revert n. induction a as [|c a IH]; intros [|n] H; cbn in *; try done; try lia.
  apply IH. lia.
Qed.


(** The scan for directives works line by line. *)
Lemma scan_sep (a : string) t b : forall n,
  is_line_terminator t = true -> n <= String.length a ->
  scan_imports n (a +:+ String t b) = scan_imports n a ++ scan_imports 0 b.
Proof using Type.
  intros n Ht. revert n. induction a as [|c a IH]; intros n Hn.
  - cbn in Hn. assert (n = 0) as -> by lia.
    cbn [String.append scan_imports].
    pose proof (exec_import_sep EmptyString t b Ht) as E. cbn [String.append] in E.
    rewrite E. reflexivity.
  - destruct n as [|k].
    + change (String c a +:+ String t b) with (String c (a +:+ String t b)).
      cbn [scan_imports].
      pose proof (exec_import_sep (String c a) t b Ht) as E.
      change (String c a +:+ String t b) with (String c (a +:+ String t b)) in E.
      rewrite E. destruct (exec_import (String c a)) as [m|] eqn:Em.
      * pose proof (exec_import_bound _ _ Em) as Hb. cbn in Hb.
        rewrite IH by lia. cbn [app]. f_equal. f_equal.
        -- change (String c (a +:+ String t b)) with (String c a +:+ String t b).
           apply stake_app_le. cbn. lia.
        -- change (String c (a +:+ String t b)) with (String c a +:+ String t b).
           rewrite sdrop_app_le by (cbn; lia).
           apply stake_app_le. rewrite length_sdrop. cbn. lia.
      * apply IH. lia.
    + cbn [String.append scan_imports]. apply IH. cbn in Hn. lia.
Qed.


Lemma scan_head_terminator t b :
  is_line_terminator t = true -> scan_imports 0 (String t b) = scan_imports 0 b.
Proof using Type. intros Ht. exact (scan_sep EmptyString t b 0 Ht (Nat.le_refl _)). Qed.








(** ** A commented-out directive in double quotes *)








(** ** The registry across a run *)


Lemma fs_access_dom p : fs_access p = true <-> p ∈ dom fs.
Proof.
  unfold fs_access. rewrite bool_decide_eq_true. by rewrite elem_of_dom.
Qed.

Lemma resolved_good dirname m : path_laws -> good_import (resolved dirname m).
Proof.
  intros [resolve2_absolute underscored_absolute].
  unfold good_import, resolved.
  destruct (fs_access (path_resolve2 _ _)) eqn:E1; simpl.
  - intros _. split; [done | apply resolve2_absolute].
  - destruct (fs_access (underscored _)) eqn:E2; simpl; [|done].
    intros _. split; [done|]. apply underscored_absolute, resolve2_absolute.
Qed.

Lemma resolved_not_found dirname m :
  found (resolved dirname m) = false -> fs_access (fullPath (resolved dirname m)) = false.
Proof.
  unfold resolved.
  destruct (fs_access (path_resolve2 _ _)) eqn:E1; simpl; [done|].
  by destruct (fs_access (underscored _)) eqn:E2.
Qed.

Lemma reads_app a b : reads (a ++ b) = reads a ++ reads b.
Proof. apply omap_app. Qed.

Lemma reads_resolve_events dirname ms :
  reads (flat_map (resolve_events dirname) ms) = [].
Proof.
  induction ms as [|m ms IH]; simpl; [done|].
  rewrite reads_app, IH. unfold resolve_events.
  by destruct (fs_access _).
Qed.

Lemma regdom_seed p c s :
  regdom (seed_registry p c s) = regdom s ∪ {[p]}.
Proof.
  unfold seed_registry, regdom.
  destruct (fileRegistry s !! p) eqn:E; simpl.
  - apply (elem_of_dom_2 (D := gset string)) in E. set_solver.
  - rewrite dom_insert_L. set_solver.
Qed.

Lemma lookup_seed p c s q :
  fileRegistry (seed_registry p c s) !! q =
  if decide (q = p) then Some (default c (fileRegistry s !! p))
  else fileRegistry s !! q.
Proof.
  unfold seed_registry.
  destruct (fileRegistry s !! p) eqn:E; simpl.
  - destruct (decide (q = p)) as [->|]; done.
  - destruct (decide (q = p)) as [->|];
      [by rewrite lookup_insert_eq | by rewrite lookup_insert_ne].
Qed.

Lemma used_seed p c s : usedImports (seed_registry p c s) = usedImports s.
Proof. unfold seed_registry. by destruct (fileRegistry s !! p). Qed.

Lemma regdom_mark_used p s : regdom (mark_used p s) = regdom s.
Proof. unfold mark_used. by destruct (usedImports s !! p). Qed.

Lemma registry_mark_used p s : fileRegistry (mark_used p s) = fileRegistry s.
Proof. unfold mark_used. by destruct (usedImports s !! p). Qed.

Lemma wf_seed p c s : wf s -> fs_access p = true -> wf (seed_registry p c s).
Proof.
  intros [H1 H2] Hp. split.
  - intros q. rewrite regdom_seed. intros [?| ->%elem_of_singleton]%elem_of_union; auto.
  - intros q. rewrite used_seed, regdom_seed. set_solver.
Qed.

Lemma wf_bump p s : wf s -> p ∈ regdom s -> wf (bump_used p s).
Proof.
  intros [H1 H2] Hp. split; [done|].
  intros q. unfold bump_used; simpl. rewrite dom_insert.
  intros [->%elem_of_singleton|?]%elem_of_union; auto.
Qed.

Lemma wf_first p c s :
  wf s -> p ∈ regdom s -> wf (mark_used p (set_registry p (Some c) s)).
Proof.
  intros [H1 H2] Hp.
  assert (Hd : regdom (set_registry p (Some c) s) = regdom s).
  { unfold regdom, set_registry; simpl. rewrite dom_insert_L.
    unfold regdom in Hp. set_solver. }
  split.
  - intros q. rewrite regdom_mark_used, Hd. auto.
  - intros q. rewrite regdom_mark_used, Hd. unfold mark_used.
    destruct (usedImports _ !! p) eqn:E; simpl; [auto|].
    rewrite dom_insert. intros [->%elem_of_singleton|?]%elem_of_union; auto.
Qed.

Lemma wf_set_imports p l s : wf s -> wf (set_imports p l s).
Proof. by intros [H1 H2]. Qed.

Lemma size_registry_grows (X Y : gset string) p :
  p ∈ dom fs -> p ∉ X -> X ∪ {[p]} ⊆ Y ->
  size (dom fs ∖ Y) < size (dom fs ∖ X).
Proof.
  intros Hp Hn Hsub. apply subset_size. set_solver.
Qed.

Lemma size_registry_mono (X Y : gset string) :
  X ⊆ Y -> size (dom fs ∖ Y) <= size (dom fs ∖ X).
Proof. intros Hsub. apply subseteq_size. set_solver. Qed.

Lemma engine_post_intro {A} avoid s tr (o : outcome A) s' ev :
  NoDup (reads ev) ->
  (forall p, p ∈ reads ev -> (p ∉ avoid) /\ fs_access p = true) ->
  regdom s ⊆ regdom s' ->
  (forall q, q ∈ regdom s -> fileRegistry s' !! q = fileRegistry s !! q) ->
  (is_ok o -> forall p, p ∈ reads ev -> p ∈ regdom s') ->
  (o <> OutOfFuel -> forall p, p ∈ reads ev ->
     is_Some (fs_readFile p) -> p ∈ regdom s') ->
  o <> Crashed ->
  engine_post avoid s tr o s' (tr ++ ev).
Proof. intros. by exists ev. Qed.

Lemma loop_engine n rec d :
  (forall f c s tr o s' tr',
      run (rec f c d) s tr = (o, s', tr') -> bundle_post n f c s tr o s' tr') ->
  forall imps acc s tr o s' tr',
    Forall good_import imps ->
    run (for_each (import_step rec d) acc imps) s tr = (o, s', tr') ->
    loop_post n s tr o s' tr'.
Proof.
  intros Hrec. induction imps as [|imp imps IH]; intros acc s tr o s' tr' Hgood Hrun.
  { simpl in Hrun. injection Hrun as <- <- <-.
    split; [|split; [done|done]].
    exists []. rewrite app_nil_r.
    split; [done|]. split; [apply NoDup_nil_2|].
    split; [intros q Hq; by apply elem_of_nil in Hq|].
    split; [done|]. split; [done|].
    split; [intros _ q Hq; by apply elem_of_nil in Hq|].
    split; [intros _ q Hq; by apply elem_of_nil in Hq|done]. }
  apply Forall_cons in Hgood as [Himp Hgood].
  rewrite run_for_each_cons in Hrun.
  destruct (found imp) eqn:Hf.
  2: { rewrite run_import_step_not_found in Hrun by done. by eapply IH. }
  destruct (Himp Hf) as [Hacc Habs].
  destruct (fileRegistry s !! fullPath imp) as [c|] eqn:Hreg.
  { rewrite (run_import_step_cached _ _ _ _ _ _ c) in Hrun by done.
    apply IH in Hrun as (Hpost & Hwf & Hfuel); [|done].
    split; [done|]. split; [|done].
    intros Hs. apply Hwf, wf_bump; [done|].
    by apply (elem_of_dom_2 (D := gset string)) in Hreg. }
  assert (Hnot : fullPath imp ∉ regdom s) by (by apply not_elem_of_dom).
  rewrite run_import_step_first in Hrun by done.
  destruct (fs_readFile (fullPath imp)) as [c|] eqn:Hread.
  2: { injection Hrun as <- <- <-.
       split; [|split; [done|done]].
       apply (engine_post_intro _ _ _ _ _ [EvRead (fullPath imp)]).
       - apply NoDup_singleton.
       - intros q Hq. by apply list_elem_of_singleton in Hq as ->.
       - done.
       - done.
       - done.
       - intros _ q Hq Hsome. apply list_elem_of_singleton in Hq as ->.
         rewrite Hread in Hsome. by destruct Hsome.
       - done. }
  destruct (run (rec (fullPath imp) c d) s (tr ++ [EvRead (fullPath imp)]))
    as [[o1 s1] tr1] eqn:Hnested.
  apply Hrec in Hnested as (Hpost & Hwf1 & Hfuel1 & Hseed & Hres).
  rewrite Habs in Hpost, Hwf1, Hfuel1, Hseed, Hres.
  destruct Hpost as (ev1 & -> & Hnd1 & Hav1 & Hsub1 & Hkeep1 & Hin1 & Hgot1 & Hnc1).
  assert (Hsize : size (dom fs ∖ regdom s) <= n -> o1 <> OutOfFuel).
  { intros Hle. apply Hfuel1.
    eapply Nat.lt_le_trans; [|exact Hle].
    apply (size_registry_grows _ _ (fullPath imp)); [by apply fs_access_dom|done|done]. }
  assert (Hpre : engine_post (regdom s) s tr o1 s1
                   (tr ++ EvRead (fullPath imp) :: ev1) ->
                 loop_post n s tr o1 s1 (tr ++ EvRead (fullPath imp) :: ev1)).
  { intros He. split; [done|]. split; [|done]. auto. }
  assert (Hev : NoDup (fullPath imp :: reads ev1) /\
                forall p, p ∈ fullPath imp :: reads ev1 ->
                          (p ∉ regdom s) /\ fs_access p = true).
  { split.
    - apply NoDup_cons. split; [|done]. intros Hin. apply Hav1 in Hin. set_solver.
    - intros p [->|Hin]%elem_of_cons; [done|].
      apply Hav1 in Hin. set_solver. }
  destruct Hev as [Hnd Hav].
  assert (Hgot : o1 <> OutOfFuel -> forall q, q ∈ fullPath imp :: reads ev1 ->
                 is_Some (fs_readFile q) -> q ∈ regdom s1).
  { intros Ho q [->|Hq]%elem_of_cons Hsome; [|by apply Hgot1].
    apply elem_of_dom. rewrite Hseed by done. eauto. }
  destruct o1 as [b| | |].
  2: { injection Hrun as <- <- <-. rewrite <- app_assoc.
       split; [|split; [auto|done]].
       apply (engine_post_intro _ _ _ _ _ (EvRead (fullPath imp) :: ev1));
         [done|done|done|done|done|intros _; by apply Hgot|done]. }
  2: { injection Hrun as <- <- <-. rewrite <- app_assoc.
       split; [|split; [auto|intros Hle; by destruct (Hsize Hle)]].
       apply (engine_post_intro _ _ _ _ _ (EvRead (fullPath imp) :: ev1));
         [done|done|done|done|done|intros H; by destruct H|done]. }
  2: { by destruct Hnc1. }
  destruct (Hres b eq_refl) as (_ & _ & _ & [content Hcontent] & _).
  rewrite Hcontent in Hrun.
  assert (Hp1 : fullPath imp ∈ regdom s1).
  { apply elem_of_dom. rewrite Hseed by done. eauto. }
  set (s2 := mark_used (fullPath imp) (set_registry (fullPath imp) (Some content) s1)) in *.
  assert (Hd2 : regdom s2 = regdom s1).
  { unfold s2. rewrite regdom_mark_used. unfold regdom, set_registry; simpl.
    rewrite dom_insert_L. unfold regdom in Hp1. set_solver. }
  apply IH in Hrun as (Hpost2 & Hwf2 & Hfuel2); [|done].
  destruct Hpost2 as (ev2 & -> & Hnd2 & Hav2 & Hsub2 & Hkeep2 & Hin2 & Hgot2 & Hnc2).
  rewrite Hd2 in Hav2, Hsub2.
  split; [|split].
  - exists (EvRead (fullPath imp) :: ev1 ++ ev2).
    split; [by rewrite <- !app_assoc|].
    change (reads (EvRead (fullPath imp) :: ev1 ++ ev2))
      with (fullPath imp :: reads (ev1 ++ ev2)).
    rewrite reads_app.
    split; [|split; [|split; [|split; [|split; [|split; [|exact Hnc2]]]]]].
    + rewrite app_comm_cons. apply NoDup_app. split; [done|]. split; [|done].
      intros p Hp Hp2. apply Hav2 in Hp2 as [Hp2 _]. apply Hp2.
      apply elem_of_cons in Hp as [->|Hp]; [done|]. by apply Hin1.
    + intros p Hp. rewrite app_comm_cons in Hp.
      apply elem_of_app in Hp as [Hp|Hp]; [by apply Hav|].
      apply Hav2 in Hp as [Hp ?]. split; [set_solver|done].
    + set_solver.
    + intros q Hq. rewrite Hkeep2 by (rewrite Hd2; set_solver).
      unfold s2. rewrite registry_mark_used. unfold set_registry; simpl.
      rewrite lookup_insert_ne by set_solver. by apply Hkeep1.
    + intros Hok p Hp. rewrite app_comm_cons in Hp.
      apply elem_of_app in Hp as [Hp|Hp]; [|by apply Hin2].
      apply Hsub2. apply elem_of_cons in Hp as [->|Hp]; [done|]. by apply Hin1.
    + intros Ho p Hp Hsome. rewrite app_comm_cons in Hp.
      apply elem_of_app in Hp as [Hp|Hp]; [|by apply Hgot2].
      apply Hsub2. apply elem_of_cons in Hp as [->|Hp]; [done|]. by apply Hin1.
  - intros Hs. apply Hwf2. apply wf_first; [|done].
    by apply Hwf1.
  - intros Hle. apply Hfuel2. rewrite Hd2.
    etrans; [|exact Hle]. by apply size_registry_mono.
Qed.

Lemma bundle_engine n : path_laws -> forall f c d s tr o s' tr',
  run (bundle n f c d) s tr = (o, s', tr') -> bundle_post n f c s tr o s' tr'.
Proof.
  intros Hlaws. induction n as [|n IHn]; intros f c d s tr o s' tr' Hrun.
  { simpl in Hrun. injection Hrun as <- <- <-.
    split; [|split; [done|split; [lia|split; [done|done]]]].
    rewrite <- (app_nil_r tr) at 2.
    apply engine_post_intro.
    - apply NoDup_nil_2.
    - intros q Hq. by apply elem_of_nil in Hq.
    - done.
    - done.
    - done.
    - intros _ q Hq. by apply elem_of_nil in Hq.
    - done. }
  cbn [bundle] in Hrun. rewrite run_bundle_body in Hrun.
  set (rf := path_resolve f) in *.
  set (content := strip_commented c) in *.
  set (s0 := seed_registry rf content s) in *.
  set (acs := flat_map (resolve_events (path_dirname rf)) (getAllMatches content)) in *.
  destruct (run (for_each _ _ _) s0 (tr ++ acs)) as [[o1 s1] tr1] eqn:Hloop.
  apply (loop_engine n _ _ (fun f c => IHn f c d)) in Hloop
    as (Hpost & Hwf & Hfuel).
  2: { apply Forall_map, Forall_true. intros m. by apply resolved_good. }
  destruct Hpost as (ev & -> & Hnd & Hav & Hsub & Hkeep & Hin & Hgot & Hnc).
  unfold s0 in Hav, Hsub, Hkeep, Hfuel. rewrite regdom_seed in Hav, Hsub, Hkeep, Hfuel.
  assert (Hrf : fileRegistry s1 !! rf = Some (default content (fileRegistry s !! rf))).
  { rewrite Hkeep by set_solver. rewrite lookup_seed. by rewrite decide_True. }
  assert (Hkeep' : forall q, q ∈ regdom s -> fileRegistry s1 !! q = fileRegistry s !! q).
  { intros q Hq. rewrite Hkeep by set_solver. rewrite lookup_seed.
    destruct (decide (q = rf)) as [->|]; [|done].
    unfold regdom in Hq. apply elem_of_dom in Hq as [v Hv]. by rewrite Hv. }
  assert (Hreads : reads (acs ++ ev) = reads ev).
  { rewrite reads_app. unfold acs. by rewrite reads_resolve_events. }
  assert (Hpost : forall (o : outcome BundleResult) s2,
             fileRegistry s2 = fileRegistry s1 ->
             (is_ok o -> is_ok o1) -> (o <> OutOfFuel -> o1 <> OutOfFuel) ->
             o <> Crashed ->
             engine_post (regdom s ∪ {[rf]}) s tr o s2 ((tr ++ acs) ++ ev)).
  { intros o2 s2 Hs2 Hok Hfu Hnc2. rewrite <- app_assoc.
    apply engine_post_intro; rewrite ?Hreads; unfold regdom; rewrite ?Hs2.
    - done.
    - done.
    - fold (regdom s) (regdom s1). set_solver.
    - done.
    - intros Ho. by apply Hin, Hok.
    - intros Ho. by apply Hgot, Hfu.
    - done. }
  destruct o1 as [acc| | |]; injection Hrun as <- <- <-; [| | |by destruct Hnc].
  - split; [by apply Hpost|]. split; [|split; [done|split; [done|]]].
    + intros Hs Hacc. apply wf_set_imports, Hwf. by apply wf_seed.
    + intros r [= <-]. simpl. repeat split; eauto.
      eexists. split; [done|]. apply lookup_insert_eq.
  - split; [by apply Hpost|]. split; [|split; [done|split; [done|done]]].
    intros Hs Hacc. apply Hwf. by apply wf_seed.
  - split; [by apply Hpost|]. split; [|split; [|split; [done|done]]].
    + intros Hs Hacc. apply Hwf. by apply wf_seed.
    + intros Hlt. exfalso. by apply Hfuel; [fold rf in Hlt; lia|].
Qed.

(** A call of the engine on an existing file keeps a bundler in the states
    [wf] describes. *)
Lemma wf_bundle n f c d s tr o s' tr' :
  path_laws -> wf s -> fs_access (path_resolve f) = true ->
  run (bundle n f c d) s tr = (o, s', tr') -> wf s'.
Proof.
  intros Hlaws Hwf Hacc Hrun.
  apply bundle_engine in Hrun as (_ & H & _); auto.
Qed.

Lemma fuel_enough (X : gset string) n : size (dom fs) < n -> size (dom fs ∖ X) < n.
Proof.
  intros H. eapply Nat.le_lt_trans; [|exact H]. apply subseteq_size. set_solver.
Qed.

(** The reads of a call of the engine that runs without other calls in
    between. *)
Lemma bundle_reads n f c d s tr o s' tr' :
  path_laws ->
  run (bundle n f c d) s tr = (o, s', tr') ->
  (size (dom fs) < n -> o <> OutOfFuel) /\
  exists ev, tr' = tr ++ ev /\ NoDup (reads ev) /\
    (forall p, p ∈ reads ev -> fileRegistry s !! p = None /\ p <> path_resolve f) /\
    (is_ok o -> forall p, p ∈ reads ev -> is_Some (fileRegistry s' !! p)) /\
    (o <> OutOfFuel -> forall p, p ∈ reads ev -> is_Some (fs_readFile p) ->
       is_Some (fileRegistry s' !! p)) /\
    (forall q, is_Some (fileRegistry s !! q) ->
               fileRegistry s' !! q = fileRegistry s !! q).
Proof.
  intros Hlaws Hrun. apply bundle_engine in Hrun as (Hpost & _ & Hfuel & _); [|done].
  split; [intros Hn; by apply Hfuel, fuel_enough|].
  destruct Hpost as (ev & -> & Hnd & Hav & Hsub & Hkeep & Hin & Hgot & _).
  exists ev. split; [done|]. split; [done|]. split; [|split; [|split]].
  - intros p Hp. apply Hav in Hp as [Hp _]. split.
    + apply not_elem_of_dom. unfold regdom in Hp. set_solver.
    + set_solver.
  - intros Hok p Hp. apply elem_of_dom. by apply Hin.
  - intros Ho p Hp Hsome. apply elem_of_dom. by apply Hgot.
  - intros q Hq. apply Hkeep. by apply elem_of_dom.
Qed.

(** ** A commented-out directive in double quotes, bundled *)




(** ** Usage counters and references *)

Lemma access_count_app p a b :
  access_count p (a ++ b) = access_count p a + access_count p b.
Proof.
  unfold access_count, accesses. by rewrite omap_app, filter_app, length_app.
Qed.

Lemma references_app p a b :
  references p (a ++ b) = references p a + references p b.
Proof.
  unfold references. destruct (fs_access p); [apply access_count_app | done].
Qed.

Lemma references_mono p a b : references p a <= references p (a ++ b).
Proof. rewrite references_app. lia. Qed.

Lemma counted_mono pend pend' s tr ev :
  (forall p, pend' p <= pend p) ->
  counted pend s tr -> counted pend' s (tr ++ ev).
Proof.
  intros Hle H p. specialize (H p). specialize (Hle p).
  pose proof (references_mono p tr ev). lia.
Qed.

Lemma dedup_ok_mono tr ev r : dedup_ok tr r -> dedup_ok (tr ++ ev) r.
Proof.
  intros H x Hx Hd. specialize (H x Hx Hd).
  pose proof (references_mono (filePath x) tr ev). lia.
Qed.

Lemma Forall_dedup_ok_mono tr ev l :
  Forall (dedup_ok tr) l -> Forall (dedup_ok (tr ++ ev)) l.
Proof. intros H. eapply Forall_impl; [exact H|]. intros r. apply dedup_ok_mono. Qed.

Lemma stored_ok_mono s tr ev : stored_ok s tr -> stored_ok s (tr ++ ev).
Proof. intros H q l Hl. by eapply Forall_dedup_ok_mono, H. Qed.

Lemma pending_cons imp imps p :
  pending (imp :: imps) p =
  (if bool_decide (found imp = true /\ fullPath imp = p) then 1 else 0) + pending imps p.
Proof.
  unfold pending. rewrite filter_cons.
  case_bool_decide; by destruct (decide _).
Qed.

(** The resolutions of a file put at least one successful check in the
    trace for each record found. *)
Lemma pending_resolved dirname ms p :
  path_laws ->
  pending (map (resolved dirname) ms) p
  <= references p (flat_map (resolve_events dirname) ms).
Proof.
  intros Hlaws. induction ms as [|m ms IH]; [unfold pending; simpl; lia|].
  cbn [map flat_map]. rewrite pending_cons, references_app.
  case_bool_decide as Hm; [|lia].
  destruct Hm as [Hf Hp].
  enough (1 <= references p (resolve_events dirname m)) by lia.
  pose proof (resolved_good dirname m Hlaws Hf) as [Hacc _].
  rewrite Hp in Hacc. unfold references. rewrite Hacc.
  revert Hf Hp. unfold resolved, resolve_events.
  destruct (fs_access (path_resolve2 _ _)) eqn:E1; simpl.
  - intros _ <-. unfold access_count. simpl.
    rewrite filter_cons. by rewrite decide_True.
  - destruct (fs_access (underscored _)) eqn:E2; simpl; [|done].
    intros _ <-. unfold access_count. simpl.
    rewrite !filter_cons. rewrite (decide_True (P := underscored _ = _)) by done.
    destruct (decide _); simpl; lia.
Qed.

Lemma used_twice_count s p :
  used_twice (usedImports s !! p) = true -> 2 <= usedcount s p.
Proof.
  unfold used_twice, usedcount.
  destruct (usedImports s !! p) as [[k|]|]; try done.
  rewrite bool_decide_eq_true. lia.
Qed.

Lemma should_dedupe_count d imp s :
  should_dedupe d imp s = true -> 2 <= usedcount s (fullPath imp).
Proof.
  unfold should_dedupe. rewrite !andb_true_iff.
  intros [_ H]. by apply used_twice_count.
Qed.

(** A node put in the list of the current file is in order when its
    children are and the path it is marked deduped for is counted twice. *)
Lemma dedup_ok_finish d imp s tr pend node :
  counted pend s tr ->
  filePath node = fullPath imp ->
  deduped node = false ->
  (forall l, imports node = Some l -> Forall (dedup_ok tr) l) ->
  dedup_ok tr (if should_dedupe d imp s then set_deduped node else node).
Proof.
  intros Hc Hpath Hded Hkids x Hx Hdx.
  assert (Hbelow : forall y l, imports node = Some l ->
            y ∈ flat_map all_nodes l -> deduped y = true ->
            2 <= references (filePath y) tr).
  { intros y l Hl Hy Hdy. apply list_elem_of_In, in_flat_map in Hy as (z & Hz & Hy).
    apply list_elem_of_In in Hz, Hy.
    specialize (Hkids l Hl). rewrite Forall_forall in Hkids. by apply (Hkids z Hz y). }
  destruct (should_dedupe d imp s) eqn:Hsd.
  - destruct node as [fp fo bc de im]; simpl in *.
    cbn [all_nodes imports set_deduped] in Hx.
    apply elem_of_cons in Hx as [->|Hx].
    + simpl. apply should_dedupe_count in Hsd. specialize (Hc (fullPath imp)).
      rewrite Hpath. lia.
    + destruct im as [l|]; [by eapply Hbelow | by apply elem_of_nil in Hx].
  - destruct node as [fp fo bc de im]; simpl in *.
    apply elem_of_cons in Hx as [->|Hx]; [simpl in Hdx; congruence|].
    destruct im as [l|]; [by eapply Hbelow | by apply elem_of_nil in Hx].
Qed.

Lemma dedup_ok_children tr r l :
  dedup_ok tr r -> imports r = Some l -> Forall (dedup_ok tr) l.
Proof.
  intros H Hl. apply Forall_forall. intros z Hz x Hx Hd.
  apply H; [|done]. destruct r as [fp fo bc de im]; simpl in *. subst im.
  apply elem_of_cons. right.
  apply list_elem_of_In, in_flat_map. exists z.
  split; by apply list_elem_of_In.
Qed.

Lemma usedcount_bump p s q :
  usedcount (bump_used p s) q <= usedcount s q + (if decide (p = q) then 1 else 0).
Proof.
  unfold usedcount, bump_used; simpl.
  destruct (decide (p = q)) as [->|Hne].
  - rewrite lookup_insert_eq. unfold incr.
    destruct (usedImports s !! q) as [[k|]|]; lia.
  - rewrite lookup_insert_ne by done. lia.
Qed.

Lemma usedcount_mark p s q :
  usedcount (mark_used p s) q <= usedcount s q + (if decide (p = q) then 1 else 0).
Proof.
  unfold usedcount, mark_used.
  destruct (usedImports s !! p) as [v|] eqn:E; simpl; [lia|].
  destruct (decide (p = q)) as [->|Hne].
  - rewrite lookup_insert_eq, E. lia.
  - rewrite lookup_insert_ne by done. lia.
Qed.

Lemma pending_found imp imps q :
  found imp = true ->
  pending (imp :: imps) q = (if decide (fullPath imp = q) then 1 else 0) + pending imps q.
Proof.
  intros Hf. rewrite pending_cons.
  destruct (decide (fullPath imp = q)) as [Hq|Hq].
  - by rewrite bool_decide_eq_true_2.
  - rewrite bool_decide_eq_false_2; [done|]. by intros [_ ?].
Qed.

Lemma pending_not_found imp imps q :
  found imp = false -> pending (imp :: imps) q = pending imps q.
Proof.
  intros Hf. rewrite pending_cons. rewrite bool_decide_eq_false_2; [done|].
  intros [? _]. congruence.
Qed.

Lemma loop_count rec d :
  (forall f c s tr pend o s' tr',
      counted pend s tr -> stored_ok s tr ->
      run (rec f c d) s tr = (o, s', tr') ->
      counted pend s' tr' /\ stored_ok s' tr' /\ (exists ev, tr' = tr ++ ev) /\
      forall r, o = Ok r ->
        dedup_ok tr' r /\ filePath r = path_resolve f /\ deduped r = false) ->
  forall imps acc s tr pend o s' tr',
    Forall good_import imps ->
    counted (fun p => pend p + pending imps p) s tr ->
    stored_ok s tr ->
    Forall (dedup_ok tr) acc.2 ->
    run (for_each (import_step rec d) acc imps) s tr = (o, s', tr') ->
    counted pend s' tr' /\ stored_ok s' tr' /\ (exists ev, tr' = tr ++ ev) /\
    forall acc', o = Ok acc' -> Forall (dedup_ok tr') acc'.2.
Proof.
  intros Hrec.
  induction imps as [|imp imps IH]; intros acc s tr pend o s' tr' Hgood Hc Hst Hacc Hrun.
  { simpl in Hrun. injection Hrun as <- <- <-.
    split; [|split; [done|split; [exists []; by rewrite app_nil_r|]]].
    - intros p. specialize (Hc p). unfold pending in Hc. simpl in Hc. lia.
    - by intros acc' [= <-]. }
  apply Forall_cons in Hgood as [Himp Hgood].
  rewrite run_for_each_cons in Hrun.
  destruct (found imp) eqn:Hf.
  2: { rewrite run_import_step_not_found in Hrun by done.
       apply (IH _ _ _ pend) in Hrun; try done.
       - intros p. specialize (Hc p). cbn beta in Hc.
         by rewrite pending_not_found in Hc.
       - unfold finish_step. cbn [snd]. apply Forall_app. split; [done|].
         apply Forall_singleton.
         apply (dedup_ok_finish _ _ _ _ (fun p => pend p + pending (imp :: imps) p));
           try done. }
  destruct (Himp Hf) as [Hacc1 Habs].
  destruct (fileRegistry s !! fullPath imp) as [c|] eqn:Hreg.
  { rewrite (run_import_step_cached _ _ _ _ _ _ c) in Hrun by done.
    assert (Hc' : counted (fun p => pend p + pending imps p)
                    (bump_used (fullPath imp) s) tr).
    { intros q. specialize (Hc q). cbn beta in Hc.
      rewrite pending_found in Hc by done.
      pose proof (usedcount_bump (fullPath imp) s q).
      destruct (decide (fullPath imp = q)); lia. }
    apply (IH _ _ _ pend) in Hrun; try done.
    unfold finish_step. cbn [snd]. apply Forall_app. split; [done|].
    apply Forall_singleton.
    apply (dedup_ok_finish _ _ _ _ (fun p => pend p + pending imps p)); try done.
    intros l Hl. by apply (Hst (fullPath imp)). }
  rewrite run_import_step_first in Hrun by done.
  destruct (fs_readFile (fullPath imp)) as [c|] eqn:Hread.
  2: { injection Hrun as <- <- <-.
       split; [|split; [by apply stored_ok_mono|split; [by eexists|done]]].
       eapply counted_mono; [|exact Hc]. intros p; simpl; lia. }
  destruct (run (rec (fullPath imp) c d) s (tr ++ [EvRead (fullPath imp)]))
    as [[o1 s1] tr1] eqn:Hnested.
  apply (Hrec _ _ _ _ (fun p => pend p + pending (imp :: imps) p)) in Hnested
    as (Hc1 & Hst1 & [ev1 Hev1] & Hres).
  2: { eapply counted_mono; [|exact Hc]. intros p; simpl; lia. }
  2: { by apply stored_ok_mono. }
  assert (Htr1 : tr1 = tr ++ (EvRead (fullPath imp) :: ev1)).
  { rewrite Hev1. by rewrite <- app_assoc. }
  assert (Hweak : counted pend s1 tr1).
  { intros p. specialize (Hc1 p). simpl in Hc1. lia. }
  destruct o1 as [b| | |].
  2: { injection Hrun as <- <- <-. split; [done|]. split; [done|]. split; [by eexists|done]. }
  2: { injection Hrun as <- <- <-. split; [done|]. split; [done|]. split; [by eexists|done]. }
  2: { injection Hrun as <- <- <-. split; [done|]. split; [done|]. split; [by eexists|done]. }
  destruct (Hres b eq_refl) as (Hb & Hbp & Hbd). rewrite Habs in Hbp.
  set (s2 := mark_used (fullPath imp) (set_registry (fullPath imp) (bundledContent b) s1)) in *.
  assert (Hc2 : counted (fun p => pend p + pending imps p) s2 tr1).
  { intros q. specialize (Hc1 q). cbn beta in Hc1. rewrite pending_found in Hc1 by done.
    pose proof (usedcount_mark (fullPath imp)
                  (set_registry (fullPath imp) (bundledContent b) s1) q) as Hm.
    change (usedcount (set_registry (fullPath imp) (bundledContent b) s1) q)
      with (usedcount s1 q) in Hm.
    fold s2 in Hm. destruct (decide (fullPath imp = q)); lia. }
  assert (Hst2 : stored_ok s2 tr1).
  { intros q l Hl. apply (Hst1 q). revert Hl. unfold s2, mark_used.
    by destruct (usedImports _ !! _). }
  apply (IH _ _ _ pend) in Hrun as (Hc3 & Hst3 & [ev2 Hev2] & Hacc3); try done.
  - split; [done|]. split; [done|]. split; [|done].
    exists ((EvRead (fullPath imp) :: ev1) ++ ev2). rewrite Hev2, Htr1.
    by rewrite <- app_assoc.
  - unfold finish_step. cbn [snd]. apply Forall_app. split.
    + rewrite Htr1. by apply Forall_dedup_ok_mono.
    + apply Forall_singleton.
      apply (dedup_ok_finish _ _ _ _ (fun p => pend p + pending imps p)); try done.
      intros l Hl. by apply (dedup_ok_children _ b).
Qed.

Lemma bundle_count n : path_laws -> forall f c d s tr pend o s' tr',
  counted pend s tr -> stored_ok s tr ->
  run (bundle n f c d) s tr = (o, s', tr') ->
  counted pend s' tr' /\ stored_ok s' tr' /\ (exists ev, tr' = tr ++ ev) /\
  forall r, o = Ok r ->
    dedup_ok tr' r /\ filePath r = path_resolve f /\ deduped r = false.
Proof.
  intros Hlaws.
  induction n as [|n IHn]; intros f c d s tr pend o s' tr' Hc Hst Hrun.
  { simpl in Hrun. injection Hrun as <- <- <-.
    split; [done|]. split; [done|]. split; [exists []; by rewrite app_nil_r|done]. }
  cbn [bundle] in Hrun. rewrite run_bundle_body in Hrun.
  set (rf := path_resolve f) in *.
  set (content := strip_commented c) in *.
  set (ms := getAllMatches content) in *.
  set (acs := flat_map (resolve_events (path_dirname rf)) ms) in *.
  destruct (run (for_each _ _ _) _ (tr ++ acs)) as [[o1 s1] tr1] eqn:Hloop.
  apply (loop_count _ _ (fun f c => IHn f c d) _ _ _ _ pend) in Hloop
    as (Hc1 & Hst1 & [ev Hev] & Hacc).
  - assert (Htr : exists ev', tr1 = tr ++ ev').
    { exists (acs ++ ev). rewrite Hev. by rewrite <- app_assoc. }
    destruct o1 as [acc| | |]; injection Hrun as <- <- <-; [| done | done | done].
    + specialize (Hacc acc eq_refl).
      split; [done|]. split; [|split; [done|]].
      * intros q l. unfold set_imports; simpl.
        destruct (decide (rf = q)) as [->|Hne].
        -- rewrite lookup_insert_eq. by intros [= <-].
        -- rewrite lookup_insert_ne by done. apply Hst1.
      * intros r [= <-]. split; [|done].
        intros x Hx Hd. cbn [all_nodes imports] in Hx.
        apply elem_of_cons in Hx as [->|Hx]; [done|].
        apply list_elem_of_In, in_flat_map in Hx as (z & Hz & Hx).
        apply list_elem_of_In in Hz, Hx.
        rewrite Forall_forall in Hacc. by apply (Hacc z Hz x).
  - apply Forall_map, Forall_true. intros m. by apply resolved_good.
  - intros p. specialize (Hc p).
    rewrite references_app.
    pose proof (pending_resolved (path_dirname rf) ms p Hlaws) as Hp. fold acs in Hp.
    change (usedcount (seed_registry rf content s) p) with
      (match usedImports (seed_registry rf content s) !! p with
       | Some (Num k) => k | _ => 0 end).
    rewrite used_seed. fold (usedcount s p). lia.
  - intros q l Hl. apply Forall_dedup_ok_mono. apply (Hst q).
    revert Hl. unfold seed_registry. by destruct (fileRegistry s !! rf).
  - apply Forall_nil_2.
Qed.

(** X2. The condition of dedup, which the code keeps to: starting from an
    empty bundler, a call of the engine never runs out
    of the fuel [size (dom fs) + 1]; dedup applies to an import only when
    the counter of its target is a number greater than 1; every counter is
    at most the number of references to its path; and every node marked
    deduped in the returned tree is of a path referenced at least twice: a
    file referenced at most once is never deduped, whether or not it is in
    the list of files to dedupe. *)
Theorem dedupe_needs_two_references (n : nat) (f c : string) (d : list string)
    o s' tr' :
  path_laws ->
  run (bundle n f c d) fresh [] = (o, s', tr') ->
  (size (dom fs) < n -> o <> OutOfFuel) /\
  (forall imp s, should_dedupe d imp s = true ->
     exists k, usedImports s !! fullPath imp = Some (Num k) /\ 1 < k) /\
  (forall p k, usedImports s' !! p = Some (Num k) -> k <= references p tr') /\
  (forall r p, o = Ok r -> references p tr' <= 1 ->
     forall x, x ∈ all_nodes r -> filePath x = p -> deduped x = false).
Proof.
  intros Hlaws Hrun. split; [|split; [|split]].
  - intros Hn. apply bundle_engine in Hrun as (_ & _ & Hfuel & _); [|done].
    by apply Hfuel, fuel_enough.
  - intros imp s. unfold should_dedupe. rewrite !andb_true_iff.
    intros [_ H]. unfold used_twice in H.
    destruct (usedImports s !! fullPath imp) as [[k|]|]; try done.
    apply bool_decide_eq_true in H. eauto.
  - apply (bundle_count _ Hlaws _ _ _ _ _ (fun _ => 0)) in Hrun as (Hc & _); try done.
    + intros p k Hk. specialize (Hc p). unfold usedcount in Hc.
      rewrite Hk in Hc. lia.
    + intros p. unfold usedcount, references. simpl.
      rewrite lookup_empty. destruct (fs_access p); simpl; lia.
  - intros r p -> Hp x Hx Hxp.
    apply (bundle_count _ Hlaws _ _ _ _ _ (fun _ => 0)) in Hrun as (_ & _ & _ & Hres);
      try done.
    + destruct (Hres r eq_refl) as (Hok & _).
      destruct (deduped x) eqn:Hd; [|done].
      specialize (Hok x Hx Hd). rewrite Hxp in Hok. lia.
    + intros q. unfold usedcount, references. simpl.
      rewrite lookup_empty. destruct (fs_access q); simpl; lia.
Qed.

(** ** One call of [Bundle] *)

Lemma run_globFilesOrEmpty globs s tr :
  run (globFilesOrEmpty globs) s tr =
  (dedupe_files globs, s,
   tr ++ match globs with [] => [] | _ => [EvGlob globs] end).
Proof.
  unfold globFilesOrEmpty, dedupe_files. destruct globs as [|g globs]; cbn.
  - by rewrite app_nil_r.
  - by destruct (glob_expand (g :: globs)) as [l|[l|]|].
Qed.

(** A call of [Bundle], by cases on the entry and on the expansion. *)
Lemma run_Bundle n file globs s tr :
  run (Bundle n file globs) s tr =
  if fs_access file then
    match dedupe_files globs with
    | Ok d =>
        match fs_readFile file with
        | Some c =>
            match run (bundle n file c d) s (tr ++ entry_events file globs) with
            | (Err, s', tr') => (Ok (not_found_result file), s', tr')
            | x => x
            end
        | None => (Ok (not_found_result file), s, tr ++ entry_events file globs)
        end
    | Err => (Ok (not_found_result file), s, tr ++ entry_events file globs)
    | OutOfFuel => (OutOfFuel, s, tr ++ entry_events file globs)
    | Crashed => (Crashed, s, tr ++ entry_events file globs)
    end
  else (Ok (not_found_result file), s, tr ++ entry_events file globs).
Proof.
  unfold Bundle, entry_events.
  rewrite run_try_catch, run_bind, run_access.
  destruct (fs_access file); [|reflexivity].
  cbn [negb run]. rewrite run_bind, run_globFilesOrEmpty.
  rewrite <- !app_assoc. cbn [app].
  destruct (dedupe_files globs) as [d| | |]; try reflexivity.
  destruct (fs_readFile file) as [c|]; [|reflexivity].
  by destruct (run (bundle n file c d) _ _) as [[[r| | |] s'] tr'].
Qed.

Lemma dedupe_files_crashed globs : dedupe_files globs = Crashed <-> glob_crashes globs.
Proof.
  unfold dedupe_files, glob_crashes. destruct globs as [|g globs].
  - split; [done | by intros [? _]].
  - destruct (glob_expand (g :: globs)) as [l|[l|]|]; split; try done; by intros [_ ?].
Qed.

Lemma dedupe_files_fuel globs : dedupe_files globs <> OutOfFuel.
Proof.
  unfold dedupe_files. destruct globs as [|g globs]; [done|].
  by destruct (glob_expand (g :: globs)) as [l|[l|]|].
Qed.



Lemma readable_accessible p : is_Some (fs_readFile p) -> fs_access p = true.
Proof.
  unfold fs_readFile, fs_access. intros [c Hc]. apply bool_decide_eq_true.
  destruct (fs !! p); [by eexists|done].
Qed.


Lemma run_Bundle_crashes n file globs s tr :
  Bundle_crashes file globs ->
  run (Bundle n file globs) s tr = (Crashed, s, tr ++ entry_events file globs).
Proof.
  intros [Hacc Hc]. rewrite run_Bundle, Hacc.
  apply dedupe_files_crashed in Hc. by rewrite Hc.
Qed.




(** ** Calls in flight *)

Lemma at_rest_Bundle n file globs : at_rest (Bundle n file globs).
Proof. intros s. reflexivity. Qed.

Lemma start_at_rest ts s : Forall at_rest ts -> start ts s = (ts, s).
Proof.
  induction 1 as [|t ts Ht _ IH]; [done|].
  cbn [start]. rewrite Ht. cbn [fst snd]. by rewrite IH.
Qed.

Lemma start_Bundle n files globs s :
  start (map (fun file => Bundle n file globs) files) s =
  (map (fun file => Bundle n file globs) files, s).
Proof.
  apply start_at_rest, Forall_map, Forall_true. intros f. apply at_rest_Bundle.
Qed.



Lemma lands_not_throw {A} (o : outcome A) t : lands o t -> t <> Throw.
Proof. intros H. by inversion H. Qed.









(** ** The schedule that runs the calls one after the other *)

Lemma pool_eta (P : pool) :
  P = {| tasks := tasks P; shared := shared P; trace := trace P |}.
Proof. by destruct P. Qed.








(** ** Batches whose calls never look at the bundler *)






(** ** What every schedule preserves *)


















Lemma wf_fresh : wf fresh.
Proof. split; intros q Hq; by apply not_elem_of_empty in Hq. Qed.

Lemma triple_eta {A B C} (x : A * B * C) : x = (x.1.1, x.1.2, x.2).
Proof. by destruct x as [[? ?] ?]. Qed.

(** ** Properties every step of the engine keeps *)

Section Invariant.

(** A property [I] of the bundler and a property [G] of nodes that each
    assignment of the engine and each node it builds keep. *)
Variable d : list string.
Variable I : Bundler -> Prop.
Variable G : BundleResult -> Prop.

Hypothesis I_seed : forall p c s, I s -> I (seed_registry p c s).
Hypothesis I_first : forall p c s0 s,
  I s0 -> fileRegistry s0 !! p = None -> I s ->
  I (mark_used p (set_registry p (Some c) s)).
Hypothesis I_bump : forall p s, I s -> I (bump_used p s).
Hypothesis I_imports : forall p l s, I s -> Forall G l -> I (set_imports p l s).
Hypothesis G_not_found : forall p, G (not_found_result p).
Hypothesis G_cached : forall p s, I s -> G (cached_node p s).
Hypothesis G_deduped : forall imp s node,
  I s -> G node -> filePath node = fullPath imp ->
  should_dedupe d imp s = true -> G (set_deduped node).
Hypothesis G_node : forall p c l,
  Forall G l ->
  G {| filePath := p; resultFound := true; bundledContent := Some c;
       deduped := false; imports := Some l |}.

Lemma G_finish imp s node :
  I s -> G node -> filePath node = fullPath imp ->
  G (if should_dedupe d imp s then set_deduped node else node).
Proof using G_deduped.
  intros Hs Hn Hp. destruct (should_dedupe d imp s) eqn:E; [|done].
  by apply (G_deduped imp s).
Qed.

Lemma loop_keeps rec :
  (forall f c s tr o s' tr',
      I s -> run (rec f c d) s tr = (o, s', tr') ->
      I s' /\ forall r, o = Ok r ->
        G r /\ filePath r = path_resolve f /\ is_Some (bundledContent r)) ->
  forall imps acc s tr o s' tr',
    Forall good_import imps -> I s -> Forall G acc.2 ->
    run (for_each (import_step rec d) acc imps) s tr = (o, s', tr') ->
    I s' /\ forall acc', o = Ok acc' -> Forall G acc'.2.
Proof using I_first I_bump G_not_found G_cached G_deduped.
  intros Hrec.
  induction imps as [|imp imps IH]; intros acc s tr o s' tr' Hgood Hs Hacc Hrun.
  { simpl in Hrun. injection Hrun as <- <- <-. split; [done|]. by intros acc' [= <-]. }
  apply Forall_cons in Hgood as [Himp Hgood].
  rewrite run_for_each_cons in Hrun.
  destruct (found imp) eqn:Hf.
  2: { rewrite run_import_step_not_found in Hrun by done.
       apply IH in Hrun; try done.
       unfold finish_step. cbn [snd]. apply Forall_app. split; [done|].
       apply Forall_singleton. by apply G_finish. }
  destruct (Himp Hf) as [_ Habs].
  destruct (fileRegistry s !! fullPath imp) as [c|] eqn:Hreg.
  { rewrite (run_import_step_cached _ _ _ _ _ _ c) in Hrun by done.
    apply IH in Hrun; try done; [by apply I_bump|].
    unfold finish_step. cbn [snd]. apply Forall_app. split; [done|].
    apply Forall_singleton. apply G_finish; [by apply I_bump|by apply G_cached|done]. }
  rewrite run_import_step_first in Hrun by done.
  destruct (fs_readFile (fullPath imp)) as [c|] eqn:Hread.
  2: { by injection Hrun as <- <- <-. }
  destruct (run (rec (fullPath imp) c d) s (tr ++ [EvRead (fullPath imp)]))
    as [[o1 s1] tr1] eqn:Hnested.
  apply Hrec in Hnested as [Hs1 Hres]; [|done].
  destruct o1 as [b| | |].
  2: { by injection Hrun as <- <- <-. }
  2: { by injection Hrun as <- <- <-. }
  2: { by injection Hrun as <- <- <-. }
  destruct (Hres b eq_refl) as (Hb & Hbp & [content Hcontent]).
  rewrite Habs in Hbp. rewrite Hcontent in Hrun.
  assert (Hs2 : I (mark_used (fullPath imp)
                     (set_registry (fullPath imp) (Some content) s1))).
  { by apply (I_first _ _ s). }
  apply IH in Hrun; try done.
  unfold finish_step. cbn [snd]. apply Forall_app. split; [done|].
  apply Forall_singleton. by apply G_finish.
Qed.

Lemma body_keeps n f c s tr o s' tr' :
  path_laws ->
  (forall f c s tr o s' tr',
      I s -> run (bundle n f c d) s tr = (o, s', tr') ->
      I s' /\ forall r, o = Ok r -> G r) ->
  I (seed_registry (path_resolve f) (strip_commented c) s) ->
  run (bundle (S n) f c d) s tr = (o, s', tr') ->
  I s' /\ forall r, o = Ok r -> G r.
Proof using I_first I_bump I_imports G_not_found G_cached G_deduped G_node.
  intros Hlaws IHn Hseed Hrun.
  cbn [bundle] in Hrun. rewrite run_bundle_body in Hrun.
  destruct (run (for_each _ _ _) _ _) as [[o1 s1] tr1] eqn:Hloop.
  apply (loop_keeps (bundle n)) in Hloop as [Hs1 Hacc]; try done.
  - destruct o1 as [acc| | |]; injection Hrun as <- <- <-; [|done|done|done].
    specialize (Hacc acc eq_refl). split; [by apply I_imports|].
    intros r [= <-]. by apply G_node.
  - intros f0 c0 s0 tr0 o0 s0' tr0' Hs0 Hrun0.
    destruct (IHn _ _ _ _ _ _ _ Hs0 Hrun0) as [H1 H2]. split; [done|].
    intros r ->. split; [by apply H2|].
    apply bundle_engine in Hrun0 as (_ & _ & _ & _ & Hres); [|done].
    destruct (Hres r eq_refl) as (Hp & _ & _ & [x Hx] & _).
    split; [done|]. rewrite Hx. by eexists.
  - apply Forall_map, Forall_true. intros m. by apply resolved_good.
Qed.

Lemma bundle_keeps n : path_laws -> forall f c s tr o s' tr',
  I s -> run (bundle n f c d) s tr = (o, s', tr') ->
  I s' /\ forall r, o = Ok r -> G r.
Proof using I_seed I_first I_bump I_imports G_not_found G_cached G_deduped G_node.
  intros Hlaws. induction n as [|n IHn]; intros f c s tr o s' tr' Hs Hrun.
  { simpl in Hrun. by injection Hrun as <- <- <-. }
  eapply body_keeps; eauto.
Qed.

End Invariant.

(** ** What holds under every schedule *)

Lemma resolved_found_exists dirname m :
  found (resolved dirname m) = true -> fs_access (fullPath (resolved dirname m)) = true.
Proof.
  unfold resolved.
  destruct (fs_access (path_resolve2 _ _)) eqn:E1; cbn; [done|].
  by destruct (fs_access (underscored _)) eqn:E2.
Qed.

Section Stretches.

(** A property [I] of the bundler that every assignment of the engine
    keeps. *)
Variable I : Bundler -> Prop.

Hypothesis I_seed : forall p c s, I s -> I (seed_registry p c s).
Hypothesis I_store : forall p v s, I s -> I (set_registry p v s).
Hypothesis I_mark : forall p s, fs_access p = true -> I s -> I (mark_used p s).
Hypothesis I_bump : forall p s, fs_access p = true -> I s -> I (bump_used p s).
Hypothesis I_imports : forall p l s, I s -> I (set_imports p l s).

Lemma known_weaken cur F : known I None F -> known I cur F.
Proof using Type. intros H. destruct cur as [s|]; cbn; auto. Qed.

Lemma keeps_weaken {A} R (P : A -> Prop) Q cur t :
  keeps I R P Q None t -> keeps I R P Q cur t.
Proof using Type.
  intros H. inversion H; subst; constructor; auto using known_weaken.
Qed.

Lemma keeps_post {A} R (P P' : A -> Prop) (Q Q' : A -> Bundler -> Prop) cur t :
  (forall a, P a -> P' a) -> (forall a s, Q a s -> Q' a s) ->
  keeps I R P Q cur t -> keeps I R P' Q' cur t.
Proof using Type.
  intros HP HQ. induction 1; constructor; auto.
  destruct cur; cbn in *; auto.
Qed.

Lemma keeps_bind {A B} R (P1 : A -> Prop) Q1 (P2 : B -> Prop) Q2 cur
    (t : Task A) (f : A -> Task B) :
  keeps I R P1 Q1 cur t ->
  (forall a, P1 a -> keeps I R P2 Q2 None (f a)) ->
  keeps I R P2 Q2 cur (bind t f).
Proof using Type.
  intros Ht Hf. induction Ht; cbn [bind]; try (constructor; auto).
  apply keeps_weaken. auto.
Qed.

Lemma keeps_try_catch {A} R (P : A -> Prop) Q cur (t h : Task A) :
  keeps I R P Q cur t -> keeps I R P Q None h -> keeps I R P Q cur (try_catch t h).
Proof using Type.
  intros Ht Hh. induction Ht; cbn [try_catch]; try (constructor; auto).
  by apply keeps_weaken.
Qed.

Lemma keeps_modify R f cur :
  (forall s, I s -> I (f s)) ->
  keeps I R (fun _ : unit => True) (fun _ _ => True) cur (modify f).
Proof using Type.
  intros Hf. unfold modify. constructor. intros s Hs.
  constructor; [by apply Hf|]. constructor; [done|]. by cbn.
Qed.

Lemma keeps_resolve_import R dirname m cur :
  keeps I R (fun imp => imp = resolved dirname m) (fun _ _ => True) cur
        (resolve_import dirname m).
Proof using Type.
  unfold resolve_import, resolved. cbn. constructor.
  destruct (fs_access (path_resolve2 _ _)); cbn.
  - constructor; [done|]. by cbn.
  - constructor. destruct (fs_access (underscored _)); cbn;
      (constructor; [done|]; by cbn).
Qed.

Lemma keeps_all_of_resolve R dirname ms :
  keeps I R (fun imps => imps = map (resolved dirname) ms) (fun _ _ => True) None
        (all_of (resolve_import dirname) ms).
Proof using Type.
  induction ms as [|m ms IH]; cbn [all_of map].
  - constructor; [done|]. by cbn.
  - eapply keeps_bind; [apply keeps_resolve_import|]. intros y ->.
    eapply keeps_bind; [apply IH|]. intros ys ->.
    constructor; [done|]. by cbn.
Qed.

Lemma keeps_for_each {A B} R (f : A -> B -> Task A) l : forall acc,
  (forall a x, x ∈ l -> keeps I R (fun _ => True) (fun _ _ => True) None (f a x)) ->
  keeps I R (fun _ => True) (fun _ _ => True) None (for_each f acc l).
Proof using Type.
  induction l as [|x l IH]; intros acc Hf; cbn [for_each].
  - constructor; [done|]. by cbn.
  - eapply keeps_bind; [apply Hf, list_elem_of_here|]. intros a _.
    apply IH. intros a' y Hy. apply Hf. by apply list_elem_of_further.
Qed.

Lemma keeps_import_step entry rec d acc imp :
  (found imp = true -> fs_access (fullPath imp) = true) ->
  (forall c, keeps I (read_guard entry) (fun _ => True) (fun _ _ => True) None
               (rec (fullPath imp) c d)) ->
  keeps I (read_guard entry) (fun _ => True) (fun _ _ => True) None
        (import_step rec d acc imp).
Proof using I_store I_mark I_bump.
  intros Hex Hrec. unfold import_step.
  eapply (keeps_bind _ (fun _ => True) (fun _ _ => True)).
  2: { intros b _. cbn. constructor. intros s Hs. constructor; [done|]. by cbn. }
  unfold import_node. cbn [mbind Task_bind get bind]. constructor. intros s Hs.
  cbn [bind]. destruct (found imp) eqn:Hf; cbn [negb].
  2: { constructor; [done|]. by cbn. }
  specialize (Hex eq_refl).
  destruct (fileRegistry s !! fullPath imp) eqn:Hreg.
  - cbn. constructor. intros s1 Hs1. constructor; [by apply I_bump|].
    constructor. intros s2 Hs2. constructor; [done|]. by cbn.
  - cbn. constructor; [intros _; by right|].
    destruct (fs_readFile (fullPath imp)); cbn; [|constructor].
    eapply keeps_bind; [apply Hrec|]. intros b _. cbn.
    constructor. intros s1 Hs1. constructor; [by apply I_store|].
    constructor. intros s2 Hs2. constructor; [by apply I_mark|].
    constructor; [done|]. by cbn.
Qed.

Lemma keeps_bundle entry n : forall f c d,
  keeps I (read_guard entry) (fun _ => True) children_stored None (bundle n f c d).
Proof using I_seed I_store I_mark I_bump I_imports.
  induction n as [|n IH]; intros f c d; cbn [bundle]; [constructor|].
  unfold bundle_body. cbn [mbind Task_bind modify bind]. constructor. intros s Hs.
  constructor; [by apply I_seed|]. cbn [bind].
  eapply keeps_bind; [apply keeps_weaken, keeps_all_of_resolve|]. intros imps ->.
  eapply keeps_bind.
  { apply keeps_for_each. intros a x Hx.
    apply list_elem_of_fmap in Hx as (m & -> & _).
    apply keeps_import_step; [apply resolved_found_exists|].
    intros c'. eapply keeps_post; [| |apply IH]; done. }
  intros acc _. cbn. constructor. intros s1 Hs1.
  constructor; [by apply I_imports|]. constructor; [done|].
  intros _ _. cbn. apply lookup_insert_eq.
Qed.

Lemma keeps_Bundle n file globs :
  keeps I (read_guard file) (fun _ => True) children_stored None (Bundle n file globs).
Proof using I_seed I_store I_mark I_bump I_imports.
  assert (Hh : keeps I (read_guard file) (fun _ => True) children_stored None
                 (Ret (not_found_result file))).
  { constructor; [done|]. by intros s _ ?. }
  assert (Hb : forall content dfiles,
             keeps I (read_guard file) (fun _ => True) children_stored None
               (try_catch (bundle n file content dfiles) (Ret (not_found_result file)))).
  { intros content dfiles. apply keeps_try_catch; [apply keeps_bundle | done]. }
  unfold Bundle. cbn. constructor.
  destruct (fs_access file); cbn; [|done].
  constructor; [intros s _; by left|].
  destruct globs as [|g globs]; cbn.
  - destruct (fs_readFile file); [apply Hb | done].
  - constructor.
    destruct (glob_expand (g :: globs)) as [l|[l|]|], (fs_readFile file); cbn;
      first [apply Hb | exact Hh | constructor].
Qed.

(** A stretch of a task that [keeps]. *)
Lemma keeps_settle {A} R (P : A -> Prop) Q cur (t : Task A) s :
  keeps I R P Q cur t -> I s -> (forall s0, cur = Some s0 -> s0 = s) ->
  I (settle t s).2 /\ waits I R P Q (settle t s).1 /\ arrives R Q (settle t s).2 (settle t s).1.
Proof using Type.
  intros Ht. revert s.
  induction Ht as [cur a Ha HQ| | | |cur k Hk IH|cur s1 k Hs1 Hk IH|cur p k Hk IH
                  |cur p k HR Hk IH|cur g k Hk IH];
    intros s Hs Hcur; cbn [settle fst snd waits arrives]; try done.
  - split; [done|]. split; [done|].
    destruct cur as [s0|]; cbn in HQ; [|by apply HQ].
    rewrite <- (Hcur s0 eq_refl) in *. by apply HQ.
  - apply IH; [done|done|]. by intros s0 [= <-].
  - apply IH; [done|]. by intros s0 [= <-].
  - split; [done|]. split; [done|].
    destruct cur as [s0|]; cbn in HR; [|by apply HR].
    rewrite <- (Hcur s0 eq_refl) in *. by apply HR.
Qed.

(** A call run to its end leaves the bundler in a state [I]. *)
Lemma keeps_run {A} R (P : A -> Prop) Q cur (t : Task A) s tr :
  keeps I R P Q cur t -> I s -> I (run t s tr).1.2.
Proof using Type.
  intros Ht. revert s tr.
  induction Ht; intros s0 tr0 Hs; cbn [run fst snd]; auto.
Qed.

Lemma waits_perform {A} R (P : A -> Prop) Q (t : Task A) e t' :
  waits I R P Q t -> perform t = Some (e, t') -> keeps I R P Q None t'.
Proof using Type.
  intros Hw Hp. destruct t; cbn in Hp; try done; by injection Hp as <- <-.
Qed.

Lemma resume_keeps files (P : pool) j :
  pool_keeps I files P ->
  pool_keeps I files (resume j P) /\
  (advances j P -> forall file t,
     files !! j = Some file -> tasks (resume j P) !! j = Some t ->
     arrives (read_guard file) children_stored (shared (resume j P)) t).
Proof using Type.
  intros [HI HF]. unfold advances, resume.
  destruct (crashed P); [done|].
  destruct (tasks P !! j) as [t|] eqn:Ht; [|done].
  destruct (perform t) as [[e t']|] eqn:Hp; [|done].
  destruct (Forall2_lookup_r _ _ _ _ _ HF Ht) as (file & Hfile & Hw).
  pose proof (waits_perform _ _ _ _ _ _ Hw Hp) as Hk.
  destruct (keeps_settle _ _ _ _ _ (shared P) Hk HI) as (H1 & H2 & H3); [done|].
  cbn [tasks shared trace]. split.
  - split; [done|]. cbn [tasks].
    rewrite <- (list_insert_id files j file Hfile). by apply Forall2_insert.
  - intros _ file' x Hfile' Hx.
    assert (Hj : j < length (tasks P)) by (by eapply lookup_lt_Some).
    rewrite list_lookup_insert_eq in Hx by done. injection Hx as <-.
    rewrite Hfile in Hfile'. by injection Hfile' as <-.
Qed.

Lemma run_pool_keeps files sched : forall (P : pool),
  pool_keeps I files P -> pool_keeps I files (run_pool sched P).
Proof using Type.
  induction sched as [|j sched IH]; intros P HP; [done|].
  cbn [run_pool foldl]. apply IH. by apply resume_keeps.
Qed.

Lemma BundleAll_keeps n files globs s sched :
  I s -> pool_keeps I files (BundleAll n files globs s sched).
Proof using I_seed I_store I_mark I_bump I_imports.
  intros Hs. unfold BundleAll. rewrite start_Bundle. cbn [fst snd].
  apply run_pool_keeps. split; [done|]. cbn [tasks].
  apply Forall2_fmap_r, Forall_Forall2_diag, Forall_true. intros file.
  pose proof (keeps_Bundle n file globs) as Hk. by inversion Hk.
Qed.

End Stretches.

Lemma BundleAll_arrives n files globs s sched j file t :
  advances j (BundleAll n files globs s sched) ->
  files !! j = Some file ->
  tasks (resume j (BundleAll n files globs s sched)) !! j = Some t ->
  arrives (read_guard file) children_stored
    (shared (resume j (BundleAll n files globs s sched))) t.
Proof.
  intros Hadv Hfile Ht.
  assert (HP : pool_keeps (fun _ => True) files (BundleAll n files globs s sched)).
  { by apply BundleAll_keeps. }
  by apply (resume_keeps (fun _ => True) files _ j HP).
Qed.

Lemma counted_exist_mark p s :
  fs_access p = true -> counted_exist s -> counted_exist (mark_used p s).
Proof.
  intros Hp Hs q. unfold mark_used.
  destruct (usedImports s !! p); [apply Hs|]. cbn. rewrite dom_insert.
  intros [->%elem_of_singleton|?]%elem_of_union; auto.
Qed.

Lemma counted_exist_bump p s :
  fs_access p = true -> counted_exist s -> counted_exist (bump_used p s).
Proof.
  intros Hp Hs q. unfold bump_used. cbn. rewrite dom_insert.
  intros [->%elem_of_singleton|?]%elem_of_union; auto.
Qed.

Lemma counted_exist_seed p c s : counted_exist s -> counted_exist (seed_registry p c s).
Proof. intros Hs q. rewrite used_seed. apply Hs. Qed.

(** ** Reads, records and missing targets *)

(** C2, as the code has it.  A read of an import target is started only
    when the registry has no entry for its path: under every schedule of a
    batch, at the moment a call starts to read a path other than its own
    entry (line 52 reads the entry whatever the registry holds), the
    registry has no entry for that path.  A call of [Bundle] that runs
    without other calls in between makes, after the operations on its
    entry, no two reads of the same path; it reads only paths that had no
    entry when it began; it leaves an entry for every import target whose
    read succeeded; and it leaves every entry it found as it was.  The
    same holds of every call of the engine, the nested ones included. *)
Theorem import_reads_once (n : nat) :
  (forall files globs s sched j p k,
      advances j (BundleAll n files globs s sched) ->
      tasks (resume j (BundleAll n files globs s sched)) !! j = Some (ReadFile p k) ->
      files !! j = Some p \/
      fileRegistry (shared (resume j (BundleAll n files globs s sched))) !! p = None) /\
  (forall file globs s tr o s' tr',
      path_laws ->
      run (Bundle n file globs) s tr = (o, s', tr') ->
      (size (dom fs) < n -> o <> OutOfFuel) /\
      exists ev, tr' = tr ++ entry_events file globs ++ ev /\ NoDup (reads ev) /\
        (forall p, p ∈ reads ev -> fileRegistry s !! p = None /\ p <> path_resolve file) /\
        (o <> OutOfFuel -> forall p, p ∈ reads ev -> is_Some (fs_readFile p) ->
           is_Some (fileRegistry s' !! p)) /\
        (forall q, is_Some (fileRegistry s !! q) ->
                   fileRegistry s' !! q = fileRegistry s !! q)) /\
  (forall f c d s tr o s' tr',
      path_laws ->
      run (bundle n f c d) s tr = (o, s', tr') ->
      (size (dom fs) < n -> o <> OutOfFuel) /\
      exists ev, tr' = tr ++ ev /\ NoDup (reads ev) /\
        (forall p, p ∈ reads ev -> fileRegistry s !! p = None /\ p <> path_resolve f) /\
        (is_ok o -> forall p, p ∈ reads ev -> is_Some (fileRegistry s' !! p)) /\
        (o <> OutOfFuel -> forall p, p ∈ reads ev -> is_Some (fs_readFile p) ->
           is_Some (fileRegistry s' !! p)) /\
        (forall q, is_Some (fileRegistry s !! q) ->
                   fileRegistry s' !! q = fileRegistry s !! q)).
Proof.
  split; [|split].
  - intros files globs s sched j p k Hadv Ht.
    assert (HP : pool_keeps (fun _ => True) files
                   (resume j (BundleAll n files globs s sched))).
    { apply resume_keeps. by apply BundleAll_keeps. }
    destruct HP as [_ HF].
    destruct (Forall2_lookup_r _ _ _ _ _ HF Ht) as (file & Hfile & _).
    pose proof (BundleAll_arrives n files globs s sched j file _ Hadv Hfile Ht) as Ha.
    cbn in Ha. destruct Ha as [->|Ha]; [by left | by right].
  - intros file globs s tr o s' tr' Hlaws Hrun. rewrite run_Bundle in Hrun.
    assert (Hnil : forall o0 : outcome BundleResult,
               o0 <> OutOfFuel ->
               (o0, s, tr ++ entry_events file globs) = (o, s', tr') ->
               (size (dom fs) < n -> o <> OutOfFuel) /\
               exists ev, tr' = tr ++ entry_events file globs ++ ev /\ NoDup (reads ev) /\
                 (forall p, p ∈ reads ev ->
                            fileRegistry s !! p = None /\ p <> path_resolve file) /\
                 (o <> OutOfFuel -> forall p, p ∈ reads ev -> is_Some (fs_readFile p) ->
                    is_Some (fileRegistry s' !! p)) /\
                 (forall q, is_Some (fileRegistry s !! q) ->
                            fileRegistry s' !! q = fileRegistry s !! q)).
    { intros o0 Ho [= <- <- <-]. split; [done|]. exists []. rewrite app_nil_r.
      split; [done|]. split; [apply NoDup_nil_2|].
      split; [intros p Hp; by apply elem_of_nil in Hp|].
      split; [intros _ p Hp; by apply elem_of_nil in Hp | done]. }
    destruct (fs_access file); [|by apply (Hnil (Ok (not_found_result file)))].
    destruct (dedupe_files globs) as [d| | |] eqn:Hd;
      [|by apply (Hnil (Ok (not_found_result file)))
       |by destruct (dedupe_files_fuel globs)
       |by apply (Hnil Crashed)].
    destruct (fs_readFile file) as [c|];
      [|by apply (Hnil (Ok (not_found_result file)))].
    destruct (run (bundle n file c d) s _) as [[o1 s1] tr1] eqn:Hb.
    apply bundle_reads in Hb as (Hfuel & ev & -> & Hnd & Hav & _ & Hgot & Hkeep); [|done].
    assert (Ho : o <> OutOfFuel -> o1 <> OutOfFuel).
    { intros Ho ->. by injection Hrun as <- _ _. }
    assert (Hs : s' = s1 /\ tr' = (tr ++ entry_events file globs) ++ ev).
    { by destruct o1; injection Hrun as _ <- <-. }
    destruct Hs as [-> ->].
    split.
    { intros Hn ->. destruct o1; try done. by apply Hfuel. }
    exists ev. split; [by rewrite <- app_assoc|]. split; [done|].
    split; [done|]. split; [|done]. intros Ho1. by apply Hgot, Ho.
  - intros f c d s tr o s' tr' Hlaws Hrun. by eapply bundle_reads.
Qed.


(** C8, as the code has it.  Every path with a usage counter exists: this
    holds of a new bundler, with or without a registry, and is kept by
    every call of [Bundle] and under every schedule of a batch.  In such a
    state, one turn of the loop for a directive whose target is not found
    (neither the candidate nor its underscored partial exists) appends a
    node with the candidate path, found = false and nothing else, and
    leaves the bundler as it was: the target has no usage counter before
    and none after.  The text substituted for the directive is the marker
    that embeds the text of the directive when the registry has no entry
    for the candidate path, which is so whenever every path of the registry
    exists ([wf], as for a bundler that started without a registry), and
    the registry entry itself when there is one (lines 184-190 test the
    registry, not the flag found). *)
Theorem not_found_import (dirname : string) (m : ImportMatch)
    rec (d : list string) (acc : string * list BundleResult)
    (s : Bundler) (tr : list event) :
  let candidate := path_resolve2 dirname (import_name (matchPath m)) in
  let marker := "/*** IMPORTED FILE NOT FOUND ***/" +:+ EOL +:+ matchText m
                +:+ "/*** --- ***/" in
  let node := {| filePath := candidate; resultFound := false; bundledContent := None;
                 deduped := false; imports := None |} in
  fs_access candidate = false ->
  fs_access (underscored candidate) = false ->
  (forall registry, counted_exist (new_Bundler registry)) /\
  (forall n file globs s0 tr0,
      counted_exist s0 -> counted_exist (run (Bundle n file globs) s0 tr0).1.2) /\
  (forall n files globs s0 sched,
      counted_exist s0 -> counted_exist (shared (BundleAll n files globs s0 sched))) /\
  (counted_exist s ->
   found (resolved dirname m) = false /\
   importString (resolved dirname m) = matchText m /\
   usedImports s !! candidate = None /\
   run (import_step rec d acc (resolved dirname m)) s tr =
     (Ok (js_replace acc.1 (matchText m)
            (match fileRegistry s !! candidate with
             | Some c => c
             | None => marker
             end),
          acc.2 ++ [node]), s, tr) /\
   (wf s -> fileRegistry s !! candidate = None)).
Proof.
  intros candidate marker node H1 H2.
  assert (Hseed := counted_exist_seed).
  assert (Hstore : forall p v s0, counted_exist s0 -> counted_exist (set_registry p v s0)).
  { intros p v s0 Hs0 q. apply Hs0. }
  assert (Hmark := counted_exist_mark).
  assert (Hbump := counted_exist_bump).
  assert (Himports : forall p (l : list BundleResult) s0,
             counted_exist s0 -> counted_exist (set_imports p l s0)).
  { intros p l s0 Hs0 q. apply Hs0. }
  split; [|split; [|split]].
  - intros registry q Hq. cbn in Hq. by apply not_elem_of_empty in Hq.
  - intros n file globs s0 tr0 Hs0.
    eapply (keeps_run counted_exist); [|exact Hs0].
    by apply (keeps_Bundle counted_exist Hseed Hstore Hmark Hbump Himports).
  - intros n files globs s0 sched Hs0.
    by apply (BundleAll_keeps counted_exist Hseed Hstore Hmark Hbump Himports
                n files globs s0 sched).
  - intros Hs.
    assert (Hres : resolved dirname m =
                   {| importString := matchText m; path := import_name (matchPath m);
                      fullPath := candidate; found := false |}).
    { unfold resolved. fold candidate. by rewrite H1, H2. }
    rewrite Hres. split; [done|]. split; [done|].
    assert (Hused : usedImports s !! candidate = None).
    { apply not_elem_of_dom. intros Hin. apply Hs in Hin. congruence. }
    split; [done|]. split.
    + rewrite run_import_step_not_found by done.
      unfold finish_step, should_dedupe. cbn [fullPath importString fst snd].
      rewrite Hused. cbn [used_twice]. rewrite andb_false_r.
      by destruct (fileRegistry s !! candidate).
    + intros [Hwf _]. apply not_elem_of_dom. intros Hin. apply Hwf in Hin. congruence.
Qed.

(** ** Which nodes are marked deduped *)

Lemma nodes_intro (P : BundleResult -> Prop) r :
  P r ->
  (forall l, imports r = Some l -> Forall (fun z => forall x, x ∈ all_nodes z -> P x) l) ->
  forall x, x ∈ all_nodes r -> P x.
Proof.
  intros Hr Hl x Hx. destruct r as [fp fo bc de im]; cbn [all_nodes imports] in *.
  apply elem_of_cons in Hx as [->|Hx]; [done|].
  destruct im as [l|]; [|by apply elem_of_nil in Hx].
  apply list_elem_of_In, in_flat_map in Hx as (z & Hz & Hx).
  apply list_elem_of_In in Hz, Hx.
  specialize (Hl l eq_refl). rewrite Forall_forall in Hl. by apply (Hl z).
Qed.

Lemma nodes_children (P : BundleResult -> Prop) r l :
  (forall x, x ∈ all_nodes r -> P x) -> imports r = Some l ->
  Forall (fun z => forall x, x ∈ all_nodes z -> P x) l.
Proof.
  intros H Hl. apply Forall_forall. intros z Hz x Hx. apply H.
  destruct r as [fp fo bc de im]; simpl in *. subst im.
  apply elem_of_cons. right.
  apply list_elem_of_In, in_flat_map. exists z.
  split; by apply list_elem_of_In.
Qed.

Lemma should_dedupe_listed d imp s :
  should_dedupe d imp s = true -> fullPath imp ∈ d.
Proof.
  unfold should_dedupe. rewrite !andb_true_iff.
  intros [[_ H] _]. by apply bool_decide_eq_true in H.
Qed.

Lemma should_dedupe_counter d imp s :
  should_dedupe d imp s = true ->
  exists k, usedImports s !! fullPath imp = Some (Num k).
Proof.
  unfold should_dedupe. rewrite !andb_true_iff.
  intros [_ H]. unfold used_twice in H.
  destruct (usedImports s !! fullPath imp) as [[k|]|]; try done. by exists k.
Qed.

Lemma stored_seed G p c s : stored G s -> stored G (seed_registry p c s).
Proof. unfold seed_registry. by destruct (fileRegistry s !! p). Qed.

Lemma stored_first G p c s : stored G s -> stored G (mark_used p (set_registry p (Some c) s)).
Proof. unfold mark_used. by destruct (usedImports _ !! p). Qed.

Lemma stored_set_imports (G : BundleResult -> Prop) p l s :
  stored G s -> Forall G l -> stored G (set_imports p l s).
Proof.
  intros Hs Hl q l'. unfold set_imports; simpl.
  destruct (decide (p = q)) as [->|Hne].
  - rewrite lookup_insert_eq. by intros [= <-].
  - rewrite lookup_insert_ne by done. apply Hs.
Qed.

(** X3. Starting from a bundler whose stored child lists mark only paths
    of the list of files to dedupe (a new bundler has none), every node
    marked deduped in the tree a call of the engine returns is of a path of
    that list, and the stored child lists stay so; with an empty list no
    node is marked. *)
Theorem deduped_only_listed (n : nat) (f c : string) (d : list string)
    (s : Bundler) (tr : list event) r s' tr' :
  path_laws -> stored (marked_in d) s ->
  run (bundle n f c d) s tr = (Ok r, s', tr') ->
  (forall x, x ∈ all_nodes r -> deduped x = true -> filePath x ∈ d) /\
  stored (marked_in d) s' /\
  (d = [] -> forall x, x ∈ all_nodes r -> deduped x = false).
Proof.
  intros Hlaws Hs Hrun.
  set (P := fun x : BundleResult => deduped x = true -> filePath x ∈ d).
  apply (bundle_keeps d (stored (marked_in d)) (marked_in d)) in Hrun as [Hs' Hr];
    try done.
  - specialize (Hr r eq_refl). split; [done|]. split; [done|].
    intros -> x Hx. destruct (deduped x) eqn:E; [|done].
    specialize (Hr x Hx E). by apply elem_of_nil in Hr.
  - intros. by apply stored_seed.
  - intros. by apply stored_first.
  - intros. by apply stored_set_imports.
  - intros p. by refine (nodes_intro P _ _ _).
  - intros p s0 Hs0. refine (nodes_intro P _ _ _); [done|].
    cbn [cached_node imports]. intros l Hl. by apply (Hs0 p).
  - intros imp s0 node Hs0 Hn Hp Hd.
    refine (nodes_intro P _ _ _).
    + intros _. cbn. rewrite Hp. by eapply should_dedupe_listed.
    + intros l Hl. refine (nodes_children P node _ Hn _).
      by destruct node.
  - intros p c0 l Hl. by refine (nodes_intro P _ _ _); [|intros l' [= <-]].
Qed.

(** X11. A path that has a registry entry but no counter (an entry file,
    or the file being bundled when it is imported from below) gets the
    counter NaN at its first import, since line 166 increments an undefined
    value; through a call of the engine that runs without other calls in
    between, a counter that is absent or NaN never becomes a number, so
    such a path is never marked deduped by that call, even when it is in
    the list of files to dedupe and imported many times. *)
Theorem uncounted_never_deduped (n : nat) (f c : string) (d : list string) (p : string)
    (s : Bundler) (tr : list event) o s' tr' :
  path_laws ->
  is_Some (fileRegistry s !! p) \/ p = path_resolve f ->
  uncounted p s -> stored (unmarked p) s ->
  run (bundle n f c d) s tr = (o, s', tr') ->
  uncounted p s' /\
  (forall r, o = Ok r -> forall x, x ∈ all_nodes r -> filePath x = p -> deduped x = false) /\
  (forall rec acc imp s0 tr0 acc1 s1 tr1,
      found imp = true -> fullPath imp = p ->
      is_Some (fileRegistry s0 !! p) -> uncounted p s0 ->
      run (import_step rec d acc imp) s0 tr0 = (Ok acc1, s1, tr1) ->
      usedImports s1 !! p = Some NaN).
Proof.
  intros Hlaws Hreg Hun Hst Hrun.
  set (P := fun x : BundleResult => filePath x = p -> deduped x = false).
  set (I := fun s : Bundler =>
              is_Some (fileRegistry s !! p) /\ uncounted p s /\ stored (unmarked p) s).
  assert (I_seed : forall q c0 s0, I s0 -> I (seed_registry q c0 s0)).
  { intros q c0 s0 (H1 & H2 & H3). split; [|split].
    - rewrite lookup_seed. destruct (decide (p = q)); [by eexists|done].
    - unfold uncounted. by rewrite used_seed.
    - by apply stored_seed. }
  assert (I_first : forall q c0 s00 s0,
             I s00 -> fileRegistry s00 !! q = None -> I s0 ->
             I (mark_used q (set_registry q (Some c0) s0))).
  { intros q c0 s00 s0 (H0 & _ & _) Hq (H1 & H2 & H3).
    assert (Hne : q <> p) by (intros ->; rewrite Hq in H0; by destruct H0).
    split; [|split].
    - rewrite registry_mark_used. unfold set_registry; simpl.
      by rewrite lookup_insert_ne.
    - unfold uncounted, mark_used.
      destruct (usedImports _ !! q) eqn:E; simpl; [done|].
      by rewrite !lookup_insert_ne.
    - by apply stored_first. }
  assert (I_bump : forall q s0, I s0 -> I (bump_used q s0)).
  { intros q s0 (H1 & H2 & H3). split; [done|]. split; [|done].
    unfold uncounted, bump_used; simpl.
    destruct (decide (q = p)) as [->|Hne].
    - rewrite lookup_insert_eq. right. by destruct H2 as [->| ->].
    - by rewrite !lookup_insert_ne. }
  assert (I_imports : forall q l s0, I s0 -> Forall (unmarked p) l -> I (set_imports q l s0)).
  { intros q l s0 (H1 & H2 & H3) Hl. split; [done|]. split; [done|].
    by apply stored_set_imports. }
  assert (G_not_found : forall q, unmarked p (not_found_result q)).
  { intros q. by refine (nodes_intro P _ _ _). }
  assert (G_cached : forall q s0, I s0 -> unmarked p (cached_node q s0)).
  { intros q s0 (H1 & H2 & H3). refine (nodes_intro P _ _ _); [done|].
    cbn [cached_node imports]. intros l Hl. by apply (H3 q). }
  assert (G_deduped : forall imp s0 node,
             I s0 -> unmarked p node -> filePath node = fullPath imp ->
             should_dedupe d imp s0 = true -> unmarked p (set_deduped node)).
  { intros imp s0 node (H1 & H2 & H3) Hn Hp Hd.
    refine (nodes_intro P _ _ _).
    - unfold P. cbn [filePath set_deduped]. rewrite Hp. intros Hq. exfalso.
      apply should_dedupe_counter in Hd as [k Hk]. rewrite Hq in Hk.
      destruct H2 as [H2|H2]; congruence.
    - intros l Hl. refine (nodes_children P node _ Hn _). by destruct node. }
  assert (G_node : forall q c0 l,
             Forall (unmarked p) l ->
             unmarked p {| filePath := q; resultFound := true; bundledContent := Some c0;
                           deduped := false; imports := Some l |}).
  { intros q c0 l Hl. by refine (nodes_intro P _ _ _); [|intros l' [= <-]]. }
  assert (Hmain : uncounted p s' /\ forall r, o = Ok r -> unmarked p r).
  { destruct n as [|n]; [simpl in Hrun; by injection Hrun as <- <- <-|].
    apply (body_keeps d I (unmarked p) I_first I_bump I_imports G_not_found G_cached
             G_deduped G_node) in Hrun as [(_ & H & _) Hr]; try done.
    - apply (bundle_keeps d I (unmarked p) I_seed I_first I_bump I_imports G_not_found
               G_cached G_deduped G_node n Hlaws).
    - split; [|split].
      + rewrite lookup_seed. destruct (decide (p = path_resolve f)); [by eexists|].
        by destruct Hreg.
      + unfold uncounted. by rewrite used_seed.
      + by apply stored_seed. }
  destruct Hmain as [H1 H2]. split; [done|]. split; [exact H2|].
  intros rec acc imp s0 tr0 acc1 s1 tr1 Hf Hp [c0 Hc0] Hu Hstep.
  rewrite <- Hp in Hc0.
  rewrite (run_import_step_cached _ _ _ _ _ _ c0) in Hstep by done.
  injection Hstep as _ <- _. unfold bump_used; simpl. rewrite Hp, lookup_insert_eq.
  by destruct Hu as [->| ->].
Qed.

(** ** The first import of a file *)



(** ** The children of a node *)

Lemma loop_children rec d :
  (forall f c s tr r s' tr',
      run (rec f c d) s tr = (Ok r, s', tr') ->
      filePath r = path_resolve f /\ resultFound r = true) ->
  forall imps acc s tr acc' s' tr',
    Forall good_import imps ->
    run (for_each (import_step rec d) acc imps) s tr = (Ok acc', s', tr') ->
    exists nodes, acc'.2 = acc.2 ++ nodes /\
      map filePath nodes = map fullPath imps /\
      map resultFound nodes = map found imps.
Proof.
  intros Hrec.
  assert (Hfin : forall (b : bool) node,
             filePath (if b then set_deduped node else node) = filePath node /\
             resultFound (if b then set_deduped node else node) = resultFound node).
  { intros [] node; done. }
  assert (Hcons : forall imp imps (acc acc1 acc' : string * list BundleResult) node,
             acc1.2 = acc.2 ++ [node] ->
             filePath node = fullPath imp -> resultFound node = found imp ->
             (exists nodes, acc'.2 = acc1.2 ++ nodes /\
                map filePath nodes = map fullPath imps /\
                map resultFound nodes = map found imps) ->
             exists nodes, acc'.2 = acc.2 ++ nodes /\
               map filePath nodes = map fullPath (imp :: imps) /\
               map resultFound nodes = map found (imp :: imps)).
  { intros imp imps acc acc1 acc' node H1 H2 H3 (nodes & H4 & H5 & H6).
    exists (node :: nodes). rewrite H4, H1, <- app_assoc. cbn [map app].
    by rewrite H2, H3, H5, H6. }
  induction imps as [|imp imps IH]; intros acc s tr acc' s' tr' Hgood Hrun.
  { simpl in Hrun. injection Hrun as <- <- <-. exists []. by rewrite app_nil_r. }
  apply Forall_cons in Hgood as [Himp Hgood].
  rewrite run_for_each_cons in Hrun.
  destruct (found imp) eqn:Hf.
  2: { rewrite run_import_step_not_found in Hrun by done.
       apply IH in Hrun; [|done].
       refine (Hcons imp imps acc _ acc' _ _ _ _ Hrun); [reflexivity| |].
       - by rewrite (proj1 (Hfin _ _)).
       - by rewrite (proj2 (Hfin _ _)), Hf. }
  destruct (Himp Hf) as [_ Habs].
  destruct (fileRegistry s !! fullPath imp) as [c|] eqn:Hreg.
  { rewrite (run_import_step_cached _ _ _ _ _ _ c) in Hrun by done.
    apply IH in Hrun; [|done].
    refine (Hcons imp imps acc _ acc' _ _ _ _ Hrun); [reflexivity| |].
    - by rewrite (proj1 (Hfin _ _)).
    - by rewrite (proj2 (Hfin _ _)), Hf. }
  rewrite run_import_step_first in Hrun by done.
  destruct (fs_readFile (fullPath imp)) as [c|] eqn:Hread; [|done].
  destruct (run (rec (fullPath imp) c d) s (tr ++ [EvRead (fullPath imp)]))
    as [[[b| | |] s1] tr1] eqn:Hnested; try done.
  apply Hrec in Hnested as [Hbp Hbf]. rewrite Habs in Hbp.
  apply IH in Hrun; [|done].
  refine (Hcons imp imps acc _ acc' _ _ _ _ Hrun); [reflexivity| |].
  - by rewrite (proj1 (Hfin _ _)).
  - by rewrite (proj2 (Hfin _ _)), Hf.
Qed.

(** X4. The node a call of the engine returns has one child per directive
    of the file (after the removal of commented-out directives), in the
    order of the directives, a directive written twice giving two children;
    the path of each child is the path its directive resolved to, and its
    flag found tells whether that target exists. *)
Theorem children_follow_directives (n : nat) (f c : string) (d : list string)
    (s : Bundler) (tr : list event) r s' tr' :
  path_laws ->
  run (bundle n f c d) s tr = (Ok r, s', tr') ->
  let imps := map (resolved (path_dirname (path_resolve f)))
                  (getAllMatches (strip_commented c)) in
  exists l, imports r = Some l /\
    map filePath l = map fullPath imps /\
    map resultFound l = map found imps.
Proof.
  intros Hlaws Hrun imps. destruct n as [|n]; [done|].
  cbn [bundle] in Hrun. rewrite run_bundle_body in Hrun. fold imps in Hrun.
  destruct (run (for_each _ _ _) _ _) as [[[acc| | |] s1] tr1] eqn:Hloop; try done.
  injection Hrun as <- <- <-.
  apply (loop_children (bundle n)) in Hloop as (nodes & H1 & H2 & H3).
  - exists acc.2. split; [done|]. rewrite H1. done.
  - intros f0 c0 s0 tr0 r0 s0' tr0' Hrun0.
    apply bundle_engine in Hrun0 as (_ & _ & _ & _ & Hres); [|done].
    destruct (Hres r0 eq_refl) as (? & ? & _). done.
  - apply Forall_map, Forall_true. intros m. by apply resolved_good.
Qed.

(** ** [Bundle] as a whole *)

(** X1. A call of [Bundle] never rejects.  With fuel beyond the number of
    files it always returns, files that import each other included (the
    seed of lines 80-82 sends the second visit of a file to the branch of
    line 162), unless the expansion of the patterns reports an error and no
    list of files: then line 237 throws outside every handler, and a call
    on an entry that can be read ends there without returning.  What a call
    returns is the node of the entry as given with found = false and
    nothing else, or a node with the resolved path of the entry,
    found = true, a content and a list of children. *)
Theorem Bundle_always_returns (n : nat) (file : string) (globs : list string)
    (s : Bundler) (tr : list event) :
  path_laws -> size (dom fs) < n ->
  (~ Bundle_crashes file globs ->
   exists r s' tr',
     run (Bundle n file globs) s tr = (Ok r, s', tr') /\
     (r = {| filePath := file; resultFound := false; bundledContent := None;
             deduped := false; imports := None |} \/
      (filePath r = path_resolve file /\ resultFound r = true /\
       is_Some (bundledContent r) /\ is_Some (imports r)))) /\
  (is_Some (fs_readFile file) -> glob_crashes globs ->
   run (Bundle n file globs) s tr = (Crashed, s, tr ++ entry_events file globs)) /\
  (run (Bundle n file globs) s tr).1.1 <> Err.
Proof.
  intros Hlaws Hn. split; [|split].
  - intros Hnc. rewrite run_Bundle.
    assert (Hnf : forall (s : Bundler) (tr : list event),
               exists r s' tr',
                 (Ok (not_found_result file), s, tr) = (Ok r, s', tr') /\
                 (r = {| filePath := file; resultFound := false; bundledContent := None;
                         deduped := false; imports := None |} \/
                  (filePath r = path_resolve file /\ resultFound r = true /\
                   is_Some (bundledContent r) /\ is_Some (imports r)))).
    { intros s2 tr2. eexists _, _, _. split; [reflexivity|]. by left. }
    destruct (fs_access file) eqn:Hacc; [|apply Hnf].
    destruct (dedupe_files globs) as [d| | |] eqn:Hd.
    + destruct (fs_readFile file) as [c|]; [|apply Hnf].
      destruct (run (bundle n file c d) s _) as [[o s3] tr3] eqn:Hrun.
      apply bundle_engine in Hrun as (Hpost & _ & Hfuel & _ & Hres); [|done].
      destruct Hpost as (_ & _ & _ & _ & _ & _ & _ & _ & Hnot).
      destruct o as [r| | |].
      * exists r, s3, tr3. split; [done|]. right.
        destruct (Hres r eq_refl) as (H1 & H2 & _ & [x Hx] & (l & Hl & _)).
        rewrite Hx, Hl. eauto.
      * apply Hnf.
      * exfalso. by apply Hfuel; [apply fuel_enough|].
      * done.
    + apply Hnf.
    + by destruct (dedupe_files_fuel globs).
    + destruct Hnc. split; [done|]. by apply dedupe_files_crashed.
  - intros Hread Hc. apply run_Bundle_crashes.
    split; [by apply readable_accessible | done].
  - rewrite run_Bundle. destruct (fs_access file); [|done].
    destruct (dedupe_files globs); try done.
    destruct (fs_readFile file); [|done].
    by destruct (run _ _ _) as [[[r| | |] ?] ?].
Qed.

(** ** The states a bundler goes through *)

Lemma run_Bundle_wf n file globs s tr :
  path_laws -> resolve_sound -> wf s -> wf (run (Bundle n file globs) s tr).1.2.
Proof.
  intros Hlaws Hsound Hwf. rewrite run_Bundle.
  destruct (fs_access file) eqn:Hacc; [|done].
  destruct (dedupe_files globs) as [d| | |]; try done.
  destruct (fs_readFile file) as [c|]; [|done].
  destruct (run (bundle n file c d) s _) as [[o s3] tr3] eqn:Hrun.
  apply wf_bundle in Hrun; [|done|done|by apply Hsound]. by destruct o.
Qed.

(** X10. Whatever calls of [Bundle] are made one after the other on a new
    bundler, with whatever entries and glob patterns, the bundler stays in
    the states [wf] describes: every path with a registry entry exists on
    the disk, and every path with a counter has a registry entry. *)
Theorem bundler_stays_wf (n : nat) (calls : list (string * list string)) :
  path_laws -> resolve_sound ->
  wf (state_after (map (fun call => Bundle n call.1 call.2) calls) fresh).
Proof.
  intros Hlaws Hsound. unfold state_after.
  assert (H : forall s tr, wf s ->
            wf (run_seq (map (fun call => Bundle n call.1 call.2) calls) s tr).1.2).
  { induction calls as [|call calls IH]; intros s tr Hs; [done|].
    cbn [map run_seq fst snd]. apply IH. by apply run_Bundle_wf. }
  apply H, wf_fresh.
Qed.

(** ** Batches of no entry and of one entry *)

Lemma run_settle {A} (t : Task A) s tr :
  run (settle t s).1 (settle t s).2 tr = run t s tr.
Proof. revert s. induction t; intros s0; cbn [settle run]; auto. Qed.

Lemma resume_single i t s tr :
  exists t',
    tasks (resume i {| tasks := [t]; shared := s; trace := tr |}) = [t'] /\
    run t' (shared (resume i {| tasks := [t]; shared := s; trace := tr |}))
           (trace (resume i {| tasks := [t]; shared := s; trace := tr |}))
    = run t s tr.
Proof.
  unfold resume.
  destruct (crashed _); [by exists t|]. cbn [tasks shared trace].
  destruct i as [|i]; [|by exists t].
  cbn [lookup list_lookup].
  destruct t; cbn [perform]; try (by eexists);
    (eexists; split; [reflexivity|]; cbn [tasks shared trace]; by rewrite run_settle).
Qed.

Lemma run_pool_single sched : forall t s tr,
  exists t',
    tasks (run_pool sched {| tasks := [t]; shared := s; trace := tr |}) = [t'] /\
    run t' (shared (run_pool sched {| tasks := [t]; shared := s; trace := tr |}))
           (trace (run_pool sched {| tasks := [t]; shared := s; trace := tr |}))
    = run t s tr.
Proof.
  induction sched as [|i sched IH]; intros t s tr; [by exists t|].
  cbn [run_pool foldl]. fold (run_pool sched (resume i {| tasks := [t]; shared := s; trace := tr |})).
  destruct (resume_single i t s tr) as (t1 & H1 & H2).
  rewrite (pool_eta (resume i _)), H1.
  destruct (IH t1 (shared (resume i {| tasks := [t]; shared := s; trace := tr |}))
              (trace (resume i {| tasks := [t]; shared := s; trace := tr |})))
    as (t' & H3 & H4).
  exists t'. split; [done|]. by rewrite H4.
Qed.

Lemma run_pool_empty sched s tr :
  run_pool sched {| tasks := []; shared := s; trace := tr |}
  = {| tasks := []; shared := s; trace := tr |}.
Proof. induction sched as [|i sched IH]; [done|]. cbn [run_pool foldl]. exact IH. Qed.

(** X15. A batch without entries returns the empty list and does nothing,
    whatever the schedule; a batch of one entry is the single call: under
    every schedule that completes, its result, the bundler it leaves and
    the operations it made are those of [Bundle] on that entry. *)
Theorem bundleAll_small_batches (n : nat) (file : string) (globs : list string)
    (s : Bundler) (sched : list nat) :
  BundleAll n [] globs s sched = {| tasks := []; shared := s; trace := [] |} /\
  all_results (BundleAll n [] globs s sched) = Some [] /\
  forall rs,
    all_results (BundleAll n [file] globs s sched) = Some rs ->
    exists r, rs = [r] /\
      run (Bundle n file globs) s [] =
      (Ok r, shared (BundleAll n [file] globs s sched),
       trace (BundleAll n [file] globs s sched)).
Proof.
  assert (H0 : BundleAll n [] globs s sched = {| tasks := []; shared := s; trace := [] |}).
  { unfold BundleAll. cbn [map start fst snd]. apply run_pool_empty. }
  split; [done|]. split; [by rewrite H0|].
  intros rs. unfold BundleAll. rewrite (start_Bundle n [file] globs s).
  cbn [map fst snd].
  destruct (run_pool_single sched (Bundle n file globs) s []) as (t' & H1 & H2).
  unfold all_results. rewrite H1. rewrite <- H2.
  destruct t'; try done. cbn. intros [= <-]. by eexists.
Qed.

End Engine.


(** ** The command line *)

Lemma Verbosity_object_eq :
  Cli.Verbosity_object =
  [("None", Cli.VNum 0); ("0", Cli.VStr "None");
   ("Errors", Cli.VNum 8); ("8", Cli.VStr "Errors");
   ("Verbose", Cli.VNum 256); ("256", Cli.VStr "Verbose")].
Proof. reflexivity. Qed.

Lemma strict_eq_num (x : Cli.jsval) (z : Z) :
  Cli.strict_eq x (Cli.VNum z) = true <-> x = Cli.VNum z.
Proof.
  destruct x; simpl; try (split; [done | discriminate]).
  rewrite bool_decide_eq_true. split; [by intros -> | by intros [= ->]].
Qed.

Lemma pretty_N_char_digit x : Cli.is_digit (pretty_N_char x) = true.
Proof.
  unfold pretty_N_char. by repeat case_match.
Qed.

Lemma pretty_N_go_digit (x : N) : forall s,
  (0 < x)%N -> exists c r, pretty_N_go x s = String c r /\ Cli.is_digit c = true.
Proof.
  induction (N.lt_wf_0 x) as [x _ IH]. intros s Hx.
  rewrite pretty_N_go_step by done.
  destruct (decide (0 < x `div` 10)%N) as [Hd|Hd].
  - apply IH; [|done]. apply N.div_lt; [done|]. reflexivity.
  - apply N.nlt_ge, N.le_0_r in Hd. rewrite Hd, pretty_N_go_0.
    eexists _, _. split; [reflexivity|]. apply pretty_N_char_digit.
Qed.

Lemma pretty_Z_head (z : Z) :
  exists c r, pretty z = String c r /\ (Cli.is_digit c = true \/ c = "-"%char).
Proof.
  destruct z as [|p|p].
  - by exists "0"%char, EmptyString; split; [|left].
  - destruct (pretty_N_go_digit (Npos p) EmptyString) as (c & r & H1 & H2); [lia|].
    exists c, r. split; [|by left]. exact H1.
  - eexists _, _. split; [reflexivity|]. by right.
Qed.

Lemma pretty_Z_not_name (z : Z) (name : string) (n : Z) :
  (name, n) ∈ Cli.Verbosity_members -> pretty z <> name.
Proof.
  intros Hin Heq. destruct (pretty_Z_head z) as (c & r & H1 & H2).
  rewrite Heq in H1.
  unfold Cli.Verbosity_members in Hin.
  repeat (apply elem_of_cons in Hin as [Hin|Hin]);
    [| | |by apply elem_of_nil in Hin];
    injection Hin as -> _; injection H1 as <- _;
    (destruct H2 as [H2|H2]; [by vm_compute in H2 | discriminate]).
Qed.

Lemma resolveVerbosity_number (v : Cli.jsval) (n : Z) :
  Cli.resolveVerbosity v = Cli.VNum n <-> (Cli.to_key v, n) ∈ Cli.Verbosity_members.
Proof.
  unfold Cli.resolveVerbosity. rewrite Verbosity_object_eq.
  unfold Cli.Verbosity_members, Cli.Verbosity_None, Cli.Verbosity_Errors,
    Cli.Verbosity_Verbose.
  generalize (Cli.to_key v). clear v. intros k. cbn [Cli.assoc].
  rewrite !elem_of_cons, elem_of_nil.
  repeat case_bool_decide; subst; (split; [intros Hv|intros Hm]);
    try (injection Hv as <-); try tauto; try done;
    try (destruct Hm as [Hm|[Hm|[Hm|Hm]]]); try (by simplify_eq).
Qed.

Lemma resolveVerbosity_Verbose (v : Cli.jsval) :
  Cli.strict_eq (Cli.resolveVerbosity v) (Cli.VNum Cli.Verbosity_Verbose) = true
  <-> Cli.to_key v = "Verbose".
Proof.
  rewrite strict_eq_num, resolveVerbosity_number.
  unfold Cli.Verbosity_members, Cli.Verbosity_None, Cli.Verbosity_Errors,
    Cli.Verbosity_Verbose.
  rewrite !elem_of_cons, elem_of_nil. split.
  - intros [H|[H|[H|[]]]]; by simplify_eq.
  - intros ->. tauto.
Qed.

(** X16. [resolveVerbosity] returns a number exactly when the text of its
    argument is the name of a member of the enum, and then the number of
    that member.  Given the number of a member it returns the name of the
    member, a text; given any number it never returns a number. *)
Theorem resolveVerbosity_number_iff_name (v : Cli.jsval) (n : Z) :
  (Cli.resolveVerbosity v = Cli.VNum n <-> (Cli.to_key v, n) ∈ Cli.Verbosity_members) /\
  (forall name, (name, n) ∈ Cli.Verbosity_members ->
     Cli.resolveVerbosity (Cli.VNum n) = Cli.VStr name) /\
  (forall z, Cli.resolveVerbosity (Cli.VNum z) <> Cli.VNum n).
Proof.
  split; [apply resolveVerbosity_number|]. split.
  - intros name Hin. unfold Cli.Verbosity_members in Hin.
    repeat (apply elem_of_cons in Hin as [Hin|Hin]);
      [| | |by apply elem_of_nil in Hin]; injection Hin as -> ->; reflexivity.
  - intros z Hz. apply resolveVerbosity_number in Hz. by eapply (pretty_Z_not_name z).
Qed.

Lemma main_unfold path_resolve2 cwd (av : Cli.ArgumentsValues) p :
  Cli.project av = Cli.VStr p ->
  let config := {| Cli.Destination := Cli.dest av; Cli.Entry := Cli.entry av;
                   Cli.DedupeGlobs := Cli.dedupe av;
                   Cli.Verbosity := Cli.resolveVerbosity (Cli.verbosity av);
                   Cli.IncludePaths := Cli.includePaths av;
                   Cli.IgnoredImports := Cli.ignoredImports av;
                   Cli.ProjectDirectory := path_resolve2 cwd p |} in
  let checked := negb (Cli.strict_eq (Cli.verbosity av) (Cli.VNum Cli.Verbosity_None)) in
  let watching := negb (Cli.strict_eq (Cli.watch av) (Cli.VStr EmptyString))
                  && negb (Cli.strict_eq (Cli.watch av) Cli.VNull) in
  let verbose := Cli.strict_eq (Cli.resolveVerbosity (Cli.verbosity av))
                   (Cli.VNum Cli.Verbosity_Verbose) in
  Cli.main path_resolve2 cwd av =
  if checked && (Cli.nullish (Cli.entry av) || Cli.nullish (Cli.dest av)) then
    Cli.mkRun [Cli.NewLauncher config;
               Cli.ConsoleError "[Error] 'entry' and 'dest' are required.";
               Cli.ProcessExit (Some 1)] (inr (Cli.Exited (Some 1)))
  else if checked && watching && Cli.nullish (Cli.watch av) then
    Cli.mkRun [Cli.NewLauncher config;
               Cli.ConsoleError "[Error] 'watch' must be defined.";
               Cli.ProcessExit (Some 1)] (inr (Cli.Exited (Some 1)))
  else
    Cli.mkRun
      ([Cli.NewLauncher config]
         ++ (if watching
             then [Cli.ChokidarWatch (Cli.watch av)
                     (Cli.actions (Cli.onFilesChange config))]
             else [])
         ++ [Cli.LauncherBundle;
             if watching && verbose
             then Cli.ConsoleInfo "[Watcher] Waiting for changes..."
             else Cli.ProcessExit None])
      (if watching && verbose then inl tt else inr (Cli.Exited None)).
Proof.
  intros Hp config checked watching verbose.
  unfold Cli.main, Cli.argumentsToConfig, Cli.resolve_project. rewrite Hp.
  fold checked. 
  change (Cli.Verbosity_None) with 0%Z in *.
  destruct checked, (Cli.nullish (Cli.entry av)), (Cli.nullish (Cli.dest av));
    try reflexivity;
    subst watching verbose;
    destruct (Cli.strict_eq (Cli.watch av) (Cli.VStr EmptyString)),
             (Cli.strict_eq (Cli.watch av) Cli.VNull),
             (Cli.nullish (Cli.watch av)),
             (Cli.strict_eq (Cli.resolveVerbosity (Cli.verbosity av))
                (Cli.VNum Cli.Verbosity_Verbose)) eqn:E;
    cbn; rewrite ?E; reflexivity.
Qed.

Lemma main_rejects path_resolve2 cwd (av : Cli.ArgumentsValues) :
  (forall p, Cli.project av <> Cli.VStr p) ->
  Cli.main path_resolve2 cwd av = Cli.mkRun [] (inr Cli.Rejected).
Proof.
  intros Hp. unfold Cli.main, Cli.argumentsToConfig, Cli.resolve_project.
  destruct (Cli.project av); try reflexivity. by destruct (Hp s).
Qed.

Lemma checked_iff (v : Cli.jsval) :
  negb (Cli.strict_eq v (Cli.VNum Cli.Verbosity_None)) = true <-> v <> Cli.VNum 0.
Proof.
  rewrite negb_true_iff, <- not_true_iff_false, strict_eq_num. done.
Qed.

Lemma verbose_checked (v : Cli.jsval) :
  Cli.to_key v = "Verbose" -> v <> Cli.VNum 0.
Proof. intros H ->. discriminate. Qed.

Lemma watch_cases (w : Cli.jsval) :
  (negb (Cli.strict_eq w (Cli.VStr EmptyString)) && negb (Cli.strict_eq w Cli.VNull) = true
   <-> w <> Cli.VStr EmptyString /\ w <> Cli.VNull) /\
  (Cli.nullish w = true <-> w = Cli.VUndefined \/ w = Cli.VNull).
Proof.
  destruct w; cbn; try (split; split; naive_solver).
  case_bool_decide; subst; split; split; naive_solver.
Qed.

(** X17. [main] returns without ending the process, so that the watcher
    it has registered stays in charge, exactly when [project] is a text,
    [entry] and [dest] are given, [watch] is neither absent nor null nor
    the empty text, and the text of [verbosity] is the name Verbose.  In
    every other case it ends with [process.exit] or with an exception: in
    particular a watcher registered under any other verbosity, the number
    256 included, is ended by [process.exit()] right after the first
    bundle. *)
Theorem main_keeps_running_iff (path_resolve2 : string -> string -> string)
    (cwd : string) (av : Cli.ArgumentsValues) :
  Cli.result (Cli.main path_resolve2 cwd av) = inl tt <->
  (exists p, Cli.project av = Cli.VStr p) /\
  Cli.to_key (Cli.verbosity av) = "Verbose" /\
  Cli.nullish (Cli.entry av) = false /\ Cli.nullish (Cli.dest av) = false /\
  Cli.nullish (Cli.watch av) = false /\ Cli.watch av <> Cli.VStr EmptyString.
Proof.
  destruct (Cli.project av) as [| | | |p| |] eqn:Hp;
    try (rewrite main_rejects by (intros p; congruence);
         split; [done | by intros [[p ?] _]]).
  rewrite (main_unfold _ _ _ p Hp). cbv zeta.
  pose proof (resolveVerbosity_Verbose (Cli.verbosity av)) as Hverb.
  pose proof (checked_iff (Cli.verbosity av)) as Hchk.
  pose proof (verbose_checked (Cli.verbosity av)) as Hvc.
  destruct (watch_cases (Cli.watch av)) as [Hw Hn].
  destruct (Cli.strict_eq (Cli.resolveVerbosity _) _),
           (negb (Cli.strict_eq (Cli.verbosity av) _)),
           (negb (Cli.strict_eq (Cli.watch av) (Cli.VStr EmptyString)) && negb _),
           (Cli.nullish (Cli.entry av)), (Cli.nullish (Cli.dest av)),
           (Cli.nullish (Cli.watch av)); cbn; naive_solver.
Qed.

(** X18. [main] checks its arguments unless [verbosity] is the number 0
    itself: with any other verbosity, the name None included, it ends with
    an error message and exit code 1, without a call of [Launcher.Bundle],
    exactly when [entry] or [dest] is absent or null or [watch] is
    undefined.  [Launcher.Bundle] is called exactly when [project] is a
    text and the check passes or is not made. *)
Theorem main_checks_arguments (path_resolve2 : string -> string -> string)
    (cwd : string) (av : Cli.ArgumentsValues) :
  (Cli.result (Cli.main path_resolve2 cwd av) = inr (Cli.Exited (Some 1)) <->
   (exists p, Cli.project av = Cli.VStr p) /\
   Cli.verbosity av <> Cli.VNum 0 /\
   (Cli.nullish (Cli.entry av) = true \/ Cli.nullish (Cli.dest av) = true \/
    Cli.watch av = Cli.VUndefined)) /\
  (Cli.LauncherBundle ∈ Cli.actions (Cli.main path_resolve2 cwd av) <->
   (exists p, Cli.project av = Cli.VStr p) /\
   (Cli.verbosity av = Cli.VNum 0 \/
    (Cli.nullish (Cli.entry av) = false /\ Cli.nullish (Cli.dest av) = false /\
     Cli.watch av <> Cli.VUndefined))).
Proof.
  destruct (Cli.project av) as [| | | |p| |] eqn:Hp;
    try (rewrite main_rejects by (intros p; congruence);
         split; (split; [cbn; first [done | by intros ?%elem_of_nil] | by intros [[p ?] _]])).
  rewrite (main_unfold _ _ _ p Hp). cbv zeta.
  assert (Hdec : Cli.strict_eq (Cli.verbosity av) (Cli.VNum Cli.Verbosity_None) = true
                 /\ Cli.verbosity av = Cli.VNum 0 \/
                 Cli.strict_eq (Cli.verbosity av) (Cli.VNum Cli.Verbosity_None) = false
                 /\ Cli.verbosity av <> Cli.VNum 0).
  { destruct (Cli.strict_eq (Cli.verbosity av) (Cli.VNum Cli.Verbosity_None)) eqn:E.
    - left. split; [done|]. by apply strict_eq_num.
    - right. split; [done|]. intros H. apply strict_eq_num in H.
      unfold Cli.Verbosity_None in E. congruence. }
  destruct Hdec as [[-> Hv]|[-> Hv]];
    destruct (Cli.strict_eq (Cli.resolveVerbosity _) _),
             (Cli.nullish (Cli.entry av)), (Cli.nullish (Cli.dest av));
    destruct (Cli.watch av) as [| | | |w| |]; cbn;
    try case_bool_decide; cbn;
    rewrite ?elem_of_cons, ?elem_of_nil; split; naive_solver.
Qed.

(** ** The statements at concrete inputs *)

Abbreviation px_bundle :=
  (bundle px_resolve px_resolve2 px_dirname px_basename px_join px_EOL).
Abbreviation px_Bundle :=
  (Bundle px_resolve px_resolve2 px_dirname px_basename px_join px_EOL).
Abbreviation px_BundleAll fs glob :=
  (BundleAll px_resolve px_resolve2 px_dirname px_basename px_join px_EOL fs glob).
Abbreviation px_laws :=
  (path_laws px_resolve px_resolve2 px_dirname px_basename px_join).

Lemma px_path_laws : px_laws.
Proof. split; intros; reflexivity. Defined.

Example scan_two_lines :
  getAllMatches ("@import 'a';" +:+ String LF ("x @import " +:+ q2 "b/c" +:+ "; y")) =
  [ {| matchText := "@import 'a';"; matchPath := "a" |};
    {| matchText := "@import " +:+ q2 "b/c" +:+ ";"; matchPath := "b/c" |} ].
Proof. reflexivity. Qed.

Example scan_greedy_line :
  getAllMatches "@import 'a'; @import 'b';" =
  [ {| matchText := "@import 'a'; @import 'b';"; matchPath := "a'; @import 'b" |} ].
Proof. reflexivity. Qed.

Example strip_single_quoted :
  strip_commented ("x" +:+ "//@import 'a';" +:+ "y") = "xy".
Proof. reflexivity. Qed.

Example replace_first_only :
  js_replace "a-b-a" "a" "Z$$$&" = "Z$a-b-a".
Proof. reflexivity. Qed.


(** The scenario of the spec for not-found imports: the marker with the text
    of the directive, and a child node with found = false. *)
Example missing_import_scenario :
  (run demo_missing glob_literal (px_Bundle 2 "/p/a.scss" []) fresh []).1.1 =
  Ok {| filePath := "/p/a.scss"; resultFound := true;
        bundledContent :=
          Some ("/*** IMPORTED FILE NOT FOUND ***/" +:+ px_EOL
                +:+ "@import 'missing';" +:+ "/*** --- ***/");
        deduped := false;
        imports := Some [not_found_result "/p/missing.scss"] |}.
Proof. vm_compute. reflexivity. Qed.

(** A commented-out directive in double quotes is bundled like a live one. *)
Example commented_double_quote_scenario :
  (run (<["/p/m.scss" := File ("//@import " +:+ q2 "c" +:+ ";")]> demo_race) glob_literal
       (px_Bundle 3 "/p/m.scss" []) fresh []).1.1 =
  Ok {| filePath := "/p/m.scss"; resultFound := true;
        bundledContent := Some "//.c{}"; deduped := false;
        imports := Some [ {| filePath := "/p/c.scss"; resultFound := true;
                             bundledContent := Some ".c{}"; deduped := false;
                             imports := Some [] |} ] |}.
Proof. vm_compute. reflexivity. Qed.

(** Two files that import each other: the call returns; the inner import
    of the entry takes the seed of the entry from the registry, and the
    counter of the entry is NaN. *)
Example cycle_scenario :
  (run demo_cycle glob_literal (px_Bundle 3 "/p/a.scss" ["/p/a.scss"]) fresh []).1.1 =
  Ok {| filePath := "/p/a.scss"; resultFound := true;
        bundledContent := Some "@import 'b';"; deduped := false;
        imports :=
          Some [ {| filePath := "/p/b.scss"; resultFound := true;
                    bundledContent := Some "@import 'b';"; deduped := false;
                    imports :=
                      Some [ {| filePath := "/p/a.scss"; resultFound := true;
                                bundledContent := None; deduped := false;
                                imports := None |} ] |} ] |} /\
  usedImports (run demo_cycle glob_literal (px_Bundle 3 "/p/a.scss" ["/p/a.scss"]) fresh []).1.2
    !! "/p/a.scss" = Some NaN.
Proof. split; vm_compute; reflexivity. Qed.

(** The command line in watch mode: with the verbosity given by name the
    run returns and the watcher stays; with the verbosity given as the
    number 256 the configuration holds the name, and the run ends with
    [process.exit()] after the first bundle. *)
Example watch_verbose_by_name :
  Cli.result
    (Cli.main px_resolve2 "/w"
       {| Cli.config := Cli.VUndefined; Cli.dest := Cli.VStr "out.scss";
          Cli.entry := Cli.VStr "main.scss"; Cli.dedupe := Cli.VUndefined;
          Cli.verbosity := Cli.VStr "Verbose"; Cli.includePaths := Cli.VUndefined;
          Cli.ignoredImports := Cli.VUndefined; Cli.project := Cli.VStr "p";
          Cli.watch := Cli.VStr "src" |}) = inl tt.
Proof. vm_compute. reflexivity. Qed.

Example watch_verbose_by_number :
  Cli.main px_resolve2 "/w"
    {| Cli.config := Cli.VUndefined; Cli.dest := Cli.VStr "out.scss";
       Cli.entry := Cli.VStr "main.scss"; Cli.dedupe := Cli.VUndefined;
       Cli.verbosity := Cli.VNum 256; Cli.includePaths := Cli.VUndefined;
       Cli.ignoredImports := Cli.VUndefined; Cli.project := Cli.VStr "p";
       Cli.watch := Cli.VStr "src" |} =
  Cli.mkRun
    [ Cli.NewLauncher
        {| Cli.Destination := Cli.VStr "out.scss"; Cli.Entry := Cli.VStr "main.scss";
           Cli.DedupeGlobs := Cli.VUndefined; Cli.Verbosity := Cli.VStr "Verbose";
           Cli.IncludePaths := Cli.VUndefined; Cli.IgnoredImports := Cli.VUndefined;
           Cli.ProjectDirectory := "/w/p" |};
      Cli.ChokidarWatch (Cli.VStr "src") [Cli.LauncherBundle];
      Cli.LauncherBundle;
      Cli.ProcessExit None ]
    (inr (Cli.Exited None)).
Proof. vm_compute. reflexivity. Qed.

(** C1, on the code.  The entry imports a file of the dedupe list twice:
    the second import is marked deduped, and line 200 empties the whole
    working content, so the bundled content of the entry is empty and the
    content inlined at the first import site is lost. *)
Theorem dedupe_discards_content :
  (run demo_twice glob_literal (px_Bundle 3 "/p/main.scss" ["/p/a.scss"]) fresh []).1.1 =
  Ok {| filePath := "/p/main.scss"; resultFound := true;
        bundledContent := Some EmptyString; deduped := false;
        imports :=
          Some [ {| filePath := "/p/a.scss"; resultFound := true;
                    bundledContent := Some ".a{}"; deduped := false;
                    imports := Some [] |};
                 {| filePath := "/p/a.scss"; resultFound := true;
                    bundledContent := None; deduped := true;
                    imports := Some [] |} ] |}.
Proof. vm_compute. reflexivity. Qed.

(** C7, on the code.  The entry imports [a] once and [b], which is in the
    dedupe list, twice: at the second import of [b] line 200 empties the
    working content, and with it the text of [a] inlined before, although
    [a] is referenced once (and is never marked deduped). *)
Theorem single_reference_discarded :
  (run demo_mixed glob_literal (px_Bundle 3 "/p/main.scss" ["/p/b.scss"]) fresh []).1.1 =
  Ok {| filePath := "/p/main.scss"; resultFound := true;
        bundledContent := Some EmptyString; deduped := false;
        imports :=
          Some [ {| filePath := "/p/a.scss"; resultFound := true;
                    bundledContent := Some ".a{}"; deduped := false;
                    imports := Some [] |};
                 {| filePath := "/p/b.scss"; resultFound := true;
                    bundledContent := Some ".b{}"; deduped := false;
                    imports := Some [] |};
                 {| filePath := "/p/b.scss"; resultFound := true;
                    bundledContent := None; deduped := true;
                    imports := Some [] |} ] |} /\
  references demo_mixed "/p/a.scss"
    (run demo_mixed glob_literal (px_Bundle 3 "/p/main.scss" ["/p/b.scss"]) fresh []).2 = 1.
Proof. split; vm_compute; reflexivity. Qed.

(** C2, against the claim: two entries of one batch import the same file.
    The operations complete in turn: the two checks of the entries, the two
    reads of the entries, the two checks of the import, at which each task
    finds the registry without an entry for the import (line 144) and starts
    to read it, and the two reads of the import. *)
Lemma concurrent_entries_read_twice :
  is_Some (all_results
             (px_BundleAll demo_race glob_literal 4 ["/p/a.scss"; "/p/b.scss"] [] fresh
                [0; 1; 0; 1; 0; 1; 0; 1])) /\
  reads (trace
           (px_BundleAll demo_race glob_literal 4 ["/p/a.scss"; "/p/b.scss"] [] fresh
              [0; 1; 0; 1; 0; 1; 0; 1]))
  = ["/p/a.scss"; "/p/b.scss"; "/p/c.scss"; "/p/c.scss"] /\
  ~ NoDup (reads (trace
           (px_BundleAll demo_race glob_literal 4 ["/p/a.scss"; "/p/b.scss"] [] fresh
              [0; 1; 0; 1; 0; 1; 0; 1]))).
Proof.
  split; [vm_compute; eauto|].
  assert (E : reads (trace
           (px_BundleAll demo_race glob_literal 4 ["/p/a.scss"; "/p/b.scss"] [] fresh
              [0; 1; 0; 1; 0; 1; 0; 1]))
          = ["/p/a.scss"; "/p/b.scss"; "/p/c.scss"; "/p/c.scss"])
    by (vm_compute; reflexivity).
  split; [exact E|]. rewrite E. intros H.
  apply NoDup_cons in H as [_ H]. apply NoDup_cons in H as [_ H].
  apply NoDup_cons in H as [H _]. apply H. apply list_elem_of_here.
Qed.





(** In a batch the seed of an entry can be overwritten by another entry
    that imports it: here the second entry imports the first, finds the
    registry without an entry for it (line 144) before the first has
    seeded it, and stores its bundled content afterwards (line 153). *)
Example batch_overwrites_entry_seed :
  is_Some (all_results
             (px_BundleAll demo_shared glob_literal 4 ["/p/a.scss"; "/p/main.scss"] [] fresh
                [1; 1; 1; 0; 0; 0; 1; 1; 1; 0])) /\
  fileRegistry (shared
                  (px_BundleAll demo_shared glob_literal 4 ["/p/a.scss"; "/p/main.scss"] []
                     fresh [1; 1; 1; 0; 0; 0; 1; 1; 1; 0]))
    !! "/p/a.scss" = Some ".c{}".
Proof. split; [vm_compute; eauto | vm_compute; reflexivity]. Qed.

(** C8, against the claim: the bundler was constructed with a registry
    that has an entry for the path of a missing import.  The child node has
    found = false, and the text put in place of the directive is the
    registry entry: no marker, and the text of the directive is gone. *)
Lemma registry_entry_replaces_marker :
  fs_access demo_missing "/p/missing.scss" = false /\
  fs_access demo_missing "/p/_missing.scss" = false /\
  (run demo_missing glob_literal (px_Bundle 4 "/p/a.scss" [])
       (new_Bundler {[ "/p/missing.scss" := ".m{}" ]}) []).1.1 =
  Ok {| filePath := "/p/a.scss"; resultFound := true;
        bundledContent := Some ".m{}"; deduped := false;
        imports := Some [ {| filePath := "/p/missing.scss"; resultFound := false;
                             bundledContent := None; deduped := false;
                             imports := None |} ] |}.
Proof. repeat split; vm_compute; reflexivity. Qed.



(** ** Witnesses *)


Lemma import_reads_once_witness :
  let X := run demo_race glob_literal (px_Bundle 4 "/p/a.scss" []) fresh [] in
  px_laws /\
  X = (X.1.1, X.1.2, X.2) /\
  exists ev, X.2 = [] ++ entry_events demo_race "/p/a.scss" [] ++ ev /\ NoDup (reads ev) /\
    forall p, p ∈ reads ev ->
      fileRegistry fresh !! p = None /\ p <> px_resolve "/p/a.scss".
Proof.
  intros X. split; [exact px_path_laws|]. split; [apply triple_eta|].
  destruct (proj1 (proj2 (import_reads_once px_resolve px_resolve2 px_dirname px_basename
                            px_join px_EOL demo_race glob_literal 4))
              "/p/a.scss" [] fresh [] X.1.1 X.1.2 X.2 px_path_laws (triple_eta X))
    as (_ & ev & H1 & H2 & H3 & _).
  exists ev. split; [exact H1|]. split; [exact H2 | exact H3].
Defined.




Lemma dedupe_needs_two_references_witness :
  let X := run demo_twice glob_literal
             (px_bundle 3 "/p/main.scss"
                ("@import 'a';" +:+ px_EOL +:+ "@import 'a';" +:+ px_EOL) ["/p/a.scss"])
             fresh [] in
  px_laws /\
  X = (X.1.1, X.1.2, X.2) /\
  forall p k, usedImports X.1.2 !! p = Some (Num k) -> k <= references demo_twice p X.2.
Proof.
  intros X. split; [exact px_path_laws|]. split; [apply triple_eta|].
  exact (proj1 (proj2 (proj2
    (dedupe_needs_two_references px_resolve px_resolve2 px_dirname px_basename px_join
       px_EOL demo_twice glob_literal 3 "/p/main.scss"
       ("@import 'a';" +:+ px_EOL +:+ "@import 'a';" +:+ px_EOL) ["/p/a.scss"]
       X.1.1 X.1.2 X.2 px_path_laws (triple_eta X))))).
Defined.

Lemma not_found_import_witness :
  let m := {| matchText := "@import 'missing';"; matchPath := "missing" |} in
  fs_access demo_missing "/p/missing.scss" = false /\
  fs_access demo_missing "/p/_missing.scss" = false /\
  counted_exist demo_missing fresh /\
  run demo_missing glob_literal
    (import_step px_EOL (px_bundle 1) [] ("@import 'missing';", [])
       (resolved px_resolve2 px_dirname px_basename px_join demo_missing "/p" m))
    fresh []
  = (Ok (js_replace "@import 'missing';" "@import 'missing';"
           ("/*** IMPORTED FILE NOT FOUND ***/" +:+ px_EOL +:+ "@import 'missing';"
            +:+ "/*** --- ***/"),
         [] ++ [ {| filePath := "/p/missing.scss"; resultFound := false;
                    bundledContent := None; deduped := false; imports := None |} ]),
     fresh, []).
Proof.
  intros m. split; [reflexivity|]. split; [reflexivity|].
  destruct (not_found_import px_resolve px_resolve2 px_dirname px_basename px_join px_EOL
              demo_missing glob_literal "/p" m (px_bundle 1) [] ("@import 'missing';", [])
              fresh [] eq_refl eq_refl) as (H1 & _ & _ & H4).
  pose proof (H1 ∅) as Hfresh.
  split; [exact Hfresh|].
  exact (proj1 (proj2 (proj2 (proj2 (H4 Hfresh))))).
Defined.


Lemma import_directive_spans_line_witness :
  is_quote squote = true /\
  all_chars on_line "a'; @import 'b" = true /\
  line_end (String LF ".x{}") = true /\
  getAllMatches ("@import " +:+ String squote ("a'; @import 'b" +:+ String squote ";")
                 +:+ String LF ".x{}") =
  {| matchText := "@import " +:+ String squote ("a'; @import 'b" +:+ String squote ";");
     matchPath := "a'; @import 'b" |} :: getAllMatches (String LF ".x{}").
Proof.
  split; [reflexivity|]. split; [reflexivity|]. split; [reflexivity|].
  apply (import_directive_spans_line squote squote "a'; @import 'b" (String LF ".x{}"));
    try reflexivity.
  discriminate.
Defined.

Lemma commented_import_removed_to_line_end_witness :
  all_chars on_line "a'; .x { content: 'y" = true /\
  line_end (String LF ".z{}") = true /\
  strip_commented ("//@import '" +:+ "a'; .x { content: 'y" +:+ "';" +:+ String LF ".z{}")
  = strip_commented (String LF ".z{}").
Proof.
  split; [reflexivity|]. split; [reflexivity|].
  apply (commented_import_removed_to_line_end "a'; .x { content: 'y" (String LF ".z{}"));
    try reflexivity.
  discriminate.
Defined.

Lemma replace_expands_dollar_patterns_witness :
  indexOf "@import 'a';" "x @import 'a'; y" = Some 2 /\
  all_chars no_dollar "p" = true /\ all_chars no_dollar "q" = true /\
  js_replace "x @import 'a'; y" "@import 'a';" ("p" +:+ "$&" +:+ "q")
  = stake 2 "x @import 'a'; y" +:+ ("p" +:+ "@import 'a';" +:+ "q")
    +:+ sdrop (2 + String.length "@import 'a';") "x @import 'a'; y".
Proof.
  split; [reflexivity|]. split; [reflexivity|]. split; [reflexivity|].
  exact (proj1 (proj2 (proj2
    (replace_expands_dollar_patterns "x @import 'a'; y" "@import 'a';" "p" "q" 2
       eq_refl eq_refl eq_refl)))).
Defined.

Lemma import_inlined_verbatim_witness :
  let m := {| matchText := "@import 'missing';"; matchPath := "missing" |} in
  let imp := resolved px_resolve2 px_dirname px_basename px_join demo_missing "/p" m in
  let acc' := (js_replace "@import 'missing';" "@import 'missing';"
                 ("/*** IMPORTED FILE NOT FOUND ***/" +:+ px_EOL +:+ "@import 'missing';"
                  +:+ "/*** --- ***/"),
               [not_found_result "/p/missing.scss"]) in
  run demo_missing glob_literal
    (import_step px_EOL (px_bundle 1) [] ("@import 'missing';", []) imp) fresh []
  = (Ok acc', fresh, []) /\
  should_dedupe [] imp fresh = false /\
  all_chars no_dollar (text_to_inline px_EOL imp fresh) = true /\
  acc'.1 = match indexOf (importString imp) "@import 'missing';" with
           | Some i => stake i "@import 'missing';" +:+ text_to_inline px_EOL imp fresh
                       +:+ sdrop (i + String.length (importString imp)) "@import 'missing';"
           | None => "@import 'missing';"
           end.
Proof.
  intros m imp acc'.
  assert (E : run demo_missing glob_literal
                (import_step px_EOL (px_bundle 1) [] ("@import 'missing';", []) imp) fresh []
              = (Ok acc', fresh, [])) by reflexivity.
  split; [exact E|]. split; [reflexivity|]. split; [reflexivity|].
  exact (import_inlined_verbatim px_EOL demo_missing glob_literal (px_bundle 1) []
           ("@import 'missing';", []) acc' imp fresh fresh [] [] E eq_refl eq_refl).
Defined.

Lemma registry_overrides_disk_witness :
  let m := {| matchText := "@import 'missing';"; matchPath := "missing" |} in
  let imp := resolved px_resolve2 px_dirname px_basename px_join demo_missing "/p" m in
  let s := new_Bundler {[ "/p/missing.scss" := ".m{}" ]} in
  fileRegistry s !! fullPath imp = Some ".m{}" /\
  usedImports s !! fullPath imp = None /\
  importsByFile s !! fullPath imp = None /\
  run demo_missing glob_literal
    (import_step px_EOL (px_bundle 1) [] ("@import 'missing';", []) imp) s []
  = (Ok (js_replace "@import 'missing';" "@import 'missing';" ".m{}",
         [] ++ [ {| filePath := fullPath imp; resultFound := found imp;
                    bundledContent := None; deduped := false; imports := None |} ]),
     (if found imp then bump_used (fullPath imp) s else s), []).
Proof.
  intros m imp s.
  assert (Hreg : fileRegistry s !! fullPath imp = Some ".m{}") by reflexivity.
  assert (Hused : usedImports s !! fullPath imp = None) by reflexivity.
  assert (Hkids : importsByFile s !! fullPath imp = None) by reflexivity.
  split; [exact Hreg|]. split; [exact Hused|]. split; [exact Hkids|].
  exact (proj1 (registry_overrides_disk px_resolve2 px_dirname px_basename px_join px_EOL
                  demo_missing glob_literal "/p" m (px_bundle 1) []
                  ("@import 'missing';", []) s [] ".m{}" Hreg Hused Hkids)).
Defined.

Lemma import_free_file_unchanged_witness :
  indexOf "@import " ".a{}" = None /\
  run demo_twice glob_literal (px_bundle 1 "/p/a.scss" ".a{}" []) fresh []
  = (Ok (leaf_node "/p/a.scss" ".a{}"),
     set_imports "/p/a.scss" [] (seed_registry "/p/a.scss" ".a{}" fresh), []).
Proof.
  split; [reflexivity|].
  exact (import_free_file_unchanged px_resolve px_resolve2 px_dirname px_basename px_join
           px_EOL demo_twice glob_literal 0 "/p/a.scss" ".a{}" [] fresh [] eq_refl).
Defined.


Lemma deduped_only_listed_witness :
  let X := run demo_twice glob_literal
             (px_bundle 3 "/p/main.scss"
                ("@import 'a';" +:+ px_EOL +:+ "@import 'a';" +:+ px_EOL) ["/p/a.scss"])
             fresh [] in
  px_laws /\ stored (marked_in ["/p/a.scss"]) fresh /\
  exists r, X = (Ok r, X.1.2, X.2) /\
    forall x, x ∈ all_nodes r -> deduped x = true -> filePath x ∈ ["/p/a.scss"].
Proof.
  intros X. split; [exact px_path_laws|].
  assert (Hs : stored (marked_in ["/p/a.scss"]) fresh).
  { intros q l Hl. cbn in Hl. rewrite lookup_empty in Hl. discriminate. }
  split; [exact Hs|].
  assert (Hok : exists r, X.1.1 = Ok r) by (vm_compute; eauto).
  destruct Hok as [r Hr]. exists r.
  assert (E : X = (Ok r, X.1.2, X.2)) by (rewrite <- Hr; apply triple_eta).
  split; [exact E|].
  exact (proj1 (deduped_only_listed px_resolve px_resolve2 px_dirname px_basename px_join
                  px_EOL demo_twice glob_literal 3 "/p/main.scss"
                  ("@import 'a';" +:+ px_EOL +:+ "@import 'a';" +:+ px_EOL) ["/p/a.scss"]
                  fresh [] r X.1.2 X.2 px_path_laws Hs E)).
Defined.

Lemma uncounted_never_deduped_witness :
  let X := run demo_cycle glob_literal
             (px_bundle 3 "/p/a.scss" "@import 'b';" ["/p/a.scss"]) fresh [] in
  px_laws /\
  uncounted "/p/a.scss" fresh /\ stored (unmarked "/p/a.scss") fresh /\
  X = (X.1.1, X.1.2, X.2) /\
  uncounted "/p/a.scss" X.1.2 /\
  forall r, X.1.1 = Ok r ->
    forall x, x ∈ all_nodes r -> filePath x = "/p/a.scss" -> deduped x = false.
Proof.
  intros X. split; [exact px_path_laws|].
  assert (Hu : uncounted "/p/a.scss" fresh) by (left; reflexivity).
  assert (Hs : stored (unmarked "/p/a.scss") fresh).
  { intros q l Hl. cbn in Hl. rewrite lookup_empty in Hl. discriminate. }
  split; [exact Hu|]. split; [exact Hs|]. split; [apply triple_eta|].
  destruct (uncounted_never_deduped px_resolve px_resolve2 px_dirname px_basename px_join
              px_EOL demo_cycle glob_literal 3 "/p/a.scss" "@import 'b';" ["/p/a.scss"]
              "/p/a.scss" fresh [] X.1.1 X.1.2 X.2 px_path_laws (or_intror eq_refl)
              Hu Hs (triple_eta X)) as (H1 & H2 & _).
  split; [exact H1 | exact H2].
Defined.

Lemma children_follow_directives_witness :
  let X := run demo_twice glob_literal
             (px_bundle 3 "/p/main.scss"
                ("@import 'a';" +:+ px_EOL +:+ "@import 'a';" +:+ px_EOL) [])
             fresh [] in
  px_laws /\
  exists r, X = (Ok r, X.1.2, X.2) /\
    exists l, imports r = Some l /\ map filePath l = ["/p/a.scss"; "/p/a.scss"].
Proof.
  intros X. split; [exact px_path_laws|].
  assert (Hok : exists r, X.1.1 = Ok r) by (vm_compute; eauto).
  destruct Hok as [r Hr]. exists r.
  assert (E : X = (Ok r, X.1.2, X.2)) by (rewrite <- Hr; apply triple_eta).
  split; [exact E|].
  destruct (children_follow_directives px_resolve px_resolve2 px_dirname px_basename px_join
              px_EOL demo_twice glob_literal 3 "/p/main.scss"
              ("@import 'a';" +:+ px_EOL +:+ "@import 'a';" +:+ px_EOL) []
              fresh [] r X.1.2 X.2 px_path_laws E) as (l & H1 & H2 & _).
  exists l. split; [exact H1 | exact H2].
Defined.

Lemma Bundle_always_returns_witness :
  px_laws /\ size (dom demo_cycle) < 3 /\
  ~ Bundle_crashes demo_cycle glob_literal "/p/a.scss" ["*.scss"] /\
  (exists r s' tr',
     run demo_cycle glob_literal (px_Bundle 3 "/p/a.scss" ["*.scss"]) fresh []
     = (Ok r, s', tr')) /\
  glob_crashes glob_failing ["*.scss"] /\
  run demo_cycle glob_failing (px_Bundle 3 "/p/a.scss" ["*.scss"]) fresh [] =
  (Crashed, fresh, [] ++ entry_events demo_cycle "/p/a.scss" ["*.scss"]).
Proof.
  split; [exact px_path_laws|].
  assert (Hsize : size (dom demo_cycle) < 3) by (vm_compute; lia).
  split; [exact Hsize|].
  assert (Hnc : ~ Bundle_crashes demo_cycle glob_literal "/p/a.scss" ["*.scss"]).
  { intros [_ [_ H]]. discriminate H. }
  split; [exact Hnc|]. split.
  - destruct (proj1 (Bundle_always_returns px_resolve px_resolve2 px_dirname px_basename
                       px_join px_EOL demo_cycle glob_literal 3 "/p/a.scss" ["*.scss"]
                       fresh [] px_path_laws Hsize) Hnc) as (r & s' & tr' & H & _).
    by exists r, s', tr'.
  - assert (Hne : ["*.scss"] <> ([] : list string)) by discriminate.
    assert (Hcr : glob_crashes glob_failing ["*.scss"]) by (split; [exact Hne | reflexivity]).
    split; [exact Hcr|].
    exact (proj1 (proj2 (Bundle_always_returns px_resolve px_resolve2 px_dirname px_basename
                           px_join px_EOL demo_cycle glob_failing 3 "/p/a.scss" ["*.scss"]
                           fresh [] px_path_laws Hsize))
             (ex_intro _ "@import 'b';" eq_refl) Hcr).
Defined.

Lemma bundler_stays_wf_witness :
  px_laws /\ resolve_sound px_resolve demo_race /\
  wf demo_race
    (state_after demo_race glob_literal
       (map (fun call : string * list string => px_Bundle 4 call.1 call.2)
            [("/p/a.scss", []); ("/p/b.scss", ["/p/c.scss"])])
       fresh).
Proof.
  split; [exact px_path_laws|].
  assert (Hsound : resolve_sound px_resolve demo_race) by (intros q Hq; exact Hq).
  split; [exact Hsound|].
  exact (bundler_stays_wf px_resolve px_resolve2 px_dirname px_basename px_join px_EOL
           demo_race glob_literal 4 [("/p/a.scss", []); ("/p/b.scss", ["/p/c.scss"])]
           px_path_laws Hsound).
Defined.

